(** * Customer hierarchy: validation rules, mutation engine, import resolver

    A shallow embedding of the customer store hook ([useCustomerData]) and
    of the import component ([ImportCustomers]), with the properties of the
    hierarchy consistency engine stated over it, followed by the form
    ([CustomerForm]), the contact editor ([ContactManager]), the list
    ([CustomerList]) and the way [App] wires them to the store.

    Conventions of the embedding.
    - A JavaScript string is a [string]; its characters are read as code
      units below 256 (Latin-1), which fixes [trim] and [toLowerCase].
    - An array is a [list]; [Array.prototype.map], [filter], [some],
      [find] and [includes] are the list functions of the same name.
    - React state is passed explicitly: an updater [prev => next] is a
      function from the population to the population.
    - [Date.now()], [Math.random()] and [new Date().toISOString()] are read
      from an oracle indexed by the number of reads made so far. *)

From Stdlib Require Import Ascii.
From stdpp Require Import base decidable option list strings gmap pretty.

Set Default Proof Using "Type".

(** ** JavaScript strings *)

Module JS.

(** [WhiteSpace] and [LineTerminator] code units below 256: TAB, LF, VT,
    FF, CR, SP and NBSP. *)
Definition isWhiteSpace (a : ascii) : bool :=
  bool_decide (nat_of_ascii a ∈ [9; 10; 11; 12; 13; 32; 160]).

Fixpoint trimStart (s : string) : string :=
  match s with
  | EmptyString => EmptyString
  | String a s' => if isWhiteSpace a then trimStart s' else s
  end.

Fixpoint trimEnd (s : string) : string :=
  match s with
  | EmptyString => EmptyString
  | String a s' =>
      match trimEnd s' with
      | EmptyString => if isWhiteSpace a then EmptyString else String a EmptyString
      | t => String a t
      end
  end.

(** [String.prototype.trim]. *)
Definition trim (s : string) : string := trimEnd (trimStart s).

(** Lower case of one code unit: A-Z, and the Latin-1 capitals
    U+00C0-U+00DE except the multiplication sign U+00D7. *)
Definition lowerChar (a : ascii) : ascii :=
  let n := nat_of_ascii a in
  if bool_decide (65 ≤ n ≤ 90) || bool_decide (192 ≤ n ≤ 214)
     || bool_decide (216 ≤ n ≤ 222)
  then ascii_of_nat (n + 32) else a.

(** [String.prototype.toLowerCase]. *)
Fixpoint toLowerCase (s : string) : string :=
  match s with
  | EmptyString => EmptyString
  | String a s' => String (lowerChar a) (toLowerCase s')
  end.

(** Truthiness of a string: [!!s]. *)
Definition truthy (s : string) : bool := negb (String.eqb s "").

(** [!s.trim()]: the string is empty or white space only. *)
Definition blank (s : string) : bool := negb (truthy (trim s)).

(** [!!s?.trim()] on an optional string. *)
Definition present (o : option string) : bool :=
  match o with
  | Some s => truthy (trim s)
  | None => false
  end.

(** [xs.includes(x)] on an array of strings. *)
Definition includes (xs : list string) (x : string) : bool :=
  existsb (String.eqb x) xs.

End JS.

(** ** Entity model ([types.ts]) *)

Inductive CustomerType := DIRECT | PARENT.

#[global] Instance CustomerType_eq_dec : EqDecision CustomerType.
Proof. solve_decision. Defined.

Module Contact.
Record t := mk {
  id : string;
  name : string;
  email : string;
  phone : string;
  isPrimary : bool
}.
End Contact.

Module Address.
Record t := mk {
  id : string;
  street : option string;
  latitude : option string;
  longitude : option string;
  city : string;
  state : string;
  zipCode : string;
  isPrimary : bool;
  isBilling : bool;
  isGateProperty : bool
}.
End Address.

(** The value of [Customer.parentId], declared [string | null] and
  optional: a missing property, [null], or a string. *)
Inductive ParentId :=
| undefined
| null
| ref (i : string).

#[global] Instance ParentId_eq_dec : EqDecision ParentId.
Proof. solve_decision. Defined.

(** [c.parentId === id] for a string [id]. *)
Definition refers (p : ParentId) (i : string) : bool :=
match p with
| ref j => String.eqb j i
| _ => false
end.

(** The parent reference is neither missing nor [null]. *)
Definition linked (p : ParentId) : bool :=
match p with
| ref _ => true
| _ => false
end.

Module Customer.
Record t := mk {
  id : string;
  type : CustomerType;
  name : string;
  accountNumber : string;
  isVip : bool;
  addresses : list Address.t;
  parentId : ParentId;
  contacts : list Contact.t;
  createdAt : string
}.

(** [{ ...c, parentId: p, type: ty }] *)
Definition relink (c : t) (p : ParentId) (ty : CustomerType) : t :=
  mk (id c) ty (name c) (accountNumber c) (isVip c) (addresses c) p
     (contacts c) (createdAt c).
End Customer.

(** [CustomerFormData]: [parentId] is declared [string | null]. *)
Module FormData.
Record t := mk {
  type : CustomerType;
  name : string;
  accountNumber : string;
  isVip : bool;
  addresses : list Address.t;
  parentId : option string;
  contacts : list Contact.t
}.

Definition parentRef (d : t) : ParentId :=
  match parentId d with
  | Some i => ref i
  | None => null
  end.
End FormData.

Definition isParentType (ty : CustomerType) : bool :=
bool_decide (ty = PARENT).

(** ** The customer store hook ([useCustomerData]) *)

(** The messages pushed by [validateCustomer], with their parameters. *)
Inductive Violation :=
| NameRequired
| AccountRequired
| AccountInUse (accountNumber : string)
| AddressRequired
| NoPrimaryAddress
| ManyPrimaryAddresses
| NoBillingAddress
| ManyBillingAddresses
| AddressLocation (n : nat)
| AddressCity (n : nat)
| AddressState (n : nat)
| AddressZipCode (n : nat)
| ContactRequired
| NoPrimaryContact
| ManyPrimaryContacts
| ContactName (n : nat)
| ContactEmail (n : nat)
| ContactPhone (n : nat)
| ParentHasParent.

(** The text of each message. *)
Definition render (v : Violation) : string :=
  match v with
  | NameRequired => "Customer Name is required."
  | AccountRequired => "Account Number is required."
  | AccountInUse a => "Account Number '" +:+ a +:+ "' is already in use."
  | AddressRequired => "At least one address is required."
  | NoPrimaryAddress =>
      "You must designate exactly one Primary Location address."
  | ManyPrimaryAddresses =>
      "Only one address can be marked as the Primary Location."
  | NoBillingAddress => "You must designate exactly one Billing Address."
  | ManyBillingAddresses =>
      "Only one address can be marked as the Billing Address."
  | AddressLocation n =>
      "Address #" +:+ pretty n
      +:+ ": Must provide either Street Address OR Latitude + Longitude."
  | AddressCity n => "Address #" +:+ pretty n +:+ ": City is required."
  | AddressState n => "Address #" +:+ pretty n +:+ ": State is required."
  | AddressZipCode n =>
      "Address #" +:+ pretty n +:+ ": Zip Code is required."
  | ContactRequired => "At least one contact person is required."
  | NoPrimaryContact => "You must designate exactly one Primary Contact."
  | ManyPrimaryContacts => "Only one contact can be marked as Primary."
  | ContactName n => "Contact #" +:+ pretty n +:+ ": Name is required."
  | ContactEmail n => "Contact #" +:+ pretty n +:+ ": Email is required."
  | ContactPhone n => "Contact #" +:+ pretty n +:+ ": Phone is required."
  | ParentHasParent => "A Parent Customer cannot have a Parent."
  end.

(** [if (cond) errors.push(v)] *)
Definition pushIf (cond : bool) (v : Violation) : list Violation :=
  if cond then [v] else [].

(** The body of [data.addresses.forEach((addr, idx) => ...)]. *)
Definition addressViolations (idx : nat) (addr : Address.t) : list Violation :=
  let hasStreet := JS.present (Address.street addr) in
  let hasLatLong :=
    JS.present (Address.latitude addr) && JS.present (Address.longitude addr) in
  pushIf (negb hasStreet && negb hasLatLong) (AddressLocation (idx + 1))
  ++ pushIf (JS.blank (Address.city addr)) (AddressCity (idx + 1))
  ++ pushIf (JS.blank (Address.state addr)) (AddressState (idx + 1))
  ++ pushIf (JS.blank (Address.zipCode addr)) (AddressZipCode (idx + 1)).

(** The body of [data.contacts.forEach((c, idx) => ...)]. *)
Definition contactViolations (idx : nat) (c : Contact.t) : list Violation :=
  pushIf (JS.blank (Contact.name c)) (ContactName (idx + 1))
  ++ pushIf (JS.blank (Contact.email c)) (ContactEmail (idx + 1))
  ++ pushIf (JS.blank (Contact.phone c)) (ContactPhone (idx + 1)).

Section UseCustomerData.

(** The population held in the hook's state. *)
Variable customers : list Customer.t.

(** [!customers.some(c => c.accountNumber === accountNumber &&
    c.id !== excludeId)]; a missing [excludeId] differs from every id. *)
Definition checkAccountNumberUnique
    (accountNumber : string) (excludeId : option string) : bool :=
  negb (existsb
          (fun c =>
             String.eqb (Customer.accountNumber c) accountNumber
             && negb (bool_decide (Some (Customer.id c) = excludeId)))
          customers).

(** The violations in the order [validateCustomer] pushes them. *)
Definition violations (data : FormData.t) (existingId : option string)
  : list Violation :=
  pushIf (JS.blank (FormData.name data)) NameRequired
  ++ pushIf (JS.blank (FormData.accountNumber data)) AccountRequired
  ++ pushIf (negb (checkAccountNumberUnique
                     (FormData.accountNumber data) existingId))
            (AccountInUse (FormData.accountNumber data))
  ++ (if bool_decide (length (FormData.addresses data) = 0)
      then [AddressRequired]
      else
        let primaryCount :=
          length (List.filter Address.isPrimary (FormData.addresses data)) in
        let billingCount :=
          length (List.filter Address.isBilling (FormData.addresses data)) in
        pushIf (bool_decide (primaryCount = 0)) NoPrimaryAddress
        ++ pushIf (bool_decide (1 < primaryCount)) ManyPrimaryAddresses
        ++ pushIf (bool_decide (billingCount = 0)) NoBillingAddress
        ++ pushIf (bool_decide (1 < billingCount)) ManyBillingAddresses
        ++ concat (imap addressViolations (FormData.addresses data)))
  ++ (if bool_decide (length (FormData.contacts data) = 0)
      then [ContactRequired]
      else
        let primaryContacts :=
          length (List.filter Contact.isPrimary (FormData.contacts data)) in
        pushIf (bool_decide (primaryContacts = 0)) NoPrimaryContact
        ++ pushIf (bool_decide (1 < primaryContacts)) ManyPrimaryContacts
        ++ concat (imap contactViolations (FormData.contacts data)))
  ++ pushIf (isParentType (FormData.type data)
             && match FormData.parentId data with
                | Some i => JS.truthy i
                | None => false
                end)
            ParentHasParent.

Definition validateCustomer (data : FormData.t) (existingId : option string)
  : list string :=
  render <$> violations data existingId.

End UseCustomerData.

(** [addCustomer]: [now] is the value of [Date.now()] and [iso] the value
    of [new Date().toISOString()] at the call; the result is the next
    state computed by the updater passed to [setCustomers]. *)
Definition addCustomer (now : N) (iso : string)
    (data : FormData.t) (childIdsToLink : list string)
    (prev : list Customer.t) : list Customer.t :=
  let newCustomer :=
    Customer.mk ("cust_" +:+ pretty now) (FormData.type data)
      (FormData.name data) (FormData.accountNumber data)
      (FormData.isVip data) (FormData.addresses data)
      (if bool_decide (FormData.type data = DIRECT)
       then FormData.parentRef data else undefined)
      (FormData.contacts data) iso in
  let updated := prev ++ [newCustomer] in
  if isParentType (FormData.type data)
     && bool_decide (0 < length childIdsToLink)
  then
    map (fun c =>
           if JS.includes childIdsToLink (Customer.id c)
           then Customer.relink c (ref (Customer.id newCustomer)) DIRECT
           else c)
        updated
  else updated.

Definition batchAddCustomers (newCustomers prev : list Customer.t)
  : list Customer.t :=
  prev ++ newCustomers.

(** [{ ...c, ...data }]: every field of the form data overrides the
    record's; [id] and [createdAt] are kept. *)
Definition mergeForm (c : Customer.t) (data : FormData.t) : Customer.t :=
  Customer.mk (Customer.id c) (FormData.type data) (FormData.name data)
    (FormData.accountNumber data) (FormData.isVip data)
    (FormData.addresses data) (FormData.parentRef data)
    (FormData.contacts data) (Customer.createdAt c).

(** Pass 1 of the relink in [updateCustomer]. *)
Definition unassign (id : string) (childIdsToLink : list string)
    (c : Customer.t) : Customer.t :=
  if refers (Customer.parentId c) id
     && negb (JS.includes childIdsToLink (Customer.id c))
  then Customer.relink c null PARENT
  else c.

(** Pass 2 of the relink in [updateCustomer]. *)
Definition assign (id : string) (childIdsToLink : list string)
    (c : Customer.t) : Customer.t :=
  if JS.includes childIdsToLink (Customer.id c)
  then Customer.relink c (ref id) DIRECT
  else c.

Definition updateCustomer (id : string) (data : FormData.t)
    (childIdsToLink : list string) (prev : list Customer.t)
  : list Customer.t :=
  let updated :=
    map (fun c => if String.eqb (Customer.id c) id then mergeForm c data else c)
        prev in
  if isParentType (FormData.type data)
  then map (assign id childIdsToLink) (map (unassign id childIdsToLink) updated)
  else updated.

(** What [updateCustomer] does to one record: the three [map]s fused. *)
Definition updateOne (id : string) (data : FormData.t)
    (kids : list string) (c : Customer.t) : Customer.t :=
  let c' := if String.eqb (Customer.id c) id then mergeForm c data else c in
  if isParentType (FormData.type data)
  then assign id kids (unassign id kids c')
  else c'.

(** [deleteCustomer]: the target is looked up in the current state; a
    miss returns before any state update. *)
Definition deleteCustomer (id : string) (customers : list Customer.t)
  : list Customer.t :=
  match List.find (fun c => String.eqb (Customer.id c) id) customers with
  | None => customers
  | Some customer =>
      if isParentType (Customer.type customer)
      then
        let updatedList :=
          map (fun c =>
                 if refers (Customer.parentId c) id
                 then Customer.relink c null PARENT
                 else c)
              customers in
        List.filter (fun c => negb (String.eqb (Customer.id c) id)) updatedList
      else List.filter (fun c => negb (String.eqb (Customer.id c) id)) customers
  end.

(** ** The import component ([ImportCustomers]) *)

Module ImportRow.
Record t := mk {
  rowNumber : nat;
  customerName : string;
  accountNumber : string;
  address : string;
  zipCode : string;
  parentCustomerName : string;
  contactName : string;
  contactEmail : string;
  contactPhone : string;
  isPrimary : bool
}.
End ImportRow.

Module RowError.
Record t := mk {
  rowNumber : nat;
  reason : string
}.
End RowError.

#[global] Instance RowError_eq_dec : EqDecision RowError.t.
Proof. solve_decision. Defined.

Record ProcessedBatch := {
  validCustomers : list Customer.t;
  errors : list RowError.t
}.

(** *** Reading the file *)

Definition quoteChar : ascii := ascii_of_nat 34.
Definition commaChar : ascii := ascii_of_nat 44.
Definition newlineChar : ascii := ascii_of_nat 10.

(** [s.replace(/^"|"$/g, '')]: one leading quote is removed, then one
    trailing quote of what follows it. *)
Fixpoint dropTrailingQuote (s : string) : string :=
  match s with
  | EmptyString => EmptyString
  | String a EmptyString =>
      if Ascii.eqb a quoteChar then EmptyString else s
  | String a s' => String a (dropTrailingQuote s')
  end.

Definition stripQuotes (s : string) : string :=
  match s with
  | String a s' =>
      if Ascii.eqb a quoteChar then dropTrailingQuote s' else dropTrailingQuote s
  | EmptyString => EmptyString
  end.

(** The loop of [parseCSVLine]: [cur] is [line.substring(start, i)]. *)
Fixpoint splitFields (inQuotes : bool) (cur : string) (line : string)
  : list string :=
  match line with
  | EmptyString => [cur]
  | String a rest =>
      if Ascii.eqb a quoteChar
      then splitFields (negb inQuotes) (cur +:+ String a EmptyString) rest
      else if Ascii.eqb a commaChar && negb inQuotes
      then cur :: splitFields inQuotes EmptyString rest
      else splitFields inQuotes (cur +:+ String a EmptyString) rest
  end.

Definition parseCSVLine (line : string) : list string :=
  (fun field => JS.trim (stripQuotes field)) <$> splitFields false "" line.

(** [text.split('\n')] *)
Fixpoint splitLines (cur : string) (text : string) : list string :=
  match text with
  | EmptyString => [cur]
  | String a rest =>
      if Ascii.eqb a newlineChar
      then cur :: splitLines EmptyString rest
      else splitLines (cur +:+ String a EmptyString) rest
  end.

(** [lines.slice(1).filter(line => line.trim() !== '')] *)
Definition dataRowsOf (text : string) : list string :=
  List.filter (fun line => negb (JS.blank line)) (tail (splitLines "" text)).

(** [cols[k]] for a column the guard [cols.length >= 7] has secured. *)
Definition col (cols : list string) (k : nat) : string :=
  default "" (cols !! k).

(** [cols[8]?.toLowerCase() === 'true' ||
     cols[8]?.toLowerCase() === 'yes' || cols[8] === '1'] *)
Definition primaryFlag (c : option string) : bool :=
  match c with
  | Some v =>
      String.eqb (JS.toLowerCase v) "true"
      || String.eqb (JS.toLowerCase v) "yes"
      || String.eqb v "1"
  | None => false
  end.

(** The body of [dataRows.forEach((line, index) => ...)]: the row pushed
    to [rawRows], if any. *)
Definition parseRow (index : nat) (line : string) : option ImportRow.t :=
  let cols := parseCSVLine line in
  if bool_decide (7 ≤ length cols)
  then Some (ImportRow.mk (index + 2) (col cols 0) (col cols 1) (col cols 2)
               (col cols 3) (col cols 4) (col cols 5) (col cols 6)
               (match cols !! 7 with
                | Some v => if JS.truthy v then v else ""
                | None => ""
                end)
               (primaryFlag (cols !! 8)))
  else None.

Definition rawRowsOf (dataRows : list string) : list ImportRow.t :=
  omap id (imap parseRow dataRows).

(** *** Grouping by account number *)

(** The object [groupedByAccount]: its own properties in creation order. *)
Abbreviation Grouped := (list (string * list ImportRow.t)).

(** The properties a plain object inherits from [Object.prototype]. Read
    through [groupedByAccount[acc]] each of them is truthy and has no
    [push] method. *)
Definition inheritedKeys : list string :=
  [ "constructor"; "__defineGetter__"; "__defineSetter__"; "hasOwnProperty";
    "__lookupGetter__"; "__lookupSetter__"; "isPrototypeOf";
    "propertyIsEnumerable"; "toString"; "valueOf"; "__proto__";
    "toLocaleString" ].

Definition ownGet (acc : string) (obj : Grouped) : option (list ImportRow.t) :=
  snd <$> List.find (fun kv => String.eqb (fst kv) acc) obj.

(** [groupedByAccount[acc].push(row)] on an own property. *)
Fixpoint pushTo (acc : string) (row : ImportRow.t) (obj : Grouped) : Grouped :=
  match obj with
  | [] => []
  | (k, rs) :: obj' =>
      if String.eqb k acc then (k, rs ++ [row]) :: obj'
      else (k, rs) :: pushTo acc row obj'
  end.

(** The body of [rows.forEach(row => ...)]; [None] is the [TypeError]
    raised by [push] on an inherited property. *)
Definition groupRow (obj : Grouped) (row : ImportRow.t) : option Grouped :=
  let acc := ImportRow.accountNumber row in
  match ownGet acc obj with
  | Some _ => Some (pushTo acc row obj)
  | None =>
      if JS.includes inheritedKeys acc then None
      else Some (pushTo acc row (obj ++ [(acc, [])]))
  end.

Fixpoint groupFrom (obj : Grouped) (rows : list ImportRow.t) : option Grouped :=
  match rows with
  | [] => Some obj
  | row :: rest => obj' ← groupRow obj row; groupFrom obj' rest
  end.

Definition groupByAccount (rows : list ImportRow.t) : option Grouped :=
  groupFrom [] rows.

(** *** Property order of [Object.keys] *)

Definition digit (a : ascii) : option N :=
  let n := nat_of_ascii a in
  if bool_decide (48 ≤ n ≤ 57) then Some (N.of_nat (n - 48)) else None.

Fixpoint decimal (acc : N) (s : string) : option N :=
  match s with
  | EmptyString => Some acc
  | String a s' => d ← digit a; decimal (10 * acc + d)%N s'
  end.

(** An array index: a canonical numeric string below [2^32 - 1]. *)
Definition arrayIndex (s : string) : option N :=
  match s with
  | EmptyString => None
  | _ =>
      n ← decimal 0 s;
      if bool_decide (pretty n = s) && bool_decide (n < 4294967295)%N
      then Some n else None
  end.

(** A stable sort by insertion. *)
Fixpoint insertSorted {A} (leb : A → A → bool) (x : A) (l : list A) : list A :=
  match l with
  | [] => [x]
  | y :: l' => if leb x y then x :: l else y :: insertSorted leb x l'
  end.

Definition stableSort {A} (leb : A → A → bool) (l : list A) : list A :=
  foldr (insertSorted leb) [] l.

Definition indexLeb (p q : N * (string * list ImportRow.t)) : bool :=
  (fst p <=? fst q)%N.

(** The groups in the order of [Object.keys(groupedByAccount)]: array
    indices ascending, then the other keys in creation order. *)
Definition ownKeys (obj : Grouped) : Grouped :=
  (snd <$> stableSort indexLeb
             (omap (fun kv => n ← arrayIndex (fst kv); Some (n, kv)) obj))
  ++ List.filter (fun kv => bool_decide (arrayIndex (fst kv) = None)) obj.

(** *** The resolver ([analyzeRows]) *)

(** The values read from the clock and the random source: the [n]-th read
    returns [dateNow n] for [Date.now()], [randomTag n] for
    [Math.random().toString(36).substr(2, 5)] and [isoNow n] for
    [new Date().toISOString()]. *)
Record Oracle := {
  dateNow : nat → N;
  randomTag : nat → string;
  isoNow : nat → string
}.

(** [`cust_import_${Date.now()}_${Math.random().toString(36).substr(2, 5)}`] *)
Definition syntheticId (o : Oracle) (n : nat) : string :=
  "cust_import_" +:+ pretty (dateNow o n) +:+ "_" +:+ randomTag o n.

(** What the second pass does with one group: it pushes rejection entries
    and returns, or pushes one customer. *)
Inductive Verdict :=
| Reject (es : list RowError.t)
| Accept (c : Customer.t).

Definition rejectAll (groupRows : list ImportRow.t) (reason : string)
  : list RowError.t :=
  (fun r => RowError.mk (ImportRow.rowNumber r) reason) <$> groupRows.

Definition contactOfRow (accNum : string) (idx : nat) (row : ImportRow.t)
  : Contact.t :=
  Contact.mk ("cont_imp_" +:+ accNum +:+ "_" +:+ pretty idx)
    (ImportRow.contactName row) (ImportRow.contactEmail row)
    (ImportRow.contactPhone row) (ImportRow.isPrimary row).

(** [validContacts[0].isPrimary = true] *)
Definition markFirstPrimary (cs : list Contact.t) : list Contact.t :=
  match cs with
  | c :: cs' =>
      Contact.mk (Contact.id c) (Contact.name c) (Contact.email c)
        (Contact.phone c) true :: cs'
  | [] => []
  end.

Section AnalyzeRows.

Variable o : Oracle.
(** The component's props. *)
Variable existingCustomers : list Customer.t.
Variable existingParents : list Customer.t.

(** [existingParents.forEach(p => parentNameMap.set(p.name.toLowerCase(),
    p.id))] *)
Definition seedParents : gmap string string :=
  foldl (fun m p => <[JS.toLowerCase (Customer.name p) := Customer.id p]> m)
        ∅ existingParents.

(** First pass, one group: the state is the name map and the number of
    oracle reads. *)
Definition registerParent (st : gmap string string * nat)
    (g : string * list ImportRow.t) : gmap string string * nat :=
  match snd g with
  | [] => st
  | firstRow :: _ =>
      let isParent := negb (JS.truthy (ImportRow.parentCustomerName firstRow)) in
      if isParent
      then
        let customerId := syntheticId o (snd st) in
        (if JS.truthy (ImportRow.customerName firstRow)
         then <[JS.toLowerCase (ImportRow.customerName firstRow) := customerId]>
                (fst st)
         else fst st,
         S (snd st))
      else st
  end.

(** Steps 5 and 6 of the second pass for a group whose contacts are
    settled. *)
Definition buildCustomer (parentNameMap : gmap string string) (n : nat)
    (groupRows : list ImportRow.t) (firstRow : ImportRow.t)
    (validContacts : list Contact.t) : Verdict * nat :=
  let isParent := negb (JS.truthy (ImportRow.parentCustomerName firstRow)) in
  let parentId :=
    if isParent then None
    else parentNameMap !! JS.toLowerCase (ImportRow.parentCustomerName firstRow) in
  if negb isParent && negb (from_option JS.truthy false parentId)
  then
    (Reject (rejectAll groupRows
               ("Parent Customer '" +:+ ImportRow.parentCustomerName firstRow
                +:+ "' not found (in system or file).")), n)
  else
    let '(finalId, n1) :=
      if isParent
      then (parentNameMap !! JS.toLowerCase (ImportRow.customerName firstRow), n)
      else (Some (syntheticId o n), S n) in
    let '(finalId, n2) :=
      if from_option JS.truthy false finalId
      then (default "" finalId, n1)
      else ("cust_err_" +:+ pretty (dateNow o n1), S n1) in
    let primaryAddress :=
      Address.mk ("addr_" +:+ pretty (dateNow o n2) +:+ "_imp")
        (Some (ImportRow.address firstRow)) None None
        "Imported City" "Imported State" (ImportRow.zipCode firstRow)
        true true false in
    (Accept (Customer.mk finalId (if isParent then PARENT else DIRECT)
               (ImportRow.customerName firstRow)
               (ImportRow.accountNumber firstRow) false [primaryAddress]
               (if isParent then undefined else from_option ref undefined parentId)
               validContacts (isoNow o (S n2))),
     S (S n2)).

(** Second pass, one group. A property of [groupedByAccount] is created
    with its first row, so [groupRows[0]] is always there; the empty case
    is not reached. *)
Definition analyzeGroup (parentNameMap : gmap string string) (n : nat)
    (accNum : string) (groupRows : list ImportRow.t) : Verdict * nat :=
  match groupRows with
  | [] => (Reject [], n)
  | firstRow :: _ =>
      if negb (JS.truthy (ImportRow.customerName firstRow))
      then (Reject (rejectAll groupRows "Missing Customer Name"), n)
      else if bool_decide
                (1 < size (list_to_set (ImportRow.customerName <$> groupRows)
                           : gset string))
      then (Reject (rejectAll groupRows
                      ("Duplicate Account Number '" +:+ accNum
                       +:+ "' used for different customer names.")), n)
      else if existsb (fun c => String.eqb (Customer.accountNumber c) accNum)
                      existingCustomers
      then (Reject (rejectAll groupRows
                      ("Account Number '" +:+ accNum
                       +:+ "' already exists in the system.")), n)
      else
        let contacts := imap (contactOfRow accNum) groupRows in
        let validContacts :=
          List.filter
            (fun c => JS.truthy (Contact.name c) && JS.truthy (Contact.email c))
            contacts in
        if negb (bool_decide (length validContacts = length contacts))
        then
          (Reject
             (rejectAll
                (List.filter
                   (fun r => negb (JS.truthy (ImportRow.contactName r))
                             || negb (JS.truthy (ImportRow.contactEmail r)))
                   groupRows)
                "Missing Contact Name or Email."), n)
        else if bool_decide (length validContacts = 1)
        then buildCustomer parentNameMap n groupRows firstRow
               (markFirstPrimary validContacts)
        else if bool_decide (1 < length validContacts)
        then
          let primaryCount := length (List.filter Contact.isPrimary validContacts) in
          if bool_decide (primaryCount = 0)
          then (Reject (rejectAll groupRows
                          "Multiple contacts found but none marked as Primary."), n)
          else if bool_decide (1 < primaryCount)
          then (Reject (rejectAll groupRows
                          "Multiple contacts marked as Primary. Only one allowed."), n)
          else buildCustomer parentNameMap n groupRows firstRow validContacts
        else (Reject (rejectAll groupRows "No valid contacts found."), n)
  end.

(** The state of the second pass: the two output arrays and the number of
    oracle reads. *)
Record Pass := {
  accepted : list Customer.t;
  rejected : list RowError.t;
  reads : nat
}.

Definition secondPass (parentNameMap : gmap string string) (st : Pass)
    (g : string * list ImportRow.t) : Pass :=
  match analyzeGroup parentNameMap (reads st) (fst g) (snd g) with
  | (Reject es, n) => Build_Pass (accepted st) (rejected st ++ es) n
  | (Accept c, n) => Build_Pass (accepted st ++ [c]) (rejected st) n
  end.

Definition errorLeb (a b : RowError.t) : bool :=
  RowError.rowNumber a <=? RowError.rowNumber b.

(** [analyzeRows]: the batch handed to [setProcessedData], or [None] when
    grouping raises. *)
Definition analyzeRows (rows : list ImportRow.t) : option ProcessedBatch :=
  grouped ← groupByAccount rows;
  let groups := ownKeys grouped in
  let '(parentNameMap, n) := foldl registerParent (seedParents, 0) groups in
  let st := foldl (secondPass parentNameMap) (Build_Pass [] [] n) groups in
  Some {| validCustomers := accepted st;
          errors := stableSort errorLeb (rejected st) |}.

(** [processFile], from the text of the file on. *)
Definition processFile (text : string) : option ProcessedBatch :=
  analyzeRows (rawRowsOf (dataRowsOf text)).

End AnalyzeRows.

(** *** The second pass as a list of verdicts *)

(** The verdicts of the second pass on a list of groups, the oracle reads
    threaded from one group to the next. *)
Fixpoint verdicts (o : Oracle) (existingCustomers : list Customer.t)
    (parentNameMap : gmap string string) (n : nat) (groups : Grouped)
  : list Verdict :=
  match groups with
  | [] => []
  | g :: gs =>
      let '(v, n') :=
        analyzeGroup o existingCustomers parentNameMap n (fst g) (snd g) in
      v :: verdicts o existingCustomers parentNameMap n' gs
  end.

Definition acceptedOf (vs : list Verdict) : list Customer.t :=
  omap (fun v => match v with Accept c => Some c | Reject _ => None end) vs.

Definition rejectedOf (vs : list Verdict) : list RowError.t :=
  concat ((fun v => match v with Accept _ => [] | Reject es => es end) <$> vs).

(** ** Properties of a population *)

(** Some customer of [pop] with another id has [c]'s id as its
    [parentId]. *)
Definition referencedByOther (pop : list Customer.t) (c : Customer.t) : bool :=
  existsb (fun d => negb (String.eqb (Customer.id d) (Customer.id c))
                    && refers (Customer.parentId d) (Customer.id c))
          pop.

(** No customer of [cs] that has a parent is referenced as a parent by
    another customer of [ds]. *)
Definition noChildIsParent (cs ds : list Customer.t) : bool :=
  forallb (fun c => negb (linked (Customer.parentId c))
                    || negb (referencedByOther ds c))
          cs.

(** Hierarchy depth: no customer whose id appears as some other customer's
    [parentId] itself has a non-null [parentId]. *)
Definition hierarchyDepthOk (pop : list Customer.t) : bool :=
  noChildIsParent pop pop.

(** The customers offered for linking are those that are parent to nobody
    ([isParentRecursive] in the form). *)
Definition childrenEligible (childIdsToLink : list string)
    (pop : list Customer.t) : bool :=
  forallb (fun c => negb (JS.includes childIdsToLink (Customer.id c))
                    || negb (existsb (fun d => refers (Customer.parentId d)
                                                      (Customer.id c)) pop))
          pop.

(** The customers of [pop] with id [p] have no parent themselves. *)
Definition parentIsTopLevel (p : string) (pop : list Customer.t) : bool :=
  forallb (fun c => negb (String.eqb (Customer.id c) p)
                    || negb (linked (Customer.parentId c)))
          pop.

(** No customer of [pop] names [i] as its parent. *)
Definition unreferenced (i : string) (pop : list Customer.t) : bool :=
  negb (existsb (fun d => refers (Customer.parentId d) i) pop).

(** Arguments of [addCustomer] that respect the two-level hierarchy: a
    new parent has a fresh id, is not its own child, and links eligible
    children only; a new direct customer points to a top-level customer
    and is itself referenced by nobody. *)
Definition createEligible (now : N) (data : FormData.t)
    (childIdsToLink : list string) (pop : list Customer.t) : bool :=
  let newId := "cust_" +:+ pretty now in
  match FormData.type data with
  | PARENT =>
      negb (existsb (fun c => String.eqb (Customer.id c) newId) pop)
      && negb (JS.includes childIdsToLink newId)
      && childrenEligible childIdsToLink pop
  | DIRECT =>
      match FormData.parentId data with
      | None => true
      | Some p => parentIsTopLevel p pop && unreferenced newId pop
      end
  end.

(** Arguments of [updateCustomer] that respect the two-level hierarchy. *)
Definition updateEligible (id : string) (data : FormData.t)
    (childIdsToLink : list string) (pop : list Customer.t) : bool :=
  match FormData.type data with
  | PARENT =>
      bool_decide (FormData.parentId data = None)
      && negb (JS.includes childIdsToLink id)
      && childrenEligible childIdsToLink pop
  | DIRECT =>
      match FormData.parentId data with
      | None => true
      | Some p =>
          parentIsTopLevel p
            (List.filter (fun c => negb (String.eqb (Customer.id c) id)) pop)
          && unreferenced id pop
      end
  end.

(** A batch that is two-level in itself and against the population. *)
Definition batchEligible (newCustomers pop : list Customer.t) : bool :=
  hierarchyDepthOk newCustomers
  && noChildIsParent newCustomers pop
  && noChildIsParent pop newCustomers.

(** The linkage of a record: whose it is, its parent and its type. *)
Definition linkage (c : Customer.t) : string * ParentId * CustomerType :=
  (Customer.id c, Customer.parentId c, Customer.type c).

(** [c'] is [c] made independent: its [parentId] is [null], its type is
    PARENT, and every other field is the one of [c]. *)
Definition demoted (c c' : Customer.t) : Prop :=
  Customer.parentId c' = null
  ∧ Customer.type c' = PARENT
  ∧ Customer.id c' = Customer.id c
  ∧ Customer.name c' = Customer.name c
  ∧ Customer.accountNumber c' = Customer.accountNumber c
  ∧ Customer.isVip c' = Customer.isVip c
  ∧ Customer.addresses c' = Customer.addresses c
  ∧ Customer.contacts c' = Customer.contacts c
  ∧ Customer.createdAt c' = Customer.createdAt c.

(** ** What the validation rules ask of a candidate *)

Definition nonBlank (s : string) : Prop := JS.trim s ≠ "".

Definition optNonBlank (o : option string) : Prop :=
  ∃ s, o = Some s ∧ nonBlank s.

(** Exactly one element of the list satisfies [p]. *)
Definition exactlyOne {A} (p : A → bool) (l : list A) : Prop :=
  ∃ i x, l !! i = Some x ∧ p x = true
         ∧ ∀ j y, l !! j = Some y → p y = true → j = i.

Definition addressComplete (a : Address.t) : Prop :=
  (optNonBlank (Address.street a)
   ∨ (optNonBlank (Address.latitude a) ∧ optNonBlank (Address.longitude a)))
  ∧ nonBlank (Address.city a)
  ∧ nonBlank (Address.state a)
  ∧ nonBlank (Address.zipCode a).

Definition contactComplete (c : Contact.t) : Prop :=
  nonBlank (Contact.name c)
  ∧ nonBlank (Contact.email c)
  ∧ nonBlank (Contact.phone c).

(** The checks of the validation rules. *)
Inductive Rule :=
| RuleName
| RuleAccountNumber
| RuleUnique
| RuleAddresses
| RuleContacts
| RuleHierarchy.

(** A parent reference is present when it is a non-empty string; the
    code treats the empty string as no parent, like [null]. *)
Definition parentPresent (p : option string) : Prop :=
  ∃ i, p = Some i ∧ i ≠ "".

Definition holds (customers : list Customer.t) (data : FormData.t)
    (excludeId : option string) (k : Rule) : Prop :=
  match k with
  | RuleName => nonBlank (FormData.name data)
  | RuleAccountNumber => nonBlank (FormData.accountNumber data)
  | RuleUnique =>
      ∀ c, c ∈ customers → Some (Customer.id c) ≠ excludeId →
           Customer.accountNumber c ≠ FormData.accountNumber data
  | RuleAddresses =>
      FormData.addresses data ≠ []
      ∧ exactlyOne Address.isPrimary (FormData.addresses data)
      ∧ exactlyOne Address.isBilling (FormData.addresses data)
      ∧ Forall addressComplete (FormData.addresses data)
  | RuleContacts =>
      FormData.contacts data ≠ []
      ∧ exactlyOne Contact.isPrimary (FormData.contacts data)
      ∧ Forall contactComplete (FormData.contacts data)
  | RuleHierarchy =>
      ¬ (FormData.type data = PARENT ∧ parentPresent (FormData.parentId data))
  end.

#[global] Instance Rule_eq_dec : EqDecision Rule.
Proof. solve_decision. Defined.

(** The check a message reports on. *)
Definition ruleOf (v : Violation) : Rule :=
  match v with
  | NameRequired => RuleName
  | AccountRequired => RuleAccountNumber
  | AccountInUse _ => RuleUnique
  | AddressRequired | NoPrimaryAddress | ManyPrimaryAddresses
  | NoBillingAddress | ManyBillingAddresses
  | AddressLocation _ | AddressCity _ | AddressState _ | AddressZipCode _ =>
      RuleAddresses
  | ContactRequired | NoPrimaryContact | ManyPrimaryContacts
  | ContactName _ | ContactEmail _ | ContactPhone _ => RuleContacts
  | ParentHasParent => RuleHierarchy
  end.

(** ** What the resolver is asked to do *)

(** [obj] groups the rows [seen]: its keys are distinct and not inherited
    ones, every row's account number is a key, and the rows under a key
    are the rows of [seen] with that account number, in order. *)
Definition groups (seen : list ImportRow.t) (obj : Grouped) : Prop :=
  NoDup (fst <$> obj)
  ∧ (∀ r, r ∈ seen → ImportRow.accountNumber r ∈ fst <$> obj)
  ∧ ∀ k rs, (k, rs) ∈ obj →
      rs ≠ []
      ∧ rs = List.filter (fun r => String.eqb (ImportRow.accountNumber r) k) seen.

(** The rows of the batch that share the account number of [r]: its
    group. *)
Definition groupOf (r : ImportRow.t) (rows : list ImportRow.t)
  : list ImportRow.t :=
  List.filter
    (fun r' => String.eqb (ImportRow.accountNumber r') (ImportRow.accountNumber r))
    rows.

(** The reasons of the rejection entries that carry the row number of
    [r]. *)
Definition entriesFor (r : ImportRow.t) (out : ProcessedBatch) : list string :=
  RowError.reason
  <$> List.filter
        (fun e => RowError.rowNumber e =? ImportRow.rowNumber r) (errors out).

(** The accepted customers that carry the account number of [r]. *)
Definition customersFor (r : ImportRow.t) (out : ProcessedBatch)
  : list Customer.t :=
  List.filter
    (fun c => String.eqb (Customer.accountNumber c) (ImportRow.accountNumber r))
    (validCustomers out).

(** The customer has one contact per row of the group, in order. *)
Definition contactsMatch (c : Customer.t) (g : list ImportRow.t) : Prop :=
  (fun k => (Contact.name k, Contact.email k, Contact.phone k))
    <$> Customer.contacts c
  = (fun r => (ImportRow.contactName r, ImportRow.contactEmail r,
               ImportRow.contactPhone r)) <$> g.

(** A row is accounted for exactly once: either its group is accepted as
    one customer and the row has no rejection entry, or no customer is
    accepted for it and every row of its group has exactly one rejection
    entry, all with the same reason. *)
Definition accountedFor (rows : list ImportRow.t) (out : ProcessedBatch)
    (r : ImportRow.t) : Prop :=
  (∃ c, customersFor r out = [c] ∧ contactsMatch c (groupOf r rows)
        ∧ ∀ r', r' ∈ groupOf r rows → entriesFor r' out = [])
  ∨ (customersFor r out = []
     ∧ ∃ reason, ∀ r', r' ∈ groupOf r rows → entriesFor r' out = [reason]).

Definition lacksContact (r : ImportRow.t) : bool :=
  negb (JS.truthy (ImportRow.contactName r))
  || negb (JS.truthy (ImportRow.contactEmail r)).

Definition missingContact : string := "Missing Contact Name or Email.".

(** The group is rejected for a missing contact name or email: the rows
    that lack one have an entry with that reason, the other rows of the
    group have none, and no customer is accepted. *)
Definition partlyReported (rows : list ImportRow.t) (out : ProcessedBatch)
    (r : ImportRow.t) : Prop :=
  customersFor r out = []
  ∧ (∃ r', r' ∈ groupOf r rows ∧ lacksContact r' = true)
  ∧ ∀ r', r' ∈ groupOf r rows →
          entriesFor r' out = if lacksContact r' then [missingContact] else [].

(** Steps 3a to 3e of the resolver for one group: the name is present,
    the rows agree on it, the account number is new, every row has a
    contact name and email, and a group of several contacts flags
    exactly one as primary. *)
Definition passesChecks (existingCustomers : list Customer.t)
    (accNum : string) (groupRows : list ImportRow.t) : bool :=
  match groupRows with
  | [] => false
  | firstRow :: _ =>
      JS.truthy (ImportRow.customerName firstRow)
      && forallb (fun r => String.eqb (ImportRow.customerName r)
                                      (ImportRow.customerName firstRow))
                 groupRows
      && negb (existsb (fun c => String.eqb (Customer.accountNumber c) accNum)
                       existingCustomers)
      && forallb (fun r => negb (lacksContact r)) groupRows
      && ((length groupRows =? 1)
          || (length (List.filter ImportRow.isPrimary groupRows) =? 1))
  end.

(** The classification rule: a blank parent name on the first row of the
    group makes it a PARENT group. *)
Definition classify (groupRows : list ImportRow.t) : option CustomerType :=
  match groupRows with
  | [] => None
  | firstRow :: _ =>
      Some (if JS.truthy (ImportRow.parentCustomerName firstRow)
            then DIRECT else PARENT)
  end.

(** ** Sample data *)

Module Sample.

Definition office : Address.t :=
  Address.mk "addr_1" (Some "1 Main St") None None "Springfield" "IL" "62701"
    true true false.

Definition ann : Contact.t :=
  Contact.mk "cont_1" "Ann" "ann@acme.test" "555-0100" true.

Definition customer (id : string) (ty : CustomerType) (name acc : string)
    (parent : ParentId) : Customer.t :=
  Customer.mk id ty name acc false [office] parent [ann]
    "2024-01-01T00:00:00.000Z".

Definition form (ty : CustomerType) (name acc : string)
    (parent : option string) : FormData.t :=
  FormData.mk ty name acc false [office] parent [ann].

(** A parent with one direct customer, and an independent customer. *)
Definition acme : Customer.t := customer "c1" PARENT "Acme HQ" "1001" null.
Definition branch : Customer.t :=
  customer "c2" DIRECT "Acme Branch" "1002" (ref "c1").
Definition globex : Customer.t := customer "c3" PARENT "Globex" "1003" undefined.

Definition population : list Customer.t := [acme; branch; globex].

Definition oracle : Oracle :=
  {| dateNow := fun n => (1700000000000 + N.of_nat n)%N;
     randomTag := fun n => "r" +:+ pretty n;
     isoNow := fun _ => "2024-01-01T00:00:00.000Z" |}.

Definition row (n : nat) (name acc parent contact email : string)
    (primary : bool) : ImportRow.t :=
  ImportRow.mk n name acc "1 Main St" "62701" parent contact email "555-0100"
    primary.

(** A direct customer listed before the parent it names, in another
    letter case. *)
Definition child : ImportRow.t :=
  row 2 "Acme Branch" "2001" "acme hq" "Bob" "bob@acme.test" false.
Definition parent : ImportRow.t :=
  row 3 "Acme HQ" "2002" "" "Al" "al@acme.test" false.

(** Two parents whose names differ in letter case only. *)
Definition twin1 : ImportRow.t :=
  row 2 "Initech" "3001" "" "Al" "al@initech.test" true.
Definition twin2 : ImportRow.t :=
  row 3 "INITECH" "3002" "" "Bo" "bo@initech.test" true.

(** Two contacts of one account, the first without an email. *)
Definition incomplete : ImportRow.t := row 2 "Zed" "Z-1" "" "Zoe" "" true.
Definition complete : ImportRow.t :=
  row 3 "Zed" "Z-1" "" "Yan" "yan@zed.test" false.

(** A row whose account number names a property every object inherits:
    read through [groupedByAccount[acc]] it is truthy and has no [push]
    method. *)
Definition inheritedRow : ImportRow.t :=
  row 4 "Hooli" "toString" "" "Bo" "bo@hooli.test" true.

(** The data lines of a file: a full row, a row without the two optional
    columns, and a row of two columns. *)
Definition dataRows : list string :=
  [ "Initech,3001,1 Main St,62701,,Al,al@initech.test,555-0100,YES";
    "Hooli,3002,2 Main St,62702,,Bo,bo@hooli.test";
    "short,row" ].

End Sample.

(** ** The rest of the customer store hook *)


Definition getDirectCustomers (customers : list Customer.t)
  : list Customer.t :=
  List.filter (fun c => bool_decide (Customer.type c = DIRECT)) customers.

(** Truthiness of a parent reference, [!!c.parentId]: a non-empty
    string. *)
Definition hasParent (p : ParentId) : bool :=
  match p with
  | ref i => JS.truthy i
  | _ => false
  end.

(** No record of type PARENT has a parent. *)
Definition typeConsistent (pop : list Customer.t) : bool :=
  forallb (fun c => negb (isParentType (Customer.type c)
                          && hasParent (Customer.parentId c)))
          pop.

(** ** More about the resolver's outputs *)

(** The entries are in ascending order of row number. *)
Definition ascending (l : list RowError.t) : Prop :=
  ∀ i j a b, i < j → l !! i = Some a → l !! j = Some b →
             RowError.rowNumber a ≤ RowError.rowNumber b.

(** ** The template the import component offers ([handleDownloadTemplate]) *)

(** The character occurs in the string. *)
Fixpoint occurs (a : ascii) (s : string) : bool :=
  match s with
  | EmptyString => false
  | String b s' => Ascii.eqb b a || occurs a s'
  end.

(** [`"${f}"`] *)
Definition quoteField (f : string) : string :=
  String quoteChar (f +:+ String quoteChar EmptyString).

(** [fields.join(",")] *)
Fixpoint joinComma (fields : list string) : string :=
  match fields with
  | [] => EmptyString
  | [f] => f
  | f :: fs => f +:+ String commaChar (joinComma fs)
  end.

(** [sampleRow.map(f => `"${f}"`).join(",")] *)
Definition templateLine (sampleRow : list string) : string :=
  joinComma (quoteField <$> sampleRow).

(** ** The contact editor ([ContactManager]) *)

Module ContactManager.

(** [{ ...c, [field]: value }] for a field of [Contact] and a value of
    the field's type. *)
Inductive Update :=
| SetId (value : string)
| SetName (value : string)
| SetEmail (value : string)
| SetPhone (value : string)
| SetIsPrimary (value : bool).

Definition applyUpdate (u : Update) (c : Contact.t) : Contact.t :=
  match u with
  | SetId v =>
      Contact.mk v (Contact.name c) (Contact.email c) (Contact.phone c)
        (Contact.isPrimary c)
  | SetName v =>
      Contact.mk (Contact.id c) v (Contact.email c) (Contact.phone c)
        (Contact.isPrimary c)
  | SetEmail v =>
      Contact.mk (Contact.id c) (Contact.name c) v (Contact.phone c)
        (Contact.isPrimary c)
  | SetPhone v =>
      Contact.mk (Contact.id c) (Contact.name c) (Contact.email c) v
        (Contact.isPrimary c)
  | SetIsPrimary v =>
      Contact.mk (Contact.id c) (Contact.name c) (Contact.email c)
        (Contact.phone c) v
  end.



Definition handleUpdateContact (id : string) (u : Update)
    (contacts : list Contact.t) : list Contact.t :=
  map (fun c => if String.eqb (Contact.id c) id then applyUpdate u c else c)
      contacts.

Definition handleSetPrimary (id : string) (contacts : list Contact.t)
  : list Contact.t :=
  map (fun c => Contact.mk (Contact.id c) (Contact.name c) (Contact.email c)
                  (Contact.phone c) (String.eqb (Contact.id c) id))
      contacts.


End ContactManager.


(** ** Substrings *)

(** [s.includes(term)] on strings. *)
Fixpoint stringIncludes (s term : string) : bool :=
  String.prefix term s
  || match s with
     | EmptyString => false
     | String _ s' => stringIncludes s' term
     end.

(** ** The customer form ([CustomerForm]) *)

Module CustomerForm.

(** The initial value of the [formData] state. *)
Definition initialFormData (initialData : option Customer.t) : FormData.t :=
  match initialData with
  | Some c =>
      FormData.mk
        (if hasParent (Customer.parentId c) then DIRECT else PARENT)
        (Customer.name c) (Customer.accountNumber c) (Customer.isVip c)
        (Customer.addresses c)
        (match Customer.parentId c with
         | ref i => if JS.truthy i then Some i else None
         | _ => None
         end)
        (Customer.contacts c)
  | None => FormData.mk PARENT "" "" false [] None []
  end.

(** The value the effect gives [linkedChildIds]; without the effect's
    condition the state keeps its initial value, the empty array. *)
Definition initialLinkedChildIds (initialData : option Customer.t)
    (allCustomers : list Customer.t) : list string :=
  match initialData with
  | Some i =>
      if isParentType (Customer.type i)
      then Customer.id
           <$> List.filter
                 (fun c => refers (Customer.parentId c) (Customer.id i))
                 allCustomers
      else []
  | None => []
  end.

Definition withAddresses (d : FormData.t) (addresses : list Address.t)
  : FormData.t :=
  FormData.mk (FormData.type d) (FormData.name d) (FormData.accountNumber d)
    (FormData.isVip d) addresses (FormData.parentId d) (FormData.contacts d).

(** [now] is the value of [Date.now()] and [tag] the value of
    [Math.random().toString(36).substr(2, 5)] at the call. *)
Definition addAddress (now : N) (tag : string) (d : FormData.t) : FormData.t :=
  let first := bool_decide (length (FormData.addresses d) = 0) in
  withAddresses d
    (FormData.addresses d
     ++ [Address.mk ("addr_" +:+ pretty now +:+ "_" +:+ tag) (Some "")
           None None "" "" "" first first false]).

(** [{ ...a, [field]: value }] for a field of [Address] and a value of
    the field's type. *)
Inductive Update :=
| SetId (value : string)
| SetStreet (value : string)
| SetLatitude (value : string)
| SetLongitude (value : string)
| SetCity (value : string)
| SetState (value : string)
| SetZipCode (value : string)
| SetIsPrimary (value : bool)
| SetIsBilling (value : bool)
| SetIsGateProperty (value : bool).

Definition applyUpdate (u : Update) (a : Address.t) : Address.t :=
  let '(Address.mk id street latitude longitude city state zipCode
          isPrimary isBilling isGateProperty) := a in
  match u with
  | SetId v =>
      Address.mk v street latitude longitude city state zipCode isPrimary
        isBilling isGateProperty
  | SetStreet v =>
      Address.mk id (Some v) latitude longitude city state zipCode isPrimary
        isBilling isGateProperty
  | SetLatitude v =>
      Address.mk id street (Some v) longitude city state zipCode isPrimary
        isBilling isGateProperty
  | SetLongitude v =>
      Address.mk id street latitude (Some v) city state zipCode isPrimary
        isBilling isGateProperty
  | SetCity v =>
      Address.mk id street latitude longitude v state zipCode isPrimary
        isBilling isGateProperty
  | SetState v =>
      Address.mk id street latitude longitude city v zipCode isPrimary
        isBilling isGateProperty
  | SetZipCode v =>
      Address.mk id street latitude longitude city state v isPrimary
        isBilling isGateProperty
  | SetIsPrimary v =>
      Address.mk id street latitude longitude city state zipCode v
        isBilling isGateProperty
  | SetIsBilling v =>
      Address.mk id street latitude longitude city state zipCode isPrimary
        v isGateProperty
  | SetIsGateProperty v =>
      Address.mk id street latitude longitude city state zipCode isPrimary
        isBilling v
  end.

Definition updateAddress (id : string) (u : Update) (d : FormData.t)
  : FormData.t :=
  withAddresses d
    (map (fun a => if negb (String.eqb (Address.id a) id) then a
                   else applyUpdate u a)
         (FormData.addresses d)).

Definition removeAddress (id : string) (d : FormData.t) : FormData.t :=
  withAddresses d
    (List.filter (fun a => negb (String.eqb (Address.id a) id))
                 (FormData.addresses d)).

(** The [field] argument of [setUniqueAddressFlag]. *)
Inductive Flag := FlagIsPrimary | FlagIsBilling.

Definition flagOf (field : Flag) : Address.t → bool :=
  match field with
  | FlagIsPrimary => Address.isPrimary
  | FlagIsBilling => Address.isBilling
  end.

Definition setUniqueAddressFlag (id : string) (field : Flag) (d : FormData.t)
  : FormData.t :=
  withAddresses d
    (map (fun a =>
            applyUpdate (match field with
                   | FlagIsPrimary => SetIsPrimary (String.eqb (Address.id a) id)
                   | FlagIsBilling => SetIsBilling (String.eqb (Address.id a) id)
                   end) a)
         (FormData.addresses d)).

(** [value] is [e.target.value], the value of the option selected. *)
Definition handleParentChange (value : string) (d : FormData.t) : FormData.t :=
  let newParentId := if JS.truthy value then Some value else None in
  FormData.mk (if JS.truthy value then DIRECT else PARENT)
    (FormData.name d) (FormData.accountNumber d) (FormData.isVip d)
    (FormData.addresses d) newParentId (FormData.contacts d).

Definition toggleChildLink (childId : string) (prev : list string)
  : list string :=
  if JS.includes prev childId
  then List.filter (fun id => negb (String.eqb id childId)) prev
  else prev ++ [childId].

Definition isParentRecursive (allCustomers : list Customer.t) (id : string)
  : bool :=
  existsb (fun c => refers (Customer.parentId c) id) allCustomers.

Definition searchResults (initialData : option Customer.t)
    (linkedChildIds : list string) (childSearchTerm : string)
    (allCustomers : list Customer.t) : list Customer.t :=
  List.filter
    (fun c =>
       if bool_decide (Some (Customer.id c) = Customer.id <$> initialData)
       then false
       else if JS.includes linkedChildIds (Customer.id c) then false
       else if isParentRecursive allCustomers (Customer.id c) then false
       else
         let term := JS.toLowerCase childSearchTerm in
         stringIncludes (JS.toLowerCase (Customer.name c)) term
         || stringIncludes (JS.toLowerCase (Customer.accountNumber c)) term)
    allCustomers.

(** [{ ...prev, [field]: value }] for a field of [CustomerFormData] and
    a value of the field's type. *)
Inductive Change :=
| ChangeType (value : CustomerType)
| ChangeName (value : string)
| ChangeAccountNumber (value : string)
| ChangeIsVip (value : bool)
| ChangeAddresses (value : list Address.t)
| ChangeParentId (value : option string)
| ChangeContacts (value : list Contact.t).

Definition handleChange (c : Change) (d : FormData.t) : FormData.t :=
  let '(FormData.mk type name accountNumber isVip addresses parentId
          contacts) := d in
  match c with
  | ChangeType v =>
      FormData.mk v name accountNumber isVip addresses parentId contacts
  | ChangeName v =>
      FormData.mk type v accountNumber isVip addresses parentId contacts
  | ChangeAccountNumber v =>
      FormData.mk type name v isVip addresses parentId contacts
  | ChangeIsVip v =>
      FormData.mk type name accountNumber v addresses parentId contacts
  | ChangeAddresses v =>
      FormData.mk type name accountNumber isVip v parentId contacts
  | ChangeParentId v =>
      FormData.mk type name accountNumber isVip addresses v contacts
  | ChangeContacts v =>
      FormData.mk type name accountNumber isVip addresses parentId v
  end.

(** What the controls of the form do to [formData]: the parent select,
    the name and account number inputs, the VIP switch, the contact
    editor and the address controls. *)
Inductive Event :=
| ParentSelected (value : string)
| NameTyped (value : string)
| AccountNumberTyped (value : string)
| VipToggled
| ContactsChanged (newContacts : list Contact.t)
| AddressAdded (now : N) (tag : string)
| AddressEdited (id : string) (u : Update)
| AddressRemoved (id : string)
| AddressFlagged (id : string) (field : Flag).

Definition step (d : FormData.t) (e : Event) : FormData.t :=
  match e with
  | ParentSelected value => handleParentChange value d
  | NameTyped value => handleChange (ChangeName value) d
  | AccountNumberTyped value => handleChange (ChangeAccountNumber value) d
  | VipToggled => handleChange (ChangeIsVip (negb (FormData.isVip d))) d
  | ContactsChanged newContacts => handleChange (ChangeContacts newContacts) d
  | AddressAdded now tag => addAddress now tag d
  | AddressEdited id u => updateAddress id u d
  | AddressRemoved id => removeAddress id d
  | AddressFlagged id field => setUniqueAddressFlag id field d
  end.

(** The form data after a sequence of events on a form opened on
    [initialData]. *)
Definition run (initialData : option Customer.t) (events : list Event)
  : FormData.t :=
  foldl step (initialFormData initialData) events.

(** Every linked id is the id of a child the form found at the start or
    of a customer the search offered. *)
Definition picked (initialData : option Customer.t)
    (allCustomers : list Customer.t) (linkedChildIds : list string) : Prop :=
  ∀ k, k ∈ linkedChildIds →
       k ∈ initialLinkedChildIds initialData allCustomers
       ∨ ∃ linked term,
           k ∈ (Customer.id
                <$> searchResults initialData linked term allCustomers).

End CustomerForm.

(** ** The application ([App]) *)

Module App.

(** [selectedCustomerId ? customers.find(c => c.id === selectedCustomerId)
    : undefined] *)
Definition selectedCustomer (selectedCustomerId : option string)
    (customers : list Customer.t) : option Customer.t :=
  match selectedCustomerId with
  | Some id =>
      if JS.truthy id
      then List.find (fun c => String.eqb (Customer.id c) id) customers
      else None
  | None => None
  end.

(** [handleSubmit], the [onSubmit] of the form; [edit] is
    [currentView === 'EDIT']. *)
Definition handleSubmit (now : N) (iso : string) (edit : bool)
    (selectedCustomerId : option string) (data : FormData.t)
    (childIds : list string) (customers : list Customer.t)
  : list Customer.t :=
  match selectedCustomerId with
  | Some id =>
      if edit && JS.truthy id
      then updateCustomer id data childIds customers
      else addCustomer now iso data childIds customers
  | None => addCustomer now iso data childIds customers
  end.

(** The form's [handleSubmit] with the props [App] passes: the state of
    the store after the submit. *)
Definition submitForm (now : N) (iso : string) (edit : bool)
    (selectedCustomerId : option string) (formData : FormData.t)
    (linkedChildIds : list string) (customers : list Customer.t)
  : list Customer.t :=
  let initialData := selectedCustomer selectedCustomerId customers in
  let validationErrors :=
    validateCustomer customers formData (Customer.id <$> initialData) in
  if bool_decide (0 < length validationErrors) then customers
  else handleSubmit now iso edit selectedCustomerId formData linkedChildIds
         customers.

End App.

(** ** The customer list ([CustomerList]) *)

Module CustomerList.

Inductive SortField := name | accountNumber | type.
Inductive SortDirection := asc | desc.

Record SortConfig := {
  field : SortField;
  direction : SortDirection
}.

(** The [typeFilter] state: a customer type or ['ALL']. *)
Inductive TypeFilter := ALL | Only (ty : CustomerType).

(** The state of the component. *)
Record State := {
  filter : string;
  typeFilter : TypeFilter;
  sortConfig : SortConfig;
  expandedIds : gset string;
  currentPage : nat
}.

Definition ITEMS_PER_PAGE : nat := 10.

Definition isHierarchyMode (st : State) : bool :=
  negb (JS.truthy (filter st))
  && match typeFilter st with ALL => true | Only _ => false end.

(** [a[sortConfig.field].toString().toLowerCase()] *)
Definition sortValue (cfg : SortConfig) (c : Customer.t) : string :=
  JS.toLowerCase
    match field cfg with
    | name => Customer.name c
    | accountNumber => Customer.accountNumber c
    | type => match Customer.type c with
              | DIRECT => "DIRECT"
              | PARENT => "PARENT"
              end
    end.

Definition sorter (cfg : SortConfig) (a b : Customer.t) : Z :=
  let aValue := sortValue cfg a in
  let bValue := sortValue cfg b in
  if String.ltb aValue bValue
  then match direction cfg with asc => -1 | desc => 1 end
  else if String.ltb bValue aValue
  then match direction cfg with asc => 1 | desc => -1 end
  else 0.

(** [l.sort(sorter)] *)
Definition sort (cfg : SortConfig) (l : list Customer.t) : list Customer.t :=
  stableSort (fun a b => (sorter cfg a b <=? 0)%Z) l.

(** [l.slice(startIndex, startIndex + ITEMS_PER_PAGE)] with [startIndex]
    equal to [(currentPage - 1) * ITEMS_PER_PAGE]; page 0 gives a
    negative start and the end 0, hence nothing. *)
Definition page (currentPage : nat) (l : list Customer.t) : list Customer.t :=
  match currentPage with
  | 0 => []
  | S p => take ITEMS_PER_PAGE (drop (p * ITEMS_PER_PAGE) l)
  end.

(** [childrenMap.get(id) || []]: the customers with a parent id equal
    to [id], in the order of [customers]. *)
Definition kidsOf (customers : list Customer.t) (id : string)
  : list Customer.t :=
  List.filter (fun c => refers (Customer.parentId c) id)
    (List.filter (fun c => hasParent (Customer.parentId c)) customers).

Definition matchesText (lowerFilter : string) (c : Customer.t) : bool :=
  stringIncludes (JS.toLowerCase (Customer.name c)) lowerFilter
  || stringIncludes (JS.toLowerCase (Customer.accountNumber c)) lowerFilter
  || existsb
       (fun a =>
          stringIncludes
            (JS.toLowerCase
               (match Address.street a with
                | Some s => if JS.truthy s then s else ""
                | None => ""
                end))
            lowerFilter
          || stringIncludes (JS.toLowerCase (Address.city a)) lowerFilter)
       (Customer.addresses c).

(** The [visibleItems] and [totalItems] the memo computes. *)
Definition visible (st : State) (customers : list Customer.t)
  : list Customer.t * nat :=
  if isHierarchyMode st
  then
    let allRoots :=
      List.filter (fun c => negb (hasParent (Customer.parentId c))) customers in
    let sortedRoots := sort (sortConfig st) allRoots in
    let paginatedRoots := page (currentPage st) sortedRoots in
    (concat
       (map (fun root =>
               root
               :: (if bool_decide (Customer.id root ∈ expandedIds st)
                   then sort (sortConfig st) (kidsOf customers (Customer.id root))
                   else []))
            paginatedRoots),
     length allRoots)
  else
    let result :=
      if JS.truthy (filter st)
      then List.filter (matchesText (JS.toLowerCase (filter st))) customers
      else customers in
    let result :=
      match typeFilter st with
      | ALL => result
      | Only ty =>
          List.filter (fun c => bool_decide (Customer.type c = ty)) result
      end in
    let result := sort (sortConfig st) result in
    (page (currentPage st) result, length result).


Definition totalItems (st : State) (customers : list Customer.t) : nat :=
  snd (visible st customers).

End CustomerList.

(** ** Importing a file ([App] and [ImportCustomers]) *)


(** * Properties *)

(** ** Strings and booleans *)

Lemma eqb_true (s t : string) : String.eqb s t = true ↔ s = t.
Proof. apply String.eqb_eq. Qed.

Lemma eqb_false (s t : string) : String.eqb s t = false ↔ s ≠ t.
Proof. apply String.eqb_neq. Qed.

Lemma includes_In (xs : list string) (x : string) :
  JS.includes xs x = true ↔ In x xs.
Proof.
  unfold JS.includes. rewrite existsb_exists. split.
  - intros (y & Hy & Heq). apply eqb_true in Heq. by subst.
  - intros Hx. exists x. split; [done | apply String.eqb_refl].
Qed.

Lemma refers_ref (p : ParentId) (i : string) :
  refers p i = true ↔ p = ref i.
Proof.
  destruct p as [| |j]; simpl; [split; discriminate..|].
  rewrite eqb_true. split; [by intros -> | by intros [= ->]].
Qed.

Lemma relink_id c p ty : Customer.id (Customer.relink c p ty) = Customer.id c.
Proof. done. Qed.

(** ** The mutation engine *)

Lemma unassign_id id kids c : Customer.id (unassign id kids c) = Customer.id c.
Proof. unfold unassign. by case_match. Qed.

Lemma assign_id id kids c : Customer.id (assign id kids c) = Customer.id c.
Proof. unfold assign. by case_match. Qed.

Lemma find_id_None (pop : list Customer.t) (id : string) :
  id ∉ (Customer.id <$> pop) →
  List.find (fun c => String.eqb (Customer.id c) id) pop = None.
Proof.
  intros Hmiss.
  destruct (List.find _ pop) as [c|] eqn:Hfind; [|done].
  apply find_some in Hfind as [Hin Heq].
  apply eqb_true in Heq. apply list_elem_of_In in Hin.
  destruct Hmiss. apply list_elem_of_fmap. by exists c.
Qed.

(** C10. Deleting an id that no customer of the population carries leaves
    the population as it is; [deleteCustomer] is a total function, so no
    error is raised. *)
Theorem deleteCustomer_absent_noop (pop : list Customer.t) (id : string) :
  id ∉ (Customer.id <$> pop) →
  deleteCustomer id pop = pop.
Proof.
  intros Hmiss. unfold deleteCustomer. by rewrite find_id_None.
Qed.

(** C8. An update whose candidate has type DIRECT changes no record other
    than those carrying the given id: the population keeps its length and
    every other record stays in place, whatever [childIdsToLink] holds. *)
Theorem updateCustomer_direct_frame
    (pop : list Customer.t) (id : string) (data : FormData.t)
    (childIdsToLink : list string) :
  FormData.type data = DIRECT →
  length (updateCustomer id data childIdsToLink pop) = length pop
  ∧ ∀ (i : nat) (c : Customer.t),
      pop !! i = Some c → Customer.id c ≠ id →
      updateCustomer id data childIdsToLink pop !! i = Some c.
Proof.
  intros Hty. unfold updateCustomer. rewrite Hty. simpl. split.
  - by rewrite length_map.
  - intros i c Hi Hne. rewrite list_lookup_fmap, Hi. simpl.
    apply eqb_false in Hne. by rewrite Hne.
Qed.

Lemma updateCustomer_map id data kids pop :
  updateCustomer id data kids pop = map (updateOne id data kids) pop.
Proof.
  unfold updateCustomer, updateOne.
  destruct (isParentType (FormData.type data)); [|done].
  by rewrite !map_map.
Qed.

Lemma updateOne_idem id data kids c :
  updateOne id data kids (updateOne id data kids c) = updateOne id data kids c.
Proof.
  unfold updateOne, assign, unassign, mergeForm.
  destruct c as [cid cty cname cacc cvip caddr cpar ccon ccre]. simpl.
  destruct (isParentType (FormData.type data)) eqn:Hty,
           (String.eqb cid id) eqn:Hid,
           (JS.includes kids cid) eqn:Hk,
           (refers (FormData.parentRef data) id) eqn:Hd,
           (refers cpar id) eqn:Hc;
    repeat (simpl; rewrite ?Hid, ?Hk, ?Hd, ?Hc, ?String.eqb_refl);
    done.
Qed.

(** C7. Applying the same update twice gives the population one
    application gives, so in particular the same parent and type on every
    record. *)
Theorem updateCustomer_idempotent
    (pop : list Customer.t) (id : string) (data : FormData.t)
    (childIdsToLink : list string) :
  let once := updateCustomer id data childIdsToLink pop in
  let twice := updateCustomer id data childIdsToLink once in
  twice = once ∧ linkage <$> twice = linkage <$> once.
Proof.
  simpl.
  assert (updateCustomer id data childIdsToLink
            (updateCustomer id data childIdsToLink pop)
          = updateCustomer id data childIdsToLink pop) as Heq.
  { rewrite !updateCustomer_map, map_map. apply map_ext.
    intros c. apply updateOne_idem. }
  by rewrite Heq.
Qed.

Lemma demoted_relink (c : Customer.t) :
  demoted c (Customer.relink c null PARENT).
Proof. by repeat split. Qed.

Lemma deleteCustomer_parent_map (pop : list Customer.t) (id : string)
    (target : Customer.t) :
  List.find (fun c => String.eqb (Customer.id c) id) pop = Some target →
  Customer.type target = PARENT →
  deleteCustomer id pop
  = map (fun c => if refers (Customer.parentId c) id
                  then Customer.relink c null PARENT else c)
        (List.filter (fun c => negb (String.eqb (Customer.id c) id)) pop).
Proof.
  intros Hfind Hty. unfold deleteCustomer. rewrite Hfind, Hty. simpl.
  clear. induction pop as [|c pop IH]; [done|]. simpl.
  destruct (refers (Customer.parentId c) id) eqn:Hr; rewrite ?relink_id;
    destruct (String.eqb (Customer.id c) id); simpl; by rewrite ?Hr, IH.
Qed.

Lemma map_lookup {A B} (f : A → B) (l : list A) (i : nat) :
  map f l !! i = f <$> (l !! i).
Proof.
  revert i. induction l as [|x l IH]; intros [|i]; simpl; by try apply IH.
Qed.

(** C5. Deleting a customer of type PARENT: the result holds, in the
    same order, the records that do not carry the deleted id; a record
    that named the deleted id as its parent now has [parentId = null]
    and [type = PARENT] and is otherwise as it was, and every other
    record is unchanged. Hence the deleted record is absent, every
    child is kept, and no record still refers to the deleted id. *)
Theorem deleteCustomer_parent_cascade
    (pop : list Customer.t) (id : string) (target : Customer.t) :
  List.find (fun c => String.eqb (Customer.id c) id) pop = Some target →
  Customer.type target = PARENT →
  let pop' := deleteCustomer id pop in
  let kept := List.filter (fun c => negb (String.eqb (Customer.id c) id)) pop in
  length pop' = length kept
  ∧ (∀ i c, kept !! i = Some c →
       ∃ c', pop' !! i = Some c'
             ∧ (Customer.parentId c = ref id →
                Customer.parentId c' = null ∧ Customer.type c' = PARENT
                ∧ demoted c c')
             ∧ (Customer.parentId c ≠ ref id → c' = c))
  ∧ (∀ c, c ∈ pop' → Customer.id c ≠ id)
  ∧ (∀ c, c ∈ pop → Customer.id c ≠ id → Customer.parentId c = ref id →
       ∃ c', c' ∈ pop' ∧ Customer.parentId c' = null
             ∧ Customer.type c' = PARENT ∧ demoted c c')
  ∧ (∀ c, c ∈ pop → Customer.id c ≠ id → Customer.parentId c ≠ ref id →
       c ∈ pop')
  ∧ (∀ c, c ∈ pop' → Customer.parentId c ≠ ref id).
Proof.
  intros Hfind Hty pop' kept.
  pose proof (deleteCustomer_parent_map pop id target Hfind Hty) as Heq.
  fold pop' kept in Heq. rewrite Heq.
  split; [by rewrite length_map|]. split; [|split; [|split; [|split]]].
  - intros i c Hi. rewrite map_lookup, Hi. simpl.
    destruct (refers (Customer.parentId c) id) eqn:Hr.
    + exists (Customer.relink c null PARENT). split; [done|].
      split; [|by intros Hne; apply refers_ref in Hr].
      intros _. split; [done|]. split; [done|]. apply demoted_relink.
    + exists c. split; [done|]. split; [|done].
      intros Hpar%refers_ref. congruence.
  - intros c Hc. apply list_elem_of_In, in_map_iff in Hc as (c0 & <- & Hc0).
    apply filter_In in Hc0 as [_ Hne]. apply negb_true_iff, eqb_false in Hne.
    by case_match.
  - intros c Hc Hne Hpar. exists (Customer.relink c null PARENT).
    split; [|split; [done|split; [done|apply demoted_relink]]].
    apply list_elem_of_In, in_map_iff.
    exists c. split.
    + apply refers_ref in Hpar. by rewrite Hpar.
    + apply filter_In. split; [by apply list_elem_of_In|].
      by apply negb_true_iff, eqb_false.
  - intros c Hc Hne Hpar. apply list_elem_of_In, in_map_iff.
    exists c. split.
    + destruct (refers (Customer.parentId c) id) eqn:Hr; [|done].
      by apply refers_ref in Hr.
    + apply filter_In. split; [by apply list_elem_of_In|].
      by apply negb_true_iff, eqb_false.
  - intros c Hc. apply list_elem_of_In, in_map_iff in Hc as (c0 & <- & _).
    destruct (refers (Customer.parentId c0) id) eqn:Hr; [done|].
    intros Hpar. apply refers_ref in Hpar. congruence.
Qed.

(** ** Hierarchy depth *)

Lemma referencedByOther_spec (pop : list Customer.t) (c : Customer.t) :
  referencedByOther pop c = true ↔
  ∃ d, In d pop ∧ Customer.id d ≠ Customer.id c
       ∧ Customer.parentId d = ref (Customer.id c).
Proof.
  unfold referencedByOther. rewrite existsb_exists.
  split; intros (d & Hd & H); exists d; (split; [done|]).
  - apply andb_true_iff in H as [H1 H2].
    by apply negb_true_iff, eqb_false in H1; apply refers_ref in H2.
  - destruct H as [H1 H2]. apply andb_true_iff.
    by split; [apply negb_true_iff, eqb_false | apply refers_ref].
Qed.

Lemma noChildIsParent_spec (cs ds : list Customer.t) :
  noChildIsParent cs ds = true ↔
  ∀ c d, In c cs → In d ds → Customer.id d ≠ Customer.id c →
         Customer.parentId d = ref (Customer.id c) →
         linked (Customer.parentId c) = false.
Proof.
  unfold noChildIsParent. rewrite forallb_forall. split.
  - intros H c d Hc Hd Hne Hpar. specialize (H c Hc).
    apply orb_true_iff in H as [H|H]; [by apply negb_true_iff in H|].
    apply negb_true_iff in H.
    assert (referencedByOther ds c = true) as Hr
      by (apply referencedByOther_spec; eauto).
    congruence.
  - intros H c Hc.
    destruct (linked (Customer.parentId c)) eqn:Hl; [|done]. simpl.
    apply negb_true_iff. apply not_true_is_false.
    intros (d & Hd & Hne & Hpar)%referencedByOther_spec.
    specialize (H c d Hc Hd Hne Hpar). congruence.
Qed.

Lemma noChildIsParent_app (a b x y : list Customer.t) :
  noChildIsParent a x = true → noChildIsParent a y = true →
  noChildIsParent b x = true → noChildIsParent b y = true →
  noChildIsParent (a ++ b) (x ++ y) = true.
Proof.
  rewrite !noChildIsParent_spec. intros Hax Hay Hbx Hby c d Hc Hd.
  apply in_app_iff in Hc as [Hc|Hc], Hd as [Hd|Hd]; eauto.
Qed.

(** A population obtained record by record, where each record keeps its
    id and either keeps its parent or has none, is two-level if the
    original is. *)
Lemma depth_unlink (pop pop' : list Customer.t) :
  (∀ c', In c' pop' → ∃ c, In c pop ∧ Customer.id c' = Customer.id c
     ∧ (Customer.parentId c' = Customer.parentId c
        ∨ linked (Customer.parentId c') = false)) →
  hierarchyDepthOk pop = true → hierarchyDepthOk pop' = true.
Proof.
  unfold hierarchyDepthOk. rewrite !noChildIsParent_spec.
  intros Hfrom Hok c' d' Hc' Hd' Hne Hpar.
  destruct (Hfrom c' Hc') as (c & Hc & Hidc & Hpc).
  destruct (Hfrom d' Hd') as (d & Hd & Hidd & Hpd).
  destruct Hpc as [Hpc|Hpc]; [|done].
  destruct Hpd as [Hpd|Hpd]; [|by rewrite Hpar in Hpd].
  rewrite Hpc. apply (Hok c d); [done|done|congruence|congruence].
Qed.

Lemma deleteCustomer_depth (pop : list Customer.t) (id : string) :
  hierarchyDepthOk pop = true → hierarchyDepthOk (deleteCustomer id pop) = true.
Proof.
  apply depth_unlink. intros c' Hc'.
  unfold deleteCustomer in Hc'.
  destruct (List.find _ pop) as [t|]; [|by exists c'; eauto].
  destruct (isParentType (Customer.type t)).
  - apply filter_In in Hc' as [Hc' _].
    apply in_map_iff in Hc' as (c & <- & Hc). exists c.
    split; [done|]. case_match; simpl; eauto.
  - apply filter_In in Hc' as [Hc' _]. exists c'; eauto.
Qed.

Lemma childrenEligible_spec (kids : list string) (pop : list Customer.t) :
  childrenEligible kids pop = true →
  ∀ c d, In c pop → In d pop → In (Customer.id c) kids →
         Customer.parentId d ≠ ref (Customer.id c).
Proof.
  unfold childrenEligible. rewrite forallb_forall.
  intros H c d Hc Hd Hk Hpar. specialize (H c Hc).
  apply includes_In in Hk. rewrite Hk in H. simpl in H.
  apply negb_true_iff in H.
  assert (existsb (λ d, refers (Customer.parentId d) (Customer.id c)) pop = true)
    as Hex; [|congruence].
  apply existsb_exists. exists d. by rewrite refers_ref.
Qed.

Lemma parentIsTopLevel_spec (p : string) (pop : list Customer.t) :
  parentIsTopLevel p pop = true →
  ∀ c, In c pop → Customer.id c = p → linked (Customer.parentId c) = false.
Proof.
  unfold parentIsTopLevel. rewrite forallb_forall.
  intros H c Hc Hid. specialize (H c Hc).
  apply eqb_true in Hid. rewrite Hid in H. simpl in H.
  by apply negb_true_iff in H.
Qed.

Lemma unreferenced_spec (i : string) (pop : list Customer.t) :
  unreferenced i pop = true →
  ∀ d, In d pop → Customer.parentId d ≠ ref i.
Proof.
  unfold unreferenced. intros H d Hd Hpar. apply negb_true_iff in H.
  assert (existsb (λ d, refers (Customer.parentId d) i) pop = true)
    as Hex; [|congruence].
  apply existsb_exists. exists d. by rewrite refers_ref.
Qed.

Lemma updateOne_id id data kids c :
  Customer.id (updateOne id data kids c) = Customer.id c.
Proof.
  unfold updateOne.
  destruct (isParentType _); rewrite ?assign_id, ?unassign_id; by case_match.
Qed.

Lemma updateCustomer_depth (pop : list Customer.t) (id : string)
    (data : FormData.t) (kids : list string) :
  hierarchyDepthOk pop = true →
  updateEligible id data kids pop = true →
  hierarchyDepthOk (updateCustomer id data kids pop) = true.
Proof.
  unfold hierarchyDepthOk. rewrite updateCustomer_map, !noChildIsParent_spec.
  intros Hok Hel c' d' Hc' Hd' Hne Hpar.
  apply in_map_iff in Hc' as (c & <- & Hc).
  apply in_map_iff in Hd' as (d & <- & Hd).
  rewrite !updateOne_id in *.
  specialize (Hok c d Hc Hd Hne).
  unfold updateEligible in Hel. unfold updateOne in *.
  destruct (FormData.type data) eqn:Hty; simpl in *.
  - (* DIRECT *)
    unfold mergeForm, FormData.parentRef in *.
    destruct (String.eqb (Customer.id d) id) eqn:Hd_id,
             (String.eqb (Customer.id c) id) eqn:Hc_id; simpl in *.
    + apply eqb_true in Hd_id, Hc_id. congruence.
    + destruct (FormData.parentId data) as [p|]; [|done].
      apply andb_true_iff in Hel as [Htop _]. injection Hpar as ->.
      eapply parentIsTopLevel_spec; [exact Htop| |done].
      apply filter_In. by rewrite Hc_id.
    + destruct (FormData.parentId data) as [p|]; [|done].
      apply andb_true_iff in Hel as [_ Hun]. apply eqb_true in Hc_id.
      rewrite Hc_id in Hpar. by destruct (unreferenced_spec _ _ Hun d Hd).
    + by apply Hok.
  - (* PARENT *)
    apply andb_true_iff in Hel as [Hel Hkids].
    apply andb_true_iff in Hel as [Hnone Hself].
    apply bool_decide_eq_true in Hnone. apply negb_true_iff in Hself.
    pose proof (childrenEligible_spec _ _ Hkids) as Hkid.
    unfold assign, unassign, mergeForm, FormData.parentRef in *.
    rewrite Hnone in *.
    destruct (String.eqb (Customer.id c) id) eqn:Hc_id; simpl in *.
    { apply eqb_true in Hc_id. rewrite Hc_id, Hself. done. }
    destruct (String.eqb (Customer.id d) id) eqn:Hd_id; simpl in *.
    { apply eqb_true in Hd_id. rewrite Hd_id, Hself in Hpar. done. }
    assert (Customer.parentId d = ref (Customer.id c)) as Hd_par.
    { destruct (refers (Customer.parentId d) id) eqn:Hr,
               (JS.includes kids (Customer.id d)) eqn:Hk;
        simpl in Hpar; rewrite ?Hk in Hpar; simpl in Hpar; try done.
      all: injection Hpar as Hpar; apply eqb_false in Hc_id; congruence. }
    destruct (JS.includes kids (Customer.id c)) eqn:Hk.
    { apply includes_In in Hk. by destruct (Hkid c d Hc Hd Hk). }
    destruct (refers (Customer.parentId c) id) eqn:Hr; simpl; rewrite Hk.
    + done.
    + by apply Hok.
Qed.

Lemma addCustomer_depth (pop : list Customer.t) (now : N) (iso : string)
    (data : FormData.t) (kids : list string) :
  hierarchyDepthOk pop = true →
  createEligible now data kids pop = true →
  hierarchyDepthOk (addCustomer now iso data kids pop) = true.
Proof.
  unfold createEligible, addCustomer.
  set (newId := "cust_" +:+ pretty now).
  destruct (FormData.type data) eqn:Hty; simpl.
  - (* DIRECT: the new record is appended, nothing is relinked *)
    intros Hok Hel. unfold hierarchyDepthOk.
    apply (noChildIsParent_app pop _ pop _); [done|..].
    + apply noChildIsParent_spec. intros c d Hc [<-|[]] Hne Hpar.
      simpl in *. unfold FormData.parentRef in Hpar.
      destruct (FormData.parentId data) as [p|]; [|done].
      apply andb_true_iff in Hel as [Htop _]. injection Hpar as ->.
      by eapply parentIsTopLevel_spec.
    + apply noChildIsParent_spec. intros c d [<-|[]] Hd Hne Hpar.
      simpl in *. unfold FormData.parentRef.
      destruct (FormData.parentId data) as [p|]; [|done].
      apply andb_true_iff in Hel as [_ Hun].
      by destruct (unreferenced_spec _ _ Hun d Hd).
    + apply noChildIsParent_spec. by intros c d [<-|[]] [<-|[]] Hne Hpar.
  - (* PARENT *)
    intros Hok Hel.
    apply andb_true_iff in Hel as [Hel Hkids].
    apply andb_true_iff in Hel as [Hfresh Hself].
    apply negb_true_iff in Hfresh, Hself.
    pose proof (childrenEligible_spec _ _ Hkids) as Hkid.
    assert (∀ c, In c pop → Customer.id c ≠ newId) as Hfr.
    { intros c Hc Hid. apply eqb_true in Hid.
      assert (existsb (λ c, String.eqb (Customer.id c) newId) pop = true)
        as Hex; [|congruence].
      apply existsb_exists. by exists c. }
    set (new := Customer.mk newId PARENT _ _ _ _ undefined _ iso).
    set (link := λ c, if JS.includes kids (Customer.id c)
                      then Customer.relink c (ref newId) DIRECT
                      else c).
    assert ((if bool_decide (0 < length kids)
             then map link (pop ++ [new]) else pop ++ [new])
            = map link pop ++ [new]) as ->.
    { rewrite map_app. simpl. unfold link at 2. simpl. rewrite Hself.
      case_bool_decide as Hlen; [done|]. f_equal.
      destruct kids; [|simpl in Hlen; lia].
      unfold link. simpl. by rewrite map_id. }
    unfold hierarchyDepthOk in *. rewrite noChildIsParent_spec in Hok.
    apply noChildIsParent_spec. intros c' d' Hc' Hd' Hne Hpar.
    apply in_app_iff in Hc' as [Hc'|[<-|[]]]; [|done].
    apply in_map_iff in Hc' as (c & <- & Hc).
    assert (Customer.id (link c) = Customer.id c) as Hidc
      by (unfold link; by case_match).
    rewrite Hidc in *.
    apply in_app_iff in Hd' as [Hd'|[<-|[]]]; [|done].
    apply in_map_iff in Hd' as (d & <- & Hd).
    assert (Customer.id (link d) = Customer.id d) as Hidd
      by (unfold link; by case_match).
    rewrite Hidd in *.
    assert (Customer.parentId d = ref (Customer.id c)) as Hd_par.
    { unfold link in Hpar. destruct (JS.includes kids (Customer.id d)); [|done].
      simpl in Hpar. injection Hpar as Hpar. by destruct (Hfr c Hc). }
    unfold link. destruct (JS.includes kids (Customer.id c)) eqn:Hk.
    + apply includes_In in Hk. by destruct (Hkid c d Hc Hd Hk).
    + by apply (Hok c d).
Qed.

Lemma batchAddCustomers_depth (pop newCustomers : list Customer.t) :
  hierarchyDepthOk pop = true →
  batchEligible newCustomers pop = true →
  hierarchyDepthOk (batchAddCustomers newCustomers pop) = true.
Proof.
  unfold batchEligible, batchAddCustomers, hierarchyDepthOk.
  intros Hok Hel.
  apply andb_true_iff in Hel as [Hel Hpn].
  apply andb_true_iff in Hel as [Hnn Hnp].
  by apply noChildIsParent_app.
Qed.

(** C2, as amended. From a two-level population, [deleteCustomer] always
    gives a two-level population; [addCustomer] and [updateCustomer] do
    for arguments that respect the hierarchy ([createEligible],
    [updateEligible]: the linked children are parent to nobody, the target
    is not its own child, a parent candidate carries no parent, a direct
    candidate points to a top-level customer and is parent to nobody);
    [batchAddCustomers] does for a batch that is two-level in itself and
    against the population. *)
Theorem engine_preserves_depth
    (pop : list Customer.t) (now : N) (iso id : string) (data : FormData.t)
    (childIdsToLink : list string) (newCustomers : list Customer.t) :
  hierarchyDepthOk pop = true →
  (createEligible now data childIdsToLink pop = true →
   hierarchyDepthOk (addCustomer now iso data childIdsToLink pop) = true)
  ∧ (updateEligible id data childIdsToLink pop = true →
     hierarchyDepthOk (updateCustomer id data childIdsToLink pop) = true)
  ∧ hierarchyDepthOk (deleteCustomer id pop) = true
  ∧ (batchEligible newCustomers pop = true →
     hierarchyDepthOk (batchAddCustomers newCustomers pop) = true).
Proof.
  intros Hok. repeat split.
  - by apply addCustomer_depth.
  - by apply updateCustomer_depth.
  - by apply deleteCustomer_depth.
  - by apply batchAddCustomers_depth.
Qed.

(** Deleting an id the sample population does not hold. *)
Lemma deleteCustomer_absent_noop_witness :
  ("c9" ∉ (Customer.id <$> Sample.population))
  ∧ deleteCustomer "c9" Sample.population = Sample.population.
Proof.
  assert ("c9" ∉ (Customer.id <$> Sample.population)) as Hmiss
    by (refine (bool_decide_unpack _ _); vm_compute; exact I).
  split; [exact Hmiss|].
  apply deleteCustomer_absent_noop. exact Hmiss.
Defined.

(** Moving the direct customer of the sample population to another
    parent leaves the two other records as they are. *)
Lemma updateCustomer_direct_frame_witness :
  let data := Sample.form DIRECT "Acme Branch" "1002" (Some "c3") in
  FormData.type data = DIRECT
  ∧ updateCustomer "c2" data ["c3"] Sample.population !! 0 = Some Sample.acme
  ∧ updateCustomer "c2" data ["c3"] Sample.population !! 2 = Some Sample.globex.
Proof.
  cbv zeta.
  destruct (updateCustomer_direct_frame Sample.population "c2"
              (Sample.form DIRECT "Acme Branch" "1002" (Some "c3")) ["c3"]
              eq_refl) as [_ Hframe].
  split; [reflexivity|]. split.
  - apply (Hframe 0); [reflexivity | discriminate].
  - apply (Hframe 2); [reflexivity | discriminate].
Defined.

(** Deleting the parent of the sample population keeps its child, now
    independent. *)
Lemma deleteCustomer_parent_cascade_witness :
  List.find (fun c => String.eqb (Customer.id c) "c1") Sample.population
  = Some Sample.acme
  ∧ Customer.type Sample.acme = PARENT
  ∧ linkage <$> deleteCustomer "c1" Sample.population
    = [("c2", null, PARENT); ("c3", undefined, PARENT)]
  ∧ ∃ c', deleteCustomer "c1" Sample.population !! 0 = Some c'
          ∧ Customer.parentId c' = null ∧ Customer.type c' = PARENT
          ∧ demoted Sample.branch c'.
Proof.
  split; [reflexivity|]. split; [reflexivity|]. split; [reflexivity|].
  destruct (deleteCustomer_parent_cascade Sample.population "c1" Sample.acme
              eq_refl eq_refl) as (_ & Hkept & _).
  destruct (Hkept 0 Sample.branch eq_refl) as (c' & Hc' & Hchild & _).
  exists c'. split; [exact Hc'|]. by apply Hchild.
Defined.

(** C2 as stated fails: from a two-level population, an update that
    links a customer who is a parent already, a creation that does the
    same, and a batch whose direct customer points to a direct customer
    each give a three-level population. The candidates pass
    [validateCustomer]. *)
Lemma engine_depth_counterexample :
  let data := Sample.form PARENT "Globex" "1003" None in
  let fresh := Sample.form PARENT "Initech" "1004" None in
  let orphan := Sample.customer "c4" DIRECT "Hooli" "1005" (ref "c2") in
  hierarchyDepthOk Sample.population = true
  ∧ validateCustomer Sample.population data (Some "c3") = []
  ∧ hierarchyDepthOk (updateCustomer "c3" data ["c1"] Sample.population) = false
  ∧ validateCustomer Sample.population fresh None = []
  ∧ hierarchyDepthOk
      (addCustomer 1700000000000 "2024-01-01T00:00:00.000Z" fresh ["c1"]
         Sample.population) = false
  ∧ hierarchyDepthOk (batchAddCustomers [orphan] Sample.population) = false.
Proof. vm_compute. repeat split; reflexivity. Qed.

(** The four operations on the sample population, with arguments that
    respect the hierarchy. *)
Lemma engine_preserves_depth_witness :
  let data := Sample.form PARENT "Acme HQ" "1001" None in
  let batch := [Sample.customer "c5" DIRECT "Hooli" "1005" (ref "c1")] in
  hierarchyDepthOk Sample.population = true
  ∧ createEligible 1700000000000 data ["c3"] Sample.population = true
  ∧ updateEligible "c1" data ["c3"] Sample.population = true
  ∧ batchEligible batch Sample.population = true
  ∧ hierarchyDepthOk
      (addCustomer 1700000000000 "2024-01-01T00:00:00.000Z" data ["c3"]
         Sample.population) = true
  ∧ hierarchyDepthOk (updateCustomer "c1" data ["c3"] Sample.population) = true
  ∧ hierarchyDepthOk (deleteCustomer "c1" Sample.population) = true
  ∧ hierarchyDepthOk (batchAddCustomers batch Sample.population) = true.
Proof.
  cbv zeta.
  destruct (engine_preserves_depth Sample.population 1700000000000
              "2024-01-01T00:00:00.000Z" "c1"
              (Sample.form PARENT "Acme HQ" "1001" None) ["c3"]
              [Sample.customer "c5" DIRECT "Hooli" "1005" (ref "c1")]
              eq_refl) as (Hadd & Hupd & Hdel & Hbatch).
  split; [reflexivity|]. split; [vm_compute; reflexivity|].
  split; [reflexivity|]. split; [reflexivity|].
  split; [apply Hadd; vm_compute; reflexivity|].
  split; [apply Hupd; reflexivity|].
  split; [exact Hdel|]. apply Hbatch. reflexivity.
Defined.

(** ** The validation rules *)

Lemma blank_false (s : string) : JS.blank s = false ↔ nonBlank s.
Proof.
  unfold JS.blank, JS.truthy, nonBlank.
  rewrite negb_involutive. apply eqb_false.
Qed.

Lemma blank_true (s : string) : JS.blank s = true ↔ ¬ nonBlank s.
Proof.
  rewrite <- blank_false. destruct (JS.blank s); split; congruence.
Qed.

Lemma truthy_true (s : string) : JS.truthy s = true ↔ s ≠ "".
Proof. unfold JS.truthy. rewrite negb_true_iff. apply eqb_false. Qed.

Lemma truthy_false (s : string) : JS.truthy s = false ↔ s = "".
Proof. unfold JS.truthy. rewrite negb_false_iff. apply eqb_true. Qed.

Lemma present_true (o : option string) : JS.present o = true ↔ optNonBlank o.
Proof.
  unfold JS.present, optNonBlank, nonBlank. destruct o as [s|].
  - rewrite truthy_true. split; [by exists s | by intros (? & [= <-] & ?)].
  - split; [done | by intros (? & ? & ?)].
Qed.

(** A string trims to the empty string exactly when it consists of white
    space. *)
Lemma trimStart_all_space (s : string) :
  JS.trimStart s = "" ↔ Forall (λ a, JS.isWhiteSpace a = true) (String.list_ascii_of_string s).
Proof.
  induction s as [|a s IH]; simpl.
  - split; [by constructor | done].
  - destruct (JS.isWhiteSpace a) eqn:Ha.
    + rewrite IH. split; [by constructor | by inversion 1].
    + split; [done | inversion 1; congruence].
Qed.

Lemma trimEnd_empty (s : string) : JS.trimEnd s = "" → JS.trimStart s = "".
Proof.
  induction s as [|a s IH]; simpl; [done|].
  destruct (JS.trimEnd s) eqn:Hs; [|done].
  destruct (JS.isWhiteSpace a); [|done]. intros _. by apply IH.
Qed.

Lemma trimEnd_trimStart_empty (s : string) :
  JS.trimEnd (JS.trimStart s) = "" → JS.trimStart s = "".
Proof.
  induction s as [|a s IH]; simpl; [done|].
  destruct (JS.isWhiteSpace a) eqn:Ha; [done|].
  simpl. destruct (JS.trimEnd s); by rewrite ?Ha.
Qed.

Lemma trim_empty (s : string) :
  JS.trim s = "" ↔ Forall (λ a, JS.isWhiteSpace a = true) (String.list_ascii_of_string s).
Proof.
  rewrite <- trimStart_all_space. unfold JS.trim. split.
  - apply trimEnd_trimStart_empty.
  - by intros ->.
Qed.

Lemma filter_nil_none {A} (p : A → bool) (l : list A) :
  List.filter p l = [] ↔ ∀ j y, l !! j = Some y → p y = false.
Proof.
  induction l as [|x l IH]; simpl.
  - split; [by intros _ [] | done].
  - destruct (p x) eqn:Hx.
    + split; [done|]. intros H. specialize (H 0 x eq_refl). congruence.
    + rewrite IH. split.
      * intros H [|j] y; simpl; [by intros [= <-] | apply H].
      * intros H j y Hj. by apply (H (S j)).
Qed.

Lemma exactlyOne_filter {A} (p : A → bool) (l : list A) :
  exactlyOne p l ↔ length (List.filter p l) = 1.
Proof.
  unfold exactlyOne. induction l as [|x l IH]; simpl.
  - split; [by intros (i & y & ? & _) | done].
  - destruct (p x) eqn:Hx; simpl.
    + split.
      * intros (i & y & Hi & Hy & Huniq).
        assert (i = 0) as -> by (symmetry; by apply (Huniq 0 x)).
        f_equal. apply length_zero_iff_nil, filter_nil_none.
        intros j z Hj. destruct (p z) eqn:Hz; [|done].
        specialize (Huniq (S j) z Hj Hz). done.
      * intros [= Hlen]. apply length_zero_iff_nil in Hlen.
        exists 0, x. repeat split; [done|].
        intros [|j] y; [done|]. simpl. intros Hj Hy.
        rewrite filter_nil_none in Hlen. specialize (Hlen j y Hj). congruence.
    + rewrite <- IH. split.
      * intros (i & y & Hi & Hy & Huniq). destruct i as [|i]; simpl in Hi.
        { injection Hi as <-. congruence. }
        exists i, y. repeat split; [done..|].
        intros j z Hj Hz. specialize (Huniq (S j) z Hj Hz). lia.
      * intros (i & y & Hi & Hy & Huniq). exists (S i), y.
        repeat split; [done..|].
        intros [|j] z; simpl; [intros [= <-]; congruence|].
        intros Hj Hz. f_equal. by apply (Huniq j z).
Qed.

Lemma pushIf_nil (b : bool) (v : Violation) : pushIf b v = [] ↔ b = false.
Proof. by destruct b. Qed.

Lemma concat_imap_nil {A B} (f : nat → A → list B) (l : list A) :
  concat (imap f l) = [] ↔ ∀ i x, l !! i = Some x → f i x = [].
Proof.
  revert f. induction l as [|y l IH]; intros f; simpl.
  - split; [by intros _ ? ? | done].
  - rewrite app_nil, IH. split.
    + intros [H0 HS] [|i] x; simpl; [by intros [= <-] | apply HS].
    + intros H. split; [by apply (H 0) | intros i x Hi; by apply (H (S i))].
Qed.

Lemma addressViolations_nil (idx : nat) (a : Address.t) :
  addressViolations idx a = [] ↔ addressComplete a.
Proof.
  unfold addressViolations, addressComplete.
  rewrite !app_nil, !pushIf_nil, !blank_false, andb_false_iff,
    !negb_false_iff, andb_true_iff, !present_true.
  tauto.
Qed.

Lemma contactViolations_nil (idx : nat) (c : Contact.t) :
  contactViolations idx c = [] ↔ contactComplete c.
Proof.
  unfold contactViolations, contactComplete.
  rewrite !app_nil, !pushIf_nil, !blank_false. tauto.
Qed.

Lemma Forall_lookup_iff {A} (P : A → Prop) (l : list A) :
  Forall P l ↔ ∀ i x, l !! i = Some x → P x.
Proof. apply Forall_lookup. Qed.

Lemma pushIf_check (b : bool) (v : Violation) (k : Rule) :
  ruleOf v = k → Forall (λ w, ruleOf w = k) (pushIf b v).
Proof. intros <-. destruct b; repeat constructor. Qed.

Lemma Forall_concat_imap {A B} (P : B → Prop) (f : nat → A → list B)
    (l : list A) :
  (∀ i x, Forall P (f i x)) → Forall P (concat (imap f l)).
Proof.
  revert f. induction l as [|y l IH]; intros f Hf; simpl; [constructor|].
  apply Forall_app. split; [apply Hf | apply IH; intros; apply Hf].
Qed.

Lemma uniquePiece_spec (customers : list Customer.t) (acc : string)
    (existingId : option string) :
  checkAccountNumberUnique customers acc existingId = true ↔
  ∀ c, c ∈ customers → Some (Customer.id c) ≠ existingId →
       Customer.accountNumber c ≠ acc.
Proof.
  unfold checkAccountNumberUnique. rewrite negb_true_iff. split.
  - intros Hnone c Hc Hid Hacc.
    assert (existsb
              (λ c, String.eqb (Customer.accountNumber c) acc
                    && negb (bool_decide (Some (Customer.id c) = existingId)))
              customers = true) as Hex; [|congruence].
    apply existsb_exists. exists c. split; [by apply list_elem_of_In|].
    apply andb_true_iff. split; [by apply eqb_true|].
    by apply negb_true_iff, bool_decide_eq_false.
  - intros Hall. apply not_true_is_false.
    intros (c & Hc & Hb)%existsb_exists.
    apply andb_true_iff in Hb as [Hacc Hid].
    apply eqb_true in Hacc. apply negb_true_iff, bool_decide_eq_false in Hid.
    apply list_elem_of_In in Hc. by apply (Hall c).
Qed.

Lemma addressPiece_spec (addrs : list Address.t) :
  let piece :=
    if bool_decide (length addrs = 0) then [AddressRequired]
    else
      pushIf (bool_decide (length (List.filter Address.isPrimary addrs) = 0))
        NoPrimaryAddress
      ++ pushIf (bool_decide (1 < length (List.filter Address.isPrimary addrs)))
           ManyPrimaryAddresses
      ++ pushIf (bool_decide (length (List.filter Address.isBilling addrs) = 0))
           NoBillingAddress
      ++ pushIf (bool_decide (1 < length (List.filter Address.isBilling addrs)))
           ManyBillingAddresses
      ++ concat (imap addressViolations addrs) in
  (piece = [] ↔
   addrs ≠ [] ∧ exactlyOne Address.isPrimary addrs
   ∧ exactlyOne Address.isBilling addrs ∧ Forall addressComplete addrs)
  ∧ Forall (λ v, ruleOf v = RuleAddresses) piece.
Proof.
  intros piece. subst piece. rewrite !exactlyOne_filter.
  case_bool_decide as Hlen.
  - split; [|by repeat constructor].
    apply length_zero_iff_nil in Hlen. split; [done | by intros [? _]].
  - split.
    + rewrite !app_nil, !pushIf_nil, !bool_decide_eq_false, concat_imap_nil,
        Forall_lookup_iff.
      setoid_rewrite addressViolations_nil.
      assert (addrs ≠ []) by (intros ->; by apply Hlen).
      intuition lia.
    + repeat (apply Forall_app; split); try by apply pushIf_check.
      apply Forall_concat_imap. intros i a. unfold addressViolations.
      repeat (apply Forall_app; split); by apply pushIf_check.
Qed.

Lemma contactPiece_spec (cs : list Contact.t) :
  let piece :=
    if bool_decide (length cs = 0) then [ContactRequired]
    else
      pushIf (bool_decide (length (List.filter Contact.isPrimary cs) = 0))
        NoPrimaryContact
      ++ pushIf (bool_decide (1 < length (List.filter Contact.isPrimary cs)))
           ManyPrimaryContacts
      ++ concat (imap contactViolations cs) in
  (piece = [] ↔
   cs ≠ [] ∧ exactlyOne Contact.isPrimary cs ∧ Forall contactComplete cs)
  ∧ Forall (λ v, ruleOf v = RuleContacts) piece.
Proof.
  intros piece. subst piece. rewrite !exactlyOne_filter.
  case_bool_decide as Hlen.
  - split; [|by repeat constructor].
    apply length_zero_iff_nil in Hlen. split; [done | by intros [? _]].
  - split.
    + rewrite !app_nil, !pushIf_nil, !bool_decide_eq_false, concat_imap_nil,
        Forall_lookup_iff.
      setoid_rewrite contactViolations_nil.
      assert (cs ≠ []) by (intros ->; by apply Hlen).
      intuition lia.
    + repeat (apply Forall_app; split); try by apply pushIf_check.
      apply Forall_concat_imap. intros i a. unfold contactViolations.
      repeat (apply Forall_app; split); by apply pushIf_check.
Qed.

Lemma hierarchyPiece_spec (data : FormData.t) :
  isParentType (FormData.type data)
  && match FormData.parentId data with
     | Some i => JS.truthy i
     | None => false
     end = false ↔
  ¬ (FormData.type data = PARENT ∧ parentPresent (FormData.parentId data)).
Proof.
  unfold isParentType, parentPresent. rewrite andb_false_iff, bool_decide_eq_false.
  destruct (FormData.parentId data) as [i|].
  - rewrite truthy_false. split.
    + intros [Hty| ->] [Hp (j & [= <-] & Hj)]; done.
    + intros Hnot. destruct (decide (FormData.type data = PARENT)) as [Hty|];
        [|by left].
      right. destruct (decide (i = "")) as [|Hi]; [done|].
      destruct Hnot. split; [done|]. by exists i.
  - split; [by intros _ [_ (j & ? & _)] | by right].
Qed.

(** The messages of [validateCustomer], check by check. *)
Lemma violations_by_check (customers : list Customer.t) (data : FormData.t)
    (existingId : option string) :
  ∃ piece : Rule → list Violation,
    violations customers data existingId
    = piece RuleName ++ piece RuleAccountNumber ++ piece RuleUnique
      ++ piece RuleAddresses ++ piece RuleContacts ++ piece RuleHierarchy
    ∧ ∀ k, (piece k = [] ↔ holds customers data existingId k)
           ∧ Forall (λ v, ruleOf v = k) (piece k).
Proof.
  pose proof (addressPiece_spec (FormData.addresses data)) as HA.
  pose proof (contactPiece_spec (FormData.contacts data)) as HC.
  cbv zeta in HA, HC.
  eexists (λ k, match k with
                | RuleName => _ | RuleAccountNumber => _ | RuleUnique => _
                | RuleAddresses => _ | RuleContacts => _
                | RuleHierarchy => _
                end).
  split; [reflexivity|].
  intros []; simpl; try done.
  - split; [|by apply pushIf_check]. by rewrite pushIf_nil, blank_false.
  - split; [|by apply pushIf_check]. by rewrite pushIf_nil, blank_false.
  - split; [|by apply pushIf_check].
    by rewrite pushIf_nil, negb_false_iff, uniquePiece_spec.
  - split; [|by apply pushIf_check].
    by rewrite pushIf_nil, hierarchyPiece_spec.
Qed.

(** C3. [validateCustomer] returns the empty list exactly when every check
    holds: name and account number are not blank; no customer other than
    the one named by [existingId] has the account number; the addresses
    are not empty, have exactly one primary and exactly one billing
    address and are each complete; the contacts are not empty, have
    exactly one primary contact and are each complete; and the candidate
    is not a PARENT with a parent id present (a non-empty string: the
    empty string is falsy for the code, like [null]). Every check that
    fails has a message of its own in the result, whatever the other
    checks do. The function reads its arguments and returns a new list:
    the population is not part of its result. *)
Theorem validateCustomer_complete
    (customers : list Customer.t) (data : FormData.t)
    (existingId : option string) :
  let errs := validateCustomer customers data existingId in
  (errs = [] ↔ ∀ k, holds customers data existingId k)
  ∧ (∀ k, ¬ holds customers data existingId k →
          ∃ v, ruleOf v = k ∧ render v ∈ errs).
Proof.
  intros errs. subst errs. unfold validateCustomer.
  destruct (violations_by_check customers data existingId)
    as (piece & -> & Hpiece).
  split.
  - split.
    + intros Hnil%fmap_nil_inv. rewrite !app_nil in Hnil.
      destruct Hnil as (H1 & H2 & H3 & H4 & H5 & H6).
      intros []; by apply Hpiece.
    + intros Hall.
      assert (∀ k, piece k = []) as Hnil by (intros k; apply Hpiece, Hall).
      by rewrite !Hnil.
  - intros k Hk. destruct (Hpiece k) as [Hnil Hcheck].
    destruct (piece k) as [|v vs] eqn:Hp; [by destruct Hk; apply Hnil|].
    exists v. split; [by inversion Hcheck|].
    apply list_elem_of_fmap. exists v. split; [done|].
    assert (v ∈ piece k) as Hv by (rewrite Hp; left).
    destruct k; rewrite !elem_of_app; tauto.
Qed.

(** A candidate that passes every check, and one whose account number is
    taken. *)
Lemma validateCustomer_complete_witness :
  (∀ k, holds Sample.population (Sample.form PARENT "Initech" "1004" None)
          None k)
  ∧ ∃ v, ruleOf v = RuleUnique
         ∧ render v ∈ validateCustomer Sample.population
                        (Sample.form PARENT "Initech" "1001" None) None.
Proof.
  split.
  - apply (validateCustomer_complete Sample.population
             (Sample.form PARENT "Initech" "1004" None) None).
    reflexivity.
  - apply (validateCustomer_complete Sample.population
             (Sample.form PARENT "Initech" "1001" None) None).
    intros Hunique. apply (Hunique Sample.acme); [left | discriminate | reflexivity].
Defined.

Example validateCustomer_reports_every_check :
  validateCustomer Sample.population
    (FormData.mk PARENT "  " "1001" false [] (Some "c1") [Sample.ann]) None
  = [ "Customer Name is required.";
      "Account Number '1001' is already in use.";
      "At least one address is required.";
      "A Parent Customer cannot have a Parent." ].
Proof. vm_compute. reflexivity. Qed.

Example validateCustomer_numbers_addresses :
  validateCustomer [] 
    (FormData.mk DIRECT "Hooli" "7" false
       [Sample.office;
        Address.mk "addr_2" None (Some "41.1") None "" "IL" "62701"
          false false false]
       None [Sample.ann]) None
  = [ "Address #2: Must provide either Street Address OR Latitude + Longitude.";
      "Address #2: City is required." ].
Proof. vm_compute. reflexivity. Qed.

(** ** Grouping the rows *)

Lemma filter_snoc {A} (p : A → bool) (l : list A) (x : A) :
  List.filter p (l ++ [x]) = List.filter p l ++ (if p x then [x] else []).
Proof. rewrite List.filter_app. simpl. by destruct (p x). Qed.

Lemma ownGet_Some (obj : Grouped) (k : string) (rs : list ImportRow.t) :
  ownGet k obj = Some rs → (k, rs) ∈ obj.
Proof.
  unfold ownGet. destruct (List.find _ obj) as [[k' rs']|] eqn:Hfind; [|done].
  simpl. intros [= <-]. apply find_some in Hfind as [Hin Hk].
  apply eqb_true in Hk. simpl in Hk. subst k'. by apply list_elem_of_In.
Qed.

Lemma ownGet_None (obj : Grouped) (k : string) :
  ownGet k obj = None → k ∉ fst <$> obj.
Proof.
  unfold ownGet. destruct (List.find _ obj) as [kv|] eqn:Hfind; [done|].
  intros _ ((k' & rs) & -> & Hin)%list_elem_of_fmap.
  eapply find_none in Hfind; [|by apply list_elem_of_In].
  simpl in Hfind. by rewrite String.eqb_refl in Hfind.
Qed.

Lemma pushTo_fmap (acc : string) (row : ImportRow.t) (obj : Grouped) :
  NoDup (fst <$> obj) →
  pushTo acc row obj
  = (λ kv, if String.eqb (fst kv) acc then (fst kv, snd kv ++ [row]) else kv)
    <$> obj.
Proof.
  induction obj as [|[k rs] obj IH]; [done|]. simpl.
  intros [Hk Hnd]%NoDup_cons. destruct (String.eqb k acc) eqn:Hka.
  - f_equal. apply eqb_true in Hka. subst k. clear IH.
    induction obj as [|[k' rs'] obj IH]; [done|]. simpl in *.
    apply not_elem_of_cons in Hk as [Hne Hk].
    apply NoDup_cons in Hnd as [_ Hnd].
    apply not_eq_sym, eqb_false in Hne. rewrite Hne. f_equal. by apply IH.
  - f_equal. by apply IH.
Qed.

Lemma pushTo_keys (acc : string) (row : ImportRow.t) (obj : Grouped) :
  fst <$> pushTo acc row obj = fst <$> obj.
Proof.
  induction obj as [|[k rs] obj IH]; [done|]. simpl.
  destruct (String.eqb k acc); rewrite !fmap_cons; [done | by f_equal].
Qed.

Lemma groupRow_groups (seen : list ImportRow.t) (obj obj' : Grouped)
    (row : ImportRow.t) :
  groups seen obj → groupRow obj row = Some obj' →
  groups (seen ++ [row]) obj'.
Proof.
  intros (Hnd & Hkeys & Hrows). unfold groupRow.
  set (acc := ImportRow.accountNumber row).
  destruct (ownGet acc obj) as [rs0|] eqn:Hget.
  - intros [= <-]. apply ownGet_Some in Hget.
    split; [by rewrite pushTo_keys|]. split.
    + rewrite pushTo_keys. intros r [Hr|Hr%list_elem_of_singleton]%elem_of_app.
      * by apply Hkeys.
      * subst r. apply list_elem_of_fmap. by exists (acc, rs0).
    + intros k rs. rewrite pushTo_fmap by done.
      intros ([k' rs'] & Heq & Hin)%list_elem_of_fmap. simpl in Heq.
      destruct (Hrows k' rs' Hin) as [Hne Hrs].
      rewrite filter_snoc. fold acc.
      destruct (String.eqb k' acc) eqn:Hk'.
      * injection Heq as -> ->. apply eqb_true in Hk'. subst k'.
        rewrite String.eqb_refl. split; [by destruct rs'|]. by rewrite <- Hrs.
      * injection Heq as -> ->. rewrite String.eqb_sym, Hk', app_nil_r. done.
  - destruct (JS.includes inheritedKeys acc); [done|]. intros [= <-].
    apply ownGet_None in Hget.
    assert (NoDup (fst <$> obj ++ [(acc, [])])) as Hnd'.
    { rewrite fmap_app. apply NoDup_app. split; [done|].
      split; [|apply NoDup_singleton].
      intros k Hk ->%list_elem_of_singleton. done. }
    split; [by rewrite pushTo_keys|]. split.
    + rewrite pushTo_keys, fmap_app.
      intros r [Hr|Hr%list_elem_of_singleton]%elem_of_app.
      * apply elem_of_app. left. by apply Hkeys.
      * subst r. apply elem_of_app. right. by apply list_elem_of_singleton.
    + intros k rs. rewrite pushTo_fmap by done. rewrite fmap_app. simpl.
      rewrite String.eqb_refl. rewrite filter_snoc. fold acc.
      intros [Hin|Hin%list_elem_of_singleton]%elem_of_app.
      * apply list_elem_of_fmap in Hin as ([k' rs'] & Heq & Hin). simpl in Heq.
        assert (k' ≠ acc) as Hne.
        { intros ->. apply Hget. apply list_elem_of_fmap. by exists (acc, rs'). }
        apply eqb_false in Hne. rewrite Hne in Heq. injection Heq as -> ->.
        rewrite String.eqb_sym, Hne, app_nil_r. by apply Hrows.
      * injection Hin as -> ->. rewrite String.eqb_refl. split; [done|].
        assert (List.filter (λ r, String.eqb (ImportRow.accountNumber r) acc) seen
                = []) as ->; [|done].
        apply filter_nil_none. intros j y Hj. apply eqb_false. intros Hy.
        apply Hget. rewrite <- Hy. apply Hkeys. by eapply list_elem_of_lookup_2.
Qed.

Lemma groupFrom_groups (rows seen : list ImportRow.t) (obj g : Grouped) :
  groups seen obj → groupFrom obj rows = Some g → groups (seen ++ rows) g.
Proof.
  revert seen obj. induction rows as [|row rows IH]; intros seen obj Hobj; simpl.
  - intros [= <-]. by rewrite app_nil_r.
  - destruct (groupRow obj row) as [obj'|] eqn:Hrow; [|done]. simpl.
    intros Hg. rewrite (cons_middle row seen rows), app_assoc.
    eapply IH; [|done]. by eapply groupRow_groups.
Qed.

Lemma groupByAccount_groups (rows : list ImportRow.t) (g : Grouped) :
  groupByAccount rows = Some g → groups rows g.
Proof.
  intros Hg. apply (groupFrom_groups rows [] [] g); [|done].
  split; [constructor|]. split; [by intros r Hr%elem_of_nil|].
  by intros k rs Hin%elem_of_nil.
Qed.

(** Grouping raises only on an account number that names an inherited
    property. *)
Lemma groupFrom_total (rows : list ImportRow.t) (obj : Grouped) :
  (∀ r, r ∈ rows → JS.includes inheritedKeys (ImportRow.accountNumber r) = false) →
  is_Some (groupFrom obj rows).
Proof.
  revert obj. induction rows as [|row rows IH]; intros obj Hok; simpl; [done|].
  assert (is_Some (groupRow obj row)) as [obj' ->].
  { unfold groupRow. destruct (ownGet _ obj); [done|].
    rewrite Hok; [done | left]. }
  simpl. apply IH. intros r Hr. apply Hok. by right.
Qed.

(** ** The order of [Object.keys] *)

Lemma insertSorted_perm {A} (leb : A → A → bool) (x : A) (l : list A) :
  insertSorted leb x l ≡ₚ x :: l.
Proof.
  induction l as [|y l IH]; simpl; [done|].
  destruct (leb x y); [done|]. rewrite IH. apply Permutation_swap.
Qed.

Lemma stableSort_perm {A} (leb : A → A → bool) (l : list A) :
  stableSort leb l ≡ₚ l.
Proof.
  induction l as [|x l IH]; simpl; [done|].
  by rewrite insertSorted_perm, IH.
Qed.

Lemma ownKeys_perm (obj : Grouped) : ownKeys obj ≡ₚ obj.
Proof.
  unfold ownKeys. rewrite stableSort_perm.
  induction obj as [|[k rs] obj IH]; [done|]. simpl.
  destruct (arrayIndex k) as [n|] eqn:Hk; simpl.
  - apply perm_skip, IH.
  - etrans; [symmetry; apply Permutation_middle | apply perm_skip, IH].
Qed.

Lemma ownKeys_elem (obj : Grouped) (g : string * list ImportRow.t) :
  g ∈ ownKeys obj ↔ g ∈ obj.
Proof. by rewrite ownKeys_perm. Qed.

Lemma ownKeys_NoDup (obj : Grouped) :
  NoDup (fst <$> obj) → NoDup (fst <$> ownKeys obj).
Proof. by rewrite ownKeys_perm. Qed.

(** ** The second pass, one group *)

Lemma filter_length_eq {A} (p : A → bool) (l : list A) :
  length (List.filter p l) = length l → List.filter p l = l.
Proof.
  induction l as [|x l IH]; simpl; [done|].
  pose proof (List.filter_length_le p l) as Hle.
  destruct (p x); simpl; [intros [= H]; by rewrite IH | lia].
Qed.

Lemma filter_length_ne {A} (p : A → bool) (l : list A) :
  length (List.filter p l) ≠ length l → ∃ x, x ∈ l ∧ p x = false.
Proof.
  induction l as [|x l IH]; simpl; [done|].
  destruct (p x) eqn:Hx; simpl.
  - intros Hne. destruct IH as (y & Hy & Hpy); [lia|].
    exists y. split; [by right | done].
  - intros _. exists x. split; [by left | done].
Qed.

Lemma filter_all {A} (p : A → bool) (l : list A) :
  (∀ x, x ∈ l → p x = true) → List.filter p l = l.
Proof.
  induction l as [|x l IH]; simpl; [done|]. intros H.
  rewrite (H x) by left. f_equal. apply IH. intros y Hy. apply H. by right.
Qed.

Lemma contactOfRow_fields (k : string) (g : list ImportRow.t) :
  (λ c, (Contact.name c, Contact.email c, Contact.phone c))
    <$> imap (contactOfRow k) g
  = (λ r, (ImportRow.contactName r, ImportRow.contactEmail r,
           ImportRow.contactPhone r)) <$> g.
Proof. rewrite fmap_imap, <- imap_const. by apply imap_ext. Qed.

Lemma markFirstPrimary_fields (cs : list Contact.t) :
  (λ c, (Contact.name c, Contact.email c, Contact.phone c))
    <$> markFirstPrimary cs
  = (λ c, (Contact.name c, Contact.email c, Contact.phone c)) <$> cs.
Proof. by destruct cs. Qed.

Lemma contactOfRow_valid (k : string) (g : list ImportRow.t) (c : Contact.t) :
  c ∈ imap (contactOfRow k) g →
  ∃ r, r ∈ g
       ∧ JS.truthy (Contact.name c) && JS.truthy (Contact.email c)
         = negb (lacksContact r)
       ∧ Contact.isPrimary c = ImportRow.isPrimary r.
Proof.
  intros (i & r & -> & Hr)%elem_of_lookup_imap.
  exists r. split; [by eapply list_elem_of_lookup_2|].
  unfold lacksContact. simpl. by rewrite negb_orb, !negb_involutive.
Qed.

Section Verdicts.

Variable o : Oracle.
Variable existingCustomers : list Customer.t.
Variable parentNameMap : gmap string string.

Lemma buildCustomer_cases (n : nat) (g : list ImportRow.t)
    (firstRow : ImportRow.t) (cs : list Contact.t) :
  (∃ c, (buildCustomer o parentNameMap n g firstRow cs).1 = Accept c
        ∧ Customer.accountNumber c = ImportRow.accountNumber firstRow
        ∧ Customer.contacts c = cs)
  ∨ ∃ reason,
      (buildCustomer o parentNameMap n g firstRow cs).1
      = Reject (rejectAll g reason).
Proof.
  unfold buildCustomer.
  destruct (negb (negb (JS.truthy (ImportRow.parentCustomerName firstRow)))
            && negb (from_option JS.truthy false _)).
  - right. by eexists.
  - left. repeat case_match; simpl; by eexists.
Qed.

(** The three outcomes of a group: accepted as one customer with one
    contact per row; rejected with one entry per row, all with the same
    reason; or rejected for a missing contact name or email, with entries
    for the rows that lack one only. *)
Lemma analyzeGroup_cases (n : nat) (k : string) (g : list ImportRow.t) :
  g ≠ [] → (∀ r, r ∈ g → ImportRow.accountNumber r = k) →
  let v := (analyzeGroup o existingCustomers parentNameMap n k g).1 in
  (∃ c, v = Accept c ∧ Customer.accountNumber c = k ∧ contactsMatch c g)
  ∨ (∃ reason, v = Reject (rejectAll g reason))
  ∨ (v = Reject (rejectAll (List.filter lacksContact g) missingContact)
     ∧ ∃ r, r ∈ g ∧ lacksContact r = true).
Proof.
  intros Hne Hacc. destruct g as [|firstRow rest]; [done|]. clear Hne.
  assert (ImportRow.accountNumber firstRow = k) as Hk by (apply Hacc; left).
  cbv zeta. unfold analyzeGroup.
  set (g := firstRow :: rest) in *.
  destruct (negb (JS.truthy (ImportRow.customerName firstRow)));
    [right; left; by eexists|].
  case_bool_decide; [right; left; by eexists|].
  destruct (existsb _ existingCustomers); [right; left; by eexists|].
  set (contacts := imap (contactOfRow k) g).
  set (valid := λ c, JS.truthy (Contact.name c) && JS.truthy (Contact.email c)).
  case_bool_decide as Hlen; simpl negb; cbv iota.
  - (* every row has a contact name and an email *)
    apply filter_length_eq in Hlen. fold valid in Hlen. rewrite Hlen.
    assert (∀ cs, (λ c, (Contact.name c, Contact.email c, Contact.phone c))
                    <$> cs
                  = (λ c, (Contact.name c, Contact.email c, Contact.phone c))
                    <$> contacts →
            (∃ c, (buildCustomer o parentNameMap n g firstRow cs).1 = Accept c
                  ∧ Customer.accountNumber c = k ∧ contactsMatch c g)
            ∨ ∃ reason, (buildCustomer o parentNameMap n g firstRow cs).1
                        = Reject (rejectAll g reason)) as Hbuild.
    { intros cs Hcs.
      destruct (buildCustomer_cases n g firstRow cs)
        as [(c & Hc & Hc_acc & Hc_con)|Hrej]; [left|by right].
      exists c. split; [done|]. split; [congruence|].
      unfold contactsMatch. rewrite Hc_con, Hcs. apply contactOfRow_fields. }
    case_bool_decide.
    { destruct (Hbuild (markFirstPrimary contacts))
        as [?|?]; [apply markFirstPrimary_fields|by left|by right; left]. }
    case_bool_decide; [|right; left; by eexists].
    case_bool_decide; [right; left; by eexists|].
    case_bool_decide; [right; left; by eexists|].
    destruct (Hbuild contacts) as [?|?]; [done|by left|by right; left].
  - (* some row lacks one *)
    right. right. split.
    + reflexivity.
    + apply filter_length_ne in Hlen as (c & Hc & Hvalid).
      apply contactOfRow_valid in Hc as (r & Hr & Hrv & _).
      exists r. split; [done|]. unfold valid in Hvalid.
      rewrite Hvalid in Hrv. by destruct (lacksContact r).
Qed.

End Verdicts.

(** ** The second pass, all groups *)

Section Passes.

Variable o : Oracle.
Variable existingCustomers : list Customer.t.
Variable existingParents : list Customer.t.

Lemma secondPass_verdicts (m : gmap string string) (gs : Grouped) (st : Pass) :
  let st' := foldl (secondPass o existingCustomers m) st gs in
  let vs := verdicts o existingCustomers m (reads st) gs in
  accepted st' = accepted st ++ acceptedOf vs
  ∧ rejected st' = rejected st ++ rejectedOf vs.
Proof.
  revert st. induction gs as [|[k rs] gs IH]; intros st; simpl.
  - by rewrite !app_nil_r.
  - unfold secondPass at 2 4. simpl.
    destruct (analyzeGroup o existingCustomers m (reads st) k rs) as [[es|c] n'];
      simpl;
      match goal with
      | |- context [foldl _ ?s gs] => destruct (IH s) as [-> ->]
      end; simpl.
    + by rewrite <- app_assoc.
    + split; [|done]. by rewrite <- app_assoc.
Qed.

(** [analyzeRows], unfolded: the groups, the name map of the first pass,
    and the two output lists as the verdicts of the second. *)
Lemma analyzeRows_verdicts (rows : list ImportRow.t) (out : ProcessedBatch) :
  analyzeRows o existingCustomers existingParents rows = Some out →
  ∃ g m n,
    groupByAccount rows = Some g
    ∧ foldl (registerParent o) (seedParents existingParents, 0) (ownKeys g)
      = (m, n)
    ∧ validCustomers out
      = acceptedOf (verdicts o existingCustomers m n (ownKeys g))
    ∧ errors out
      = stableSort errorLeb
          (rejectedOf (verdicts o existingCustomers m n (ownKeys g))).
Proof.
  unfold analyzeRows. destruct (groupByAccount rows) as [g|]; [|done]. simpl.
  destruct (foldl _ _ (ownKeys g)) as [m n] eqn:Hfold.
  intros [= <-]. exists g, m, n. simpl.
  destruct (secondPass_verdicts m (ownKeys g) (Build_Pass [] [] n)) as [-> ->].
  done.
Qed.

Lemma analyzeRows_total (rows : list ImportRow.t) :
  (∀ r, r ∈ rows → JS.includes inheritedKeys (ImportRow.accountNumber r) = false) →
  is_Some (analyzeRows o existingCustomers existingParents rows).
Proof.
  intros Hok. unfold analyzeRows, groupByAccount.
  destruct (groupFrom_total rows [] Hok) as [g ->]. simpl.
  by destruct (foldl _ _ (ownKeys g)).
Qed.

Lemma verdicts_app (m : gmap string string) (n : nat) (pre post : Grouped) :
  ∃ n', verdicts o existingCustomers m n (pre ++ post)
        = verdicts o existingCustomers m n pre
          ++ verdicts o existingCustomers m n' post.
Proof.
  revert n. induction pre as [|[k rs] pre IH]; intros n; simpl; [by exists n|].
  destruct (analyzeGroup o existingCustomers m n k rs) as [v n1].
  destruct (IH n1) as [n' ->]. by exists n'.
Qed.

Lemma acceptedOf_app (vs ws : list Verdict) :
  acceptedOf (vs ++ ws) = acceptedOf vs ++ acceptedOf ws.
Proof. apply omap_app. Qed.

Lemma rejectedOf_app (vs ws : list Verdict) :
  rejectedOf (vs ++ ws) = rejectedOf vs ++ rejectedOf ws.
Proof. unfold rejectedOf. by rewrite fmap_app, concat_app. Qed.

Lemma rejectedOf_cons (v : Verdict) (vs : list Verdict) :
  rejectedOf (v :: vs)
  = match v with Accept _ => [] | Reject es => es end ++ rejectedOf vs.
Proof. done. Qed.

Lemma acceptedOf_cons (v : Verdict) (vs : list Verdict) :
  acceptedOf (v :: vs)
  = match v with Accept c => [c] | Reject _ => [] end ++ acceptedOf vs.
Proof. by destruct v. Qed.

(** The groups under other account numbers contribute no customer with
    this account number. *)
Lemma verdicts_other_accepted (m : gmap string string) (n : nat)
    (gs : Grouped) (k : string) :
  (∀ k' rs, (k', rs) ∈ gs →
     k' ≠ k ∧ rs ≠ [] ∧ ∀ r, r ∈ rs → ImportRow.accountNumber r = k') →
  List.filter (λ c, String.eqb (Customer.accountNumber c) k)
    (acceptedOf (verdicts o existingCustomers m n gs)) = [].
Proof.
  revert n. induction gs as [|[k' rs] gs IH]; intros n Hgs; [done|]. simpl.
  destruct (Hgs k' rs) as (Hne & Hrs & Hacc); [left|].
  pose proof (analyzeGroup_cases o existingCustomers m n k' rs Hrs Hacc) as Hv.
  destruct (analyzeGroup o existingCustomers m n k' rs) as [v n1].
  simpl in Hv. rewrite acceptedOf_cons, List.filter_app.
  assert (List.filter (λ c, String.eqb (Customer.accountNumber c) k)
            (acceptedOf (verdicts o existingCustomers m n1 gs)) = []) as Hrest.
  { apply IH. intros k2 rs2 Hin. apply Hgs. by right. }
  rewrite Hrest, app_nil_r. destruct v as [es|c]; [done|]. simpl.
  destruct Hv as [(c' & [= <-] & Hc & _)|[(? & [=])|([=] & _)]].
  apply eqb_false in Hne. by rewrite Hc, Hne.
Qed.

Lemma rejectAll_rowNumbers (g : list ImportRow.t) (reason : string) :
  RowError.rowNumber <$> rejectAll g reason = ImportRow.rowNumber <$> g.
Proof. unfold rejectAll. rewrite <- list_fmap_compose. done. Qed.

(** Every rejection entry of a group carries the row number of one of
    its rows. *)
Lemma analyzeGroup_rowNumbers (m : gmap string string) (n : nat) (k : string)
    (rs : list ImportRow.t) (es : list RowError.t) (e : RowError.t) :
  rs ≠ [] → (∀ r, r ∈ rs → ImportRow.accountNumber r = k) →
  (analyzeGroup o existingCustomers m n k rs).1 = Reject es → e ∈ es →
  ∃ r, r ∈ rs ∧ RowError.rowNumber e = ImportRow.rowNumber r.
Proof.
  intros Hrs Hacc Hv He.
  destruct (analyzeGroup_cases o existingCustomers m n k rs Hrs Hacc)
    as [(c & Hc & _)|[(reason & Hr)|(Hr & _)]]; [congruence|..].
  - rewrite Hr in Hv. injection Hv as <-.
    apply list_elem_of_fmap in He as (r & -> & Hr'). by exists r.
  - rewrite Hr in Hv. injection Hv as <-.
    apply list_elem_of_fmap in He as (r & -> & Hr').
    apply list_elem_of_In, filter_In in Hr' as [Hr' _].
    exists r. split; [by apply list_elem_of_In | done].
Qed.

(** The groups that hold no row with this row number contribute no entry
    with it. *)
Lemma verdicts_other_rejected (m : gmap string string) (n : nat)
    (gs : Grouped) (rn : nat) :
  (∀ k' rs, (k', rs) ∈ gs →
     rs ≠ [] ∧ (∀ r, r ∈ rs → ImportRow.accountNumber r = k')
     ∧ ∀ r, r ∈ rs → ImportRow.rowNumber r ≠ rn) →
  List.filter (λ e, RowError.rowNumber e =? rn)
    (rejectedOf (verdicts o existingCustomers m n gs)) = [].
Proof.
  revert n. induction gs as [|[k' rs] gs IH]; intros n Hgs; [done|]. simpl.
  destruct (Hgs k' rs) as (Hrs & Hacc & Hrn); [left|].
  pose proof (analyzeGroup_rowNumbers m n k' rs) as Hv.
  destruct (analyzeGroup o existingCustomers m n k' rs) as [v n1].
  simpl in Hv. rewrite rejectedOf_cons, List.filter_app.
  assert (List.filter (λ e, RowError.rowNumber e =? rn)
            (rejectedOf (verdicts o existingCustomers m n1 gs)) = []) as Hrest.
  { apply IH. intros k2 rs2 Hin. apply Hgs. by right. }
  rewrite Hrest, app_nil_r.
  destruct v as [es|c]; [|done].
  apply filter_nil_none. intros j e Hj. apply Nat.eqb_neq.
  destruct (Hv es e Hrs Hacc eq_refl) as (r & Hr & ->);
    [by eapply list_elem_of_lookup_2 | by apply Hrn].
Qed.

End Passes.

(** ** Every row accounted for *)

(** Sorting by row number keeps the entries of one row number in the
    order they were pushed. *)
Lemma filter_insertSorted (rn : nat) (e : RowError.t) (l : list RowError.t) :
  List.filter (λ e, RowError.rowNumber e =? rn) (insertSorted errorLeb e l)
  = List.filter (λ e, RowError.rowNumber e =? rn) (e :: l).
Proof.
  induction l as [|y l IH]; [done|]. simpl in *.
  unfold errorLeb at 1. destruct (Nat.leb_spec (RowError.rowNumber e)
                                    (RowError.rowNumber y)) as [Hle|Hlt];
    [done|].
  simpl. rewrite IH.
  destruct (Nat.eqb_spec (RowError.rowNumber y) rn) as [Hy|Hy],
           (Nat.eqb_spec (RowError.rowNumber e) rn) as [He|He]; try done.
  lia.
Qed.

Lemma filter_stableSort (rn : nat) (l : list RowError.t) :
  List.filter (λ e, RowError.rowNumber e =? rn) (stableSort errorLeb l)
  = List.filter (λ e, RowError.rowNumber e =? rn) l.
Proof.
  induction l as [|e l IH]; [done|]. simpl.
  rewrite filter_insertSorted. simpl. by rewrite IH.
Qed.

Lemma NoDup_fmap_eq {A B} (f : A → B) (l : list A) (x y : A) :
  NoDup (f <$> l) → x ∈ l → y ∈ l → f x = f y → x = y.
Proof.
  induction l as [|z l IH]; [by intros _ ?%elem_of_nil|].
  rewrite fmap_cons. intros [Hz Hnd]%NoDup_cons.
  intros [->|Hx]%elem_of_cons [->|Hy]%elem_of_cons Hf; [done|..].
  - destruct Hz. rewrite Hf. by apply list_elem_of_fmap_2.
  - destruct Hz. rewrite <- Hf. by apply list_elem_of_fmap_2.
  - by apply IH.
Qed.

Lemma entries_absent (q : ImportRow.t → bool) (l : list ImportRow.t)
    (reason : string) (rn : nat) :
  rn ∉ ImportRow.rowNumber <$> l →
  List.filter (λ e, RowError.rowNumber e =? rn)
    (rejectAll (List.filter q l) reason) = [].
Proof.
  intros Hrn. apply filter_nil_none. intros j e Hj. apply Nat.eqb_neq.
  intros <-. apply Hrn.
  apply list_elem_of_lookup_2, list_elem_of_fmap in Hj as (x & -> & Hx).
  apply list_elem_of_In, filter_In in Hx as [Hx _]. simpl.
  by apply (list_elem_of_fmap_2 ImportRow.rowNumber), list_elem_of_In.
Qed.

(** The entries a rejected group leaves for one of its rows, when the
    rows [q] selects are reported. *)
Lemma entries_rejectAll (q : ImportRow.t → bool) (l : list ImportRow.t)
    (reason : string) (r : ImportRow.t) :
  NoDup (ImportRow.rowNumber <$> l) → r ∈ l →
  RowError.reason
  <$> List.filter (λ e, RowError.rowNumber e =? ImportRow.rowNumber r)
        (rejectAll (List.filter q l) reason)
  = if q r then [reason] else [].
Proof.
  induction l as [|x l IH]; [by intros _ ?%elem_of_nil|].
  rewrite fmap_cons. intros [Hx Hnd]%NoDup_cons [->|Hr]%elem_of_cons.
  - pose proof (entries_absent q l reason _ Hx) as Hrest. simpl.
    destruct (q x); simpl; rewrite ?Nat.eqb_refl; by rewrite Hrest.
  - assert ((ImportRow.rowNumber x =? ImportRow.rowNumber r) = false) as Hne.
    { apply Nat.eqb_neq. intros Heq. apply Hx. rewrite Heq.
      by apply list_elem_of_fmap_2. }
    simpl. destruct (q x); simpl; rewrite ?Hne; by apply IH.
Qed.

Lemma NoDup_fmap_filter {A B} (f : A → B) (p : A → bool) (l : list A) :
  NoDup (f <$> l) → NoDup (f <$> List.filter p l).
Proof.
  induction l as [|x l IH]; [done|]. rewrite fmap_cons.
  intros [Hx Hnd]%NoDup_cons. simpl. destruct (p x); [|by apply IH].
  rewrite fmap_cons. apply NoDup_cons. split; [|by apply IH].
  intros (y & Hy & Hin)%list_elem_of_fmap. apply Hx. rewrite Hy.
  apply list_elem_of_fmap_2.
  apply list_elem_of_In, filter_In in Hin as [Hin _].
  by apply list_elem_of_In.
Qed.

Section Accounting.

Variable o : Oracle.
Variable existingCustomers : list Customer.t.
Variable existingParents : list Customer.t.

(** The verdict of a group is among the verdicts of the second pass. *)
Lemma verdicts_elem (m : gmap string string) (n : nat) (gs : Grouped)
    (k : string) (rs : list ImportRow.t) :
  (k, rs) ∈ gs →
  ∃ n', (analyzeGroup o existingCustomers m n' k rs).1
        ∈ verdicts o existingCustomers m n gs.
Proof.
  intros (pre & post & ->)%list_elem_of_split.
  destruct (verdicts_app o existingCustomers m n pre ((k, rs) :: post))
    as [n' ->].
  exists n'. apply elem_of_app. right. simpl.
  destruct (analyzeGroup o existingCustomers m n' k rs). by left.
Qed.

(** What the outputs hold for the group of one row: the customers with
    its account number and the entries with the row numbers of the group
    are those of the group's own verdict. *)
Lemma analyzeRows_group (rows : list ImportRow.t) (out : ProcessedBatch)
    (r : ImportRow.t) :
  analyzeRows o existingCustomers existingParents rows = Some out →
  NoDup (ImportRow.rowNumber <$> rows) → r ∈ rows →
  ∃ m n,
    let v := (analyzeGroup o existingCustomers m n
                (ImportRow.accountNumber r) (groupOf r rows)).1 in
    customersFor r out
    = List.filter (λ c, String.eqb (Customer.accountNumber c)
                                   (ImportRow.accountNumber r))
        (acceptedOf [v])
    ∧ ∀ r', r' ∈ groupOf r rows →
        entriesFor r' out
        = RowError.reason
          <$> List.filter
                (λ e, RowError.rowNumber e =? ImportRow.rowNumber r')
                (rejectedOf [v]).
Proof.
  intros Hout Hnd Hr.
  destruct (analyzeRows_verdicts _ _ _ _ _ Hout)
    as (g & m & n & Hg & _ & Hvalid & Herrors).
  destruct (groupByAccount_groups _ _ Hg) as (Hkeys_nd & Hkeys & Hrows).
  set (k := ImportRow.accountNumber r).
  pose proof (Hkeys r Hr) as Hk.
  apply list_elem_of_fmap in Hk as ([k' rs] & Hk' & Hin).
  simpl in Hk'. subst k'. fold k in Hin.
  destruct (Hrows k rs Hin) as [Hrs_ne Hrs].
  assert (rs = groupOf r rows) as <- by done.
  assert (∀ k' rs', (k', rs') ∈ ownKeys g →
            rs' ≠ [] ∧ (∀ x, x ∈ rs' → ImportRow.accountNumber x = k')
            ∧ ∀ x, x ∈ rs' → x ∈ rows) as Hgroup.
  { intros k' rs' Hin'. apply (proj1 (ownKeys_elem _ _)) in Hin'.
    destruct (Hrows k' rs' Hin') as [? ->].
    split; [done|].
    split; intros x [Hx Hacc]%list_elem_of_In%filter_In;
      [by apply eqb_true in Hacc | by apply list_elem_of_In]. }
  apply ownKeys_NoDup in Hkeys_nd. apply (proj2 (ownKeys_elem _ _)) in Hin.
  apply list_elem_of_split in Hin as (pre & post & Hsplit).
  rewrite Hsplit in Hkeys_nd, Hgroup.
  rewrite fmap_app, fmap_cons in Hkeys_nd. simpl in Hkeys_nd.
  apply NoDup_app in Hkeys_nd as (_ & Hpre & [Hpost _]%NoDup_cons).
  assert (∀ k' rs', (k', rs') ∈ pre ∨ (k', rs') ∈ post → k' ≠ k) as Hother.
  { intros k' rs' [Hin|Hin] ->.
    - apply (Hpre k); [by apply (list_elem_of_fmap_2 fst _ (k, rs'))|left].
    - apply Hpost. by apply (list_elem_of_fmap_2 fst _ (k, rs')). }
  destruct (verdicts_app o existingCustomers m n pre ((k, rs) :: post))
    as [n1 Hvs].
  simpl in Hvs.
  destruct (analyzeGroup o existingCustomers m n1 k rs) as [v n2] eqn:Hv.
  exists m, n1. rewrite Hv. cbv zeta. simpl fst.
  unfold customersFor, entriesFor.
  rewrite Hvalid, Herrors, Hsplit, Hvs. split.
  - rewrite acceptedOf_app, acceptedOf_cons, !List.filter_app.
    rewrite !verdicts_other_accepted.
    + rewrite acceptedOf_cons. simpl. by rewrite !app_nil_r.
    + intros k' rs' Hin'. destruct (Hgroup k' rs') as (? & ? & _);
        [apply elem_of_app; right; by right|].
      split; [by apply (Hother k' rs'); right | done].
    + intros k' rs' Hin'. destruct (Hgroup k' rs') as (? & ? & _);
        [apply elem_of_app; by left|].
      split; [by apply (Hother k' rs'); left | done].
  - intros r' Hr'. rewrite filter_stableSort.
    rewrite rejectedOf_app, rejectedOf_cons, !List.filter_app.
    assert (∀ k' rs', (k', rs') ∈ pre ∨ (k', rs') ∈ post →
              rs' ≠ [] ∧ (∀ x, x ∈ rs' → ImportRow.accountNumber x = k')
              ∧ ∀ x, x ∈ rs' → ImportRow.rowNumber x ≠ ImportRow.rowNumber r')
      as Hrn.
    { intros k' rs' Hin'. destruct (Hgroup k' rs') as (Hne & Hacc & Hsub).
      { apply elem_of_app. destruct Hin'; [by left | right; by right]. }
      split; [done|]. split; [done|]. intros x Hx Heq.
      destruct (Hgroup k rs) as (_ & Hacc_k & Hsub_k);
        [apply elem_of_app; right; left|].
      assert (x = r') as ->
        by (apply (NoDup_fmap_eq ImportRow.rowNumber rows); auto).
      apply (Hother k' rs' Hin'). rewrite <- (Hacc r' Hx). by apply Hacc_k. }
    rewrite !verdicts_other_rejected.
    + rewrite rejectedOf_cons. simpl. by rewrite !app_nil_r.
    + intros k' rs' Hin'. apply Hrn. by right.
    + intros k' rs' Hin'. apply Hrn. by left.
Qed.

End Accounting.

(** C1, as amended. For a batch whose rows have distinct row numbers and
    whose account numbers name no inherited property, the resolver
    returns its two lists, and every row is accounted for exactly once
    ([accountedFor]) unless its group is rejected for a missing contact
    name or email: then only the rows of the group that lack one have an
    entry, and the other rows of the group appear in neither list
    ([partlyReported]). The rows read from a file have distinct row
    numbers. *)
Theorem analyzeRows_accounts_for_rows
    (o : Oracle) (existingCustomers existingParents : list Customer.t)
    (rows : list ImportRow.t) :
  (∀ r, r ∈ rows →
        JS.includes inheritedKeys (ImportRow.accountNumber r) = false) →
  NoDup (ImportRow.rowNumber <$> rows) →
  ∃ out,
    analyzeRows o existingCustomers existingParents rows = Some out
    ∧ ∀ r, r ∈ rows → accountedFor rows out r ∨ partlyReported rows out r.
Proof.
  intros Hkeys Hnd.
  destruct (analyzeRows_total o existingCustomers existingParents rows Hkeys)
    as [out Hout].
  exists out. split; [done|]. intros r Hr.
  destruct (analyzeRows_group o existingCustomers existingParents
              rows out r Hout Hnd Hr) as (m & n & Hcust & Hentries).
  cbv zeta in Hcust, Hentries.
  assert (groupOf r rows ≠ []) as Hne.
  { intros Hnil.
    assert (r ∈ groupOf r rows) as Hin;
      [|rewrite Hnil in Hin; by apply elem_of_nil in Hin].
    apply list_elem_of_In, filter_In. split; [by apply list_elem_of_In|].
    apply String.eqb_refl. }
  assert (∀ x, x ∈ groupOf r rows →
               ImportRow.accountNumber x = ImportRow.accountNumber r) as Hacc.
  { intros x [_ Hx]%list_elem_of_In%filter_In. by apply eqb_true in Hx. }
  assert (NoDup (ImportRow.rowNumber <$> groupOf r rows)) as Hnd_g
    by by apply NoDup_fmap_filter.
  destruct (analyzeGroup_cases o existingCustomers m n _ _ Hne Hacc)
    as [(c & Hv & Hc_acc & Hc_con)|[(reason & Hv)|(Hv & Hlack)]];
    cbv zeta in Hv; rewrite Hv in Hcust, Hentries.
  - (* accepted *)
    left. left. exists c. simpl in Hcust. rewrite Hc_acc in Hcust.
    rewrite String.eqb_refl in Hcust. split; [done|]. split; [done|].
    intros r' Hr'. by rewrite Hentries.
  - (* rejected, every row reported *)
    left. right. split; [done|]. exists reason. intros r' Hr'.
    rewrite Hentries by done. rewrite rejectedOf_cons, app_nil_r.
    rewrite <- (filter_all (λ _, true) (groupOf r rows)) at 1 by done.
    by rewrite (entries_rejectAll (λ _, true)).
  - (* rejected for a missing contact *)
    right. split; [done|]. split; [done|]. intros r' Hr'.
    rewrite Hentries by done. rewrite rejectedOf_cons, app_nil_r.
    by rewrite entries_rejectAll.
Qed.

(** C1 as stated fails: of two rows of one account, the first without a
    contact email and the second complete, only the first is reported;
    the second has neither a customer nor a rejection entry. *)
Lemma analyzeRows_drops_row_counterexample :
  ∃ out,
    analyzeRows Sample.oracle [] [] [Sample.incomplete; Sample.complete]
    = Some out
    ∧ validCustomers out = []
    ∧ errors out = [RowError.mk 2 missingContact]
    ∧ ¬ accountedFor [Sample.incomplete; Sample.complete] out Sample.complete.
Proof.
  eexists. split; [vm_compute; reflexivity|].
  split; [reflexivity|]. split; [reflexivity|].
  intros [(c & Hc & _)|(_ & reason & Hall)].
  - vm_compute in Hc. discriminate.
  - specialize (Hall _ (ltac:(right; left))). vm_compute in Hall. discriminate.
Qed.

(** A batch of two accepted groups. *)
Lemma analyzeRows_accounts_for_rows_witness :
  let rows := [Sample.child; Sample.parent] in
  ∃ out,
    analyzeRows Sample.oracle Sample.population [Sample.acme; Sample.globex] rows
    = Some out
    ∧ (accountedFor rows out Sample.child ∨ partlyReported rows out Sample.child)
    ∧ (accountedFor rows out Sample.parent
       ∨ partlyReported rows out Sample.parent).
Proof.
  cbv zeta.
  destruct (analyzeRows_accounts_for_rows Sample.oracle Sample.population
              [Sample.acme; Sample.globex] [Sample.child; Sample.parent])
    as (out & Hout & Hrows).
  - intros r Hr. repeat (apply elem_of_cons in Hr as [->|Hr]); try reflexivity.
    by apply elem_of_nil in Hr.
  - refine (bool_decide_unpack _ _). vm_compute. exact I.
  - exists out. split; [exact Hout|].
    split; apply Hrows; [left | right; left].
Defined.

(** ** Resolving parents by name *)

Lemma syntheticId_truthy (o : Oracle) (n : nat) :
  JS.truthy (syntheticId o n) = true.
Proof. done. Qed.

Section Resolve.

Variable o : Oracle.
Variable existingCustomers : list Customer.t.
Variable existingParents : list Customer.t.

(** A name registered with a synthesized id stays registered with a
    synthesized id through the first pass. *)
Lemma registerParent_keeps (st : gmap string string * nat)
    (g : string * list ImportRow.t) (key : string) :
  (∃ j, st.1 !! key = Some (syntheticId o j)) →
  ∃ j, (registerParent o st g).1 !! key = Some (syntheticId o j).
Proof.
  intros [j Hj]. unfold registerParent.
  destruct g.2 as [|firstRow ?]; [by exists j|].
  destruct (negb (JS.truthy (ImportRow.parentCustomerName firstRow)));
    [|by exists j]. simpl.
  destruct (JS.truthy (ImportRow.customerName firstRow)); [|by exists j].
  destruct (decide (JS.toLowerCase (ImportRow.customerName firstRow) = key))
    as [<-|Hne].
  - exists st.2. apply lookup_insert_eq.
  - exists j. by rewrite lookup_insert_ne.
Qed.

Lemma registerParents_keep (gs : Grouped) (st : gmap string string * nat)
    (key : string) :
  (∃ j, st.1 !! key = Some (syntheticId o j)) →
  ∃ j, (foldl (registerParent o) st gs).1 !! key = Some (syntheticId o j).
Proof.
  revert st. induction gs as [|g gs IH]; intros st Hst; [done|]. simpl.
  by apply IH, registerParent_keeps.
Qed.

(** After the first pass the name of every PARENT group is registered
    with a synthesized id, wherever the group stands in the batch. *)
Lemma registerParents_registered (gs : Grouped) (st : gmap string string * nat)
    (k : string) (firstRow : ImportRow.t) (rest : list ImportRow.t) :
  (k, firstRow :: rest) ∈ gs →
  JS.truthy (ImportRow.parentCustomerName firstRow) = false →
  JS.truthy (ImportRow.customerName firstRow) = true →
  ∃ j, (foldl (registerParent o) st gs).1
       !! JS.toLowerCase (ImportRow.customerName firstRow)
       = Some (syntheticId o j).
Proof.
  intros Hin Hparent Hname. revert st.
  induction gs as [|g gs IH]; intros st; [by apply elem_of_nil in Hin|].
  apply elem_of_cons in Hin as [<-|Hin]; [|by apply IH].
  simpl. apply registerParents_keep.
  unfold registerParent. simpl. rewrite Hparent, Hname. simpl.
  exists st.2. apply lookup_insert_eq.
Qed.

Lemma buildCustomer_parent (m : gmap string string) (n : nat)
    (g : list ImportRow.t) (firstRow : ImportRow.t) (cs : list Contact.t)
    (i : string) :
  JS.truthy (ImportRow.parentCustomerName firstRow) = false →
  m !! JS.toLowerCase (ImportRow.customerName firstRow) = Some i →
  JS.truthy i = true →
  ∃ c, (buildCustomer o m n g firstRow cs).1 = Accept c
       ∧ Customer.id c = i ∧ Customer.type c = PARENT
       ∧ Customer.accountNumber c = ImportRow.accountNumber firstRow.
Proof.
  intros Hparent Hm Hi. unfold buildCustomer.
  rewrite Hparent, Hm. simpl. rewrite Hi. simpl. by eexists.
Qed.

Lemma buildCustomer_direct (m : gmap string string) (n : nat)
    (g : list ImportRow.t) (firstRow : ImportRow.t) (cs : list Contact.t)
    (i : string) :
  JS.truthy (ImportRow.parentCustomerName firstRow) = true →
  m !! JS.toLowerCase (ImportRow.parentCustomerName firstRow) = Some i →
  JS.truthy i = true →
  ∃ c, (buildCustomer o m n g firstRow cs).1 = Accept c
       ∧ Customer.parentId c = ref i ∧ Customer.type c = DIRECT
       ∧ Customer.accountNumber c = ImportRow.accountNumber firstRow.
Proof.
  intros Hparent Hm Hi. unfold buildCustomer.
  rewrite Hparent, Hm. simpl. rewrite Hi. simpl.
  by eexists.
Qed.

Lemma size_names (l : list string) (a : string) :
  (∀ x, x ∈ l → x = a) → size (list_to_set l : gset string) ≤ 1.
Proof.
  intros Hall. rewrite <- (size_singleton (C:=gset string) a).
  apply subseteq_size. intros x Hx%elem_of_list_to_set.
  apply elem_of_singleton. by apply Hall.
Qed.

Lemma filter_imap_length {A B} (p : B → bool) (q : A → bool)
    (f : nat → A → B) (l : list A) :
  (∀ i x, p (f i x) = q x) →
  length (List.filter p (imap f l)) = length (List.filter q l).
Proof.
  revert f. induction l as [|x l IH]; intros f Hpq; [done|]. simpl.
  rewrite Hpq. destruct (q x); simpl; rewrite (IH (f ∘ S)); try done.
  all: intros i y; apply Hpq.
Qed.

(** A group that passes steps 3a to 3e reaches the hierarchy step. *)
Lemma analyzeGroup_passes (m : gmap string string) (n : nat) (k : string)
    (firstRow : ImportRow.t) (rest : list ImportRow.t) :
  passesChecks existingCustomers k (firstRow :: rest) = true →
  ∃ cs, analyzeGroup o existingCustomers m n k (firstRow :: rest)
        = buildCustomer o m n (firstRow :: rest) firstRow cs.
Proof.
  unfold passesChecks, analyzeGroup. set (g := firstRow :: rest).
  intros Hpass.
  apply andb_true_iff in Hpass as [Hpass Hprimary].
  apply andb_true_iff in Hpass as [Hpass Hcontacts].
  apply andb_true_iff in Hpass as [Hpass Hnew].
  apply andb_true_iff in Hpass as [Hname Hnames].
  rewrite Hname. change (negb true) with false. cbv iota.
  rewrite bool_decide_eq_false_2; last first.
  { apply Nat.le_ngt, (size_names _ (ImportRow.customerName firstRow)).
    intros x (r & -> & Hr)%list_elem_of_fmap.
    rewrite forallb_forall in Hnames.
    by apply eqb_true, Hnames, list_elem_of_In. }
  apply negb_true_iff in Hnew. rewrite Hnew.
  set (contacts := imap (contactOfRow k) g).
  assert (List.filter
            (λ c, JS.truthy (Contact.name c) && JS.truthy (Contact.email c))
            contacts = contacts) as ->.
  { apply filter_all. intros c (r & Hr & -> & _)%contactOfRow_valid.
    rewrite forallb_forall in Hcontacts. by apply Hcontacts, list_elem_of_In. }
  rewrite bool_decide_eq_true_2 by done. change (negb true) with false.
  cbv iota.
  assert (length contacts = length g) as Hlen by apply length_imap.
  rewrite Hlen.
  case_bool_decide as Hone; [by eexists|].
  rewrite bool_decide_eq_true_2 by (simpl in *; lia).
  apply orb_true_iff in Hprimary as [Hp|Hp];
    [apply Nat.eqb_eq in Hp; done|].
  apply Nat.eqb_eq in Hp. unfold contacts.
  rewrite (filter_imap_length _ ImportRow.isPrimary) by done.
  rewrite Hp. simpl. by eexists.
Qed.

End Resolve.

Section ForwardReferences.

Variable o : Oracle.
Variable existingCustomers : list Customer.t.
Variable existingParents : list Customer.t.

Lemma analyzeRows_of_groups (rows : list ImportRow.t) (g : Grouped) :
  groupByAccount rows = Some g →
  ∃ out m n,
    analyzeRows o existingCustomers existingParents rows = Some out
    ∧ foldl (registerParent o) (seedParents existingParents, 0) (ownKeys g)
      = (m, n)
    ∧ validCustomers out
      = acceptedOf (verdicts o existingCustomers m n (ownKeys g)).
Proof.
  intros Hg.
  destruct (analyzeRows o existingCustomers existingParents rows) as [out|]
    eqn:Hout.
  - destruct (analyzeRows_verdicts _ _ _ _ _ Hout)
      as (g' & m & n & Hg' & Hfold & Hvalid & _).
    assert (g' = g) as -> by congruence. by exists out, m, n.
  - unfold analyzeRows in Hout. rewrite Hg in Hout. simpl in Hout.
    by destruct (foldl _ _ (ownKeys g)).
Qed.

Lemma accepted_elem (c : Customer.t) (vs : list Verdict) :
  Accept c ∈ vs → c ∈ acceptedOf vs.
Proof.
  intros Hin. apply list_elem_of_omap. by exists (Accept c).
Qed.

Lemma group_first_account (rows : list ImportRow.t) (g : Grouped) (k : string)
    (firstRow : ImportRow.t) (rest : list ImportRow.t) :
  groups rows g → (k, firstRow :: rest) ∈ g →
  ImportRow.accountNumber firstRow = k.
Proof.
  intros (_ & _ & Hrows) Hin. destruct (Hrows _ _ Hin) as [_ Heq].
  assert (firstRow ∈ firstRow :: rest) as Hfirst by left.
  rewrite Heq in Hfirst.
  apply list_elem_of_In, filter_In in Hfirst as [_ Hacc].
  by apply eqb_true in Hacc.
Qed.

Lemma passesChecks_name (k : string) (firstRow : ImportRow.t)
    (rest : list ImportRow.t) :
  passesChecks existingCustomers k (firstRow :: rest) = true →
  JS.truthy (ImportRow.customerName firstRow) = true.
Proof.
  unfold passesChecks. intros Hpass.
  by repeat (apply andb_true_iff in Hpass as [Hpass _]).
Qed.

Lemma classify_parent (firstRow : ImportRow.t) (rest : list ImportRow.t) :
  classify (firstRow :: rest) = Some PARENT →
  JS.truthy (ImportRow.parentCustomerName firstRow) = false.
Proof.
  unfold classify. by destruct (JS.truthy (ImportRow.parentCustomerName _)).
Qed.

Lemma classify_direct (firstRow : ImportRow.t) (rest : list ImportRow.t) :
  classify (firstRow :: rest) = Some DIRECT →
  JS.truthy (ImportRow.parentCustomerName firstRow) = true.
Proof.
  unfold classify. by destruct (JS.truthy (ImportRow.parentCustomerName _)).
Qed.

(** A PARENT group that passes the checks is accepted under the id its
    name is registered with after the first pass. *)
Lemma parent_group_accepted (rows : list ImportRow.t) (g : Grouped)
    (m : gmap string string) (n : nat) (k : string)
    (firstRow : ImportRow.t) (rest : list ImportRow.t) :
  groups rows g →
  foldl (registerParent o) (seedParents existingParents, 0) (ownKeys g)
  = (m, n) →
  (k, firstRow :: rest) ∈ g →
  classify (firstRow :: rest) = Some PARENT →
  passesChecks existingCustomers k (firstRow :: rest) = true →
  ∃ j c,
    m !! JS.toLowerCase (ImportRow.customerName firstRow)
    = Some (syntheticId o j)
    ∧ c ∈ acceptedOf (verdicts o existingCustomers m n (ownKeys g))
    ∧ Customer.id c = syntheticId o j ∧ Customer.type c = PARENT
    ∧ Customer.accountNumber c = k.
Proof.
  intros Hgroups Hfold Hin Hclass Hpass.
  apply classify_parent in Hclass.
  pose proof (passesChecks_name _ _ _ Hpass) as Hname.
  pose proof (group_first_account _ _ _ _ _ Hgroups Hin) as Hacc.
  apply (proj2 (ownKeys_elem _ _)) in Hin.
  destruct (registerParents_registered o (ownKeys g)
              (seedParents existingParents, 0) k firstRow rest Hin Hclass Hname)
    as [j Hj].
  rewrite Hfold in Hj. simpl in Hj.
  destruct (verdicts_elem o existingCustomers m n _ _ _ Hin) as [n' Hv].
  destruct (analyzeGroup_passes o existingCustomers m n' k firstRow rest Hpass)
    as [cs Hbuild].
  rewrite Hbuild in Hv.
  destruct (buildCustomer_parent o m n' (firstRow :: rest) firstRow cs _
              Hclass Hj (syntheticId_truthy o j))
    as (c & Hc & Hid & Hty & Hc_acc).
  rewrite Hc in Hv. exists j, c.
  split; [done|]. split; [by apply accepted_elem|].
  split; [done|]. split; [done|]. congruence.
Qed.

(** A DIRECT group that passes the checks and names a registered parent
    is accepted with that parent's id. *)
Lemma direct_group_accepted (rows : list ImportRow.t) (g : Grouped)
    (m : gmap string string) (n : nat) (k : string)
    (firstRow : ImportRow.t) (rest : list ImportRow.t) (i : string) :
  groups rows g →
  (k, firstRow :: rest) ∈ g →
  classify (firstRow :: rest) = Some DIRECT →
  passesChecks existingCustomers k (firstRow :: rest) = true →
  m !! JS.toLowerCase (ImportRow.parentCustomerName firstRow) = Some i →
  JS.truthy i = true →
  ∃ c,
    c ∈ acceptedOf (verdicts o existingCustomers m n (ownKeys g))
    ∧ Customer.parentId c = ref i ∧ Customer.type c = DIRECT
    ∧ Customer.accountNumber c = k.
Proof.
  intros Hgroups Hin Hclass Hpass Hm Hi.
  apply classify_direct in Hclass.
  pose proof (group_first_account _ _ _ _ _ Hgroups Hin) as Hacc.
  apply (proj2 (ownKeys_elem _ _)) in Hin.
  destruct (verdicts_elem o existingCustomers m n _ _ _ Hin) as [n' Hv].
  destruct (analyzeGroup_passes o existingCustomers m n' k firstRow rest Hpass)
    as [cs Hbuild].
  rewrite Hbuild in Hv.
  destruct (buildCustomer_direct o m n' (firstRow :: rest) firstRow cs _
              Hclass Hm Hi)
    as (c & Hc & Hpar & Hty & Hc_acc).
  rewrite Hc in Hv. exists c.
  split; [by apply accepted_elem|].
  split; [done|]. split; [done|]. congruence.
Qed.

End ForwardReferences.

(** In a batch the grouping survives, a DIRECT group that names, in any
    letter case, the customer of a PARENT group of the same batch is
    accepted with that parent's id as its [parentId], and the parent is
    accepted under that id, provided both groups pass the checks; the
    id is one the first pass synthesized. The order of the rows plays
    no part, so the child's rows may precede the parent's. *)
Lemma forward_reference_resolves
    (o : Oracle) (existingCustomers existingParents : list Customer.t)
    (rows : list ImportRow.t) (g : Grouped)
    (kc kp : string) (child parent : ImportRow.t)
    (restc restp : list ImportRow.t) :
  groupByAccount rows = Some g →
  (kc, child :: restc) ∈ g →
  (kp, parent :: restp) ∈ g →
  classify (child :: restc) = Some DIRECT →
  classify (parent :: restp) = Some PARENT →
  JS.toLowerCase (ImportRow.customerName parent)
  = JS.toLowerCase (ImportRow.parentCustomerName child) →
  passesChecks existingCustomers kc (child :: restc) = true →
  passesChecks existingCustomers kp (parent :: restp) = true →
  ∃ out cc cp,
    analyzeRows o existingCustomers existingParents rows = Some out
    ∧ cc ∈ validCustomers out ∧ cp ∈ validCustomers out
    ∧ Customer.accountNumber cc = kc ∧ Customer.type cc = DIRECT
    ∧ Customer.accountNumber cp = kp ∧ Customer.type cp = PARENT
    ∧ Customer.parentId cc = ref (Customer.id cp)
    ∧ ∃ j, Customer.id cp = syntheticId o j.
Proof.
  intros Hg Hc Hp Hc_class Hp_class Hname Hc_pass Hp_pass.
  pose proof (groupByAccount_groups _ _ Hg) as Hgroups.
  destruct (analyzeRows_of_groups o existingCustomers existingParents rows g Hg)
    as (out & m & n & Hout & Hfold & Hvalid).
  destruct (parent_group_accepted o existingCustomers existingParents
              rows g m n kp parent restp Hgroups Hfold Hp Hp_class Hp_pass)
    as (j & cp & Hm & Hcp & Hcp_id & Hcp_ty & Hcp_acc).
  rewrite Hname in Hm.
  destruct (direct_group_accepted o existingCustomers rows g m n kc child
              restc _ Hgroups Hc Hc_class Hc_pass Hm (syntheticId_truthy o j))
    as (cc & Hcc & Hcc_par & Hcc_ty & Hcc_acc).
  exists out, cc, cp. rewrite Hvalid, Hcp_id.
  repeat split; try done. by exists j.
Qed.

Lemma fmap_not_NoDup {A B} (f : A → B) (l : list A) (x y : A) :
  x ∈ l → y ∈ l → x ≠ y → f x = f y → ¬ NoDup (f <$> l).
Proof.
  intros Hx Hy Hne Hf Hnd. apply Hne. by apply (NoDup_fmap_eq f l).
Qed.

(** In a batch the grouping survives, two groups under different
    account numbers, both PARENT and both passing the checks, whose
    names are equal after lower-casing, are accepted as two customers
    with the same id: both read it from the one map entry their names
    share. The ids of the accepted list are then not distinct. *)
Lemma same_name_parents_share_id
    (o : Oracle) (existingCustomers existingParents : list Customer.t)
    (rows : list ImportRow.t) (g : Grouped)
    (k1 k2 : string) (first1 first2 : ImportRow.t)
    (rest1 rest2 : list ImportRow.t) :
  groupByAccount rows = Some g →
  (k1, first1 :: rest1) ∈ g →
  (k2, first2 :: rest2) ∈ g →
  k1 ≠ k2 →
  classify (first1 :: rest1) = Some PARENT →
  classify (first2 :: rest2) = Some PARENT →
  JS.toLowerCase (ImportRow.customerName first1)
  = JS.toLowerCase (ImportRow.customerName first2) →
  passesChecks existingCustomers k1 (first1 :: rest1) = true →
  passesChecks existingCustomers k2 (first2 :: rest2) = true →
  ∃ out c1 c2,
    analyzeRows o existingCustomers existingParents rows = Some out
    ∧ c1 ∈ validCustomers out ∧ c2 ∈ validCustomers out
    ∧ Customer.accountNumber c1 = k1 ∧ Customer.accountNumber c2 = k2
    ∧ Customer.id c1 = Customer.id c2
    ∧ ¬ NoDup (Customer.id <$> validCustomers out).
Proof.
  intros Hg H1 H2 Hne Hclass1 Hclass2 Hname Hpass1 Hpass2.
  pose proof (groupByAccount_groups _ _ Hg) as Hgroups.
  destruct (analyzeRows_of_groups o existingCustomers existingParents rows g Hg)
    as (out & m & n & Hout & Hfold & Hvalid).
  destruct (parent_group_accepted o existingCustomers existingParents
              rows g m n k1 first1 rest1 Hgroups Hfold H1 Hclass1 Hpass1)
    as (j1 & c1 & Hm1 & Hc1 & Hid1 & _ & Hacc1).
  destruct (parent_group_accepted o existingCustomers existingParents
              rows g m n k2 first2 rest2 Hgroups Hfold H2 Hclass2 Hpass2)
    as (j2 & c2 & Hm2 & Hc2 & Hid2 & _ & Hacc2).
  rewrite Hname, Hm2 in Hm1.
  assert (Customer.id c1 = Customer.id c2) as Hid by congruence.
  exists out, c1, c2. rewrite Hvalid.
  repeat split; try done.
  apply (fmap_not_NoDup Customer.id _ c1 c2); try done. congruence.
Qed.

(** The child row comes first and names its parent in lower case. *)
Lemma forward_reference_resolves_witness :
  ∃ out cc cp,
    analyzeRows Sample.oracle Sample.population [Sample.acme; Sample.globex]
      [Sample.child; Sample.parent] = Some out
    ∧ cc ∈ validCustomers out ∧ cp ∈ validCustomers out
    ∧ Customer.accountNumber cc = "2001" ∧ Customer.type cc = DIRECT
    ∧ Customer.accountNumber cp = "2002" ∧ Customer.type cp = PARENT
    ∧ Customer.parentId cc = ref (Customer.id cp)
    ∧ ∃ j, Customer.id cp = syntheticId Sample.oracle j.
Proof.
  apply (forward_reference_resolves Sample.oracle Sample.population
           [Sample.acme; Sample.globex] [Sample.child; Sample.parent]
           [("2001", [Sample.child]); ("2002", [Sample.parent])]
           "2001" "2002" Sample.child Sample.parent [] []).
  - reflexivity.
  - left.
  - right. left.
  - reflexivity.
  - reflexivity.
  - reflexivity.
  - reflexivity.
  - reflexivity.
Defined.

(** Two parents whose names differ in letter case only. *)
Lemma same_name_parents_share_id_witness :
  ∃ out c1 c2,
    analyzeRows Sample.oracle Sample.population [Sample.acme; Sample.globex]
      [Sample.twin1; Sample.twin2] = Some out
    ∧ c1 ∈ validCustomers out ∧ c2 ∈ validCustomers out
    ∧ Customer.accountNumber c1 = "3001" ∧ Customer.accountNumber c2 = "3002"
    ∧ Customer.id c1 = Customer.id c2
    ∧ ¬ NoDup (Customer.id <$> validCustomers out).
Proof.
  apply (same_name_parents_share_id Sample.oracle Sample.population
           [Sample.acme; Sample.globex] [Sample.twin1; Sample.twin2]
           [("3001", [Sample.twin1]); ("3002", [Sample.twin2])]
           "3001" "3002" Sample.twin1 Sample.twin2 [] []).
  - reflexivity.
  - left.
  - right. left.
  - discriminate.
  - reflexivity.
  - reflexivity.
  - reflexivity.
  - reflexivity.
  - reflexivity.
Defined.
(** C4. The batch of a DIRECT group whose row precedes the row of the
    PARENT group it names, both passing the checks, and of one more row
    whose account number is [toString]: the resolver raises while it
    groups the rows and returns no accepted list, so neither customer
    is accepted. *)
Theorem forward_reference_inherited_key :
  let rows := [Sample.child; Sample.parent; Sample.inheritedRow] in
  classify (groupOf Sample.child rows) = Some DIRECT
  ∧ classify (groupOf Sample.parent rows) = Some PARENT
  ∧ JS.toLowerCase (ImportRow.customerName Sample.parent)
    = JS.toLowerCase (ImportRow.parentCustomerName Sample.child)
  ∧ passesChecks Sample.population (ImportRow.accountNumber Sample.child)
      (groupOf Sample.child rows) = true
  ∧ passesChecks Sample.population (ImportRow.accountNumber Sample.parent)
      (groupOf Sample.parent rows) = true
  ∧ groupByAccount rows = None
  ∧ analyzeRows Sample.oracle Sample.population [Sample.acme; Sample.globex]
      rows = None
  ∧ ∃ out,
      analyzeRows Sample.oracle Sample.population [Sample.acme; Sample.globex]
        [Sample.child; Sample.parent] = Some out
      ∧ length (validCustomers out) = 2.
Proof.
  cbv zeta. repeat split; try reflexivity.
  eexists. split; [vm_compute; reflexivity | reflexivity].
Qed.

(** C6. The batch of two PARENT groups whose names differ in letter
    case only, both passing the checks, and of one more row whose
    account number is [toString]: the resolver raises while it groups
    the rows and returns no accepted list, so no id is assigned. *)
Theorem same_name_parents_inherited_key :
  let rows := [Sample.twin1; Sample.twin2; Sample.inheritedRow] in
  classify (groupOf Sample.twin1 rows) = Some PARENT
  ∧ classify (groupOf Sample.twin2 rows) = Some PARENT
  ∧ JS.toLowerCase (ImportRow.customerName Sample.twin1)
    = JS.toLowerCase (ImportRow.customerName Sample.twin2)
  ∧ passesChecks Sample.population (ImportRow.accountNumber Sample.twin1)
      (groupOf Sample.twin1 rows) = true
  ∧ passesChecks Sample.population (ImportRow.accountNumber Sample.twin2)
      (groupOf Sample.twin2 rows) = true
  ∧ groupByAccount rows = None
  ∧ analyzeRows Sample.oracle Sample.population [Sample.acme; Sample.globex]
      rows = None
  ∧ ∃ out,
      analyzeRows Sample.oracle Sample.population [Sample.acme; Sample.globex]
        [Sample.twin1; Sample.twin2] = Some out
      ∧ length (validCustomers out) = 2.
Proof.
  cbv zeta. repeat split; try reflexivity.
  eexists. split; [vm_compute; reflexivity | reflexivity].
Qed.


(** ** Reading the file *)

Lemma parseRow_rowNumber (index : nat) (line : string) (row : ImportRow.t) :
  parseRow index line = Some row → ImportRow.rowNumber row = index + 2.
Proof.
  unfold parseRow. case_bool_decide; [|done]. by intros [= <-].
Qed.

Lemma rawRowsOf_elem (dataRows : list string) (row : ImportRow.t) :
  row ∈ rawRowsOf dataRows ↔
  ∃ index line, dataRows !! index = Some line ∧ parseRow index line = Some row.
Proof.
  unfold rawRowsOf. rewrite list_elem_of_omap. split.
  - intros (x & (i & line & -> & Hi)%elem_of_lookup_imap & Hx).
    by exists i, line.
  - intros (i & line & Hi & Hrow). exists (Some row).
    split; [|done]. rewrite <- Hrow. by apply elem_of_lookup_imap_2.
Qed.

(** The rows read from a file have distinct row numbers, in increasing
    order. *)
Lemma rawRows_from (k : nat) (dataRows : list string) :
  NoDup (ImportRow.rowNumber
         <$> omap id (imap (λ i, parseRow (k + i)) dataRows))
  ∧ ∀ r, r ∈ omap id (imap (λ i, parseRow (k + i)) dataRows) →
         k + 2 ≤ ImportRow.rowNumber r.
Proof.
  revert k. induction dataRows as [|line dataRows IH]; intros k.
  - split; [constructor | by intros r ?%elem_of_nil].
  - destruct (IH (S k)) as [Hnd Hge].
    rewrite imap_cons.
    rewrite (imap_ext _ (λ i, parseRow (S k + i))); last first.
    { intros i x _. simpl. f_equal. lia. }
    rewrite Nat.add_0_r. cbn [omap list_omap].
    destruct (parseRow k line) as [row|] eqn:Hrow; cbn [id].
    + apply parseRow_rowNumber in Hrow. split.
      * rewrite fmap_cons. apply NoDup_cons. split; [|done].
        intros (r & Hr & Hin)%list_elem_of_fmap.
        specialize (Hge r Hin). lia.
      * intros r [->|Hr]%elem_of_cons; [lia|]. specialize (Hge r Hr). lia.
    + split; [done|]. intros r Hr. specialize (Hge r Hr). lia.
Qed.

Lemma rawRowsOf_NoDup (dataRows : list string) :
  NoDup (ImportRow.rowNumber <$> rawRowsOf dataRows).
Proof. apply (rawRows_from 0). Qed.

Section ErrorRows.

Variable o : Oracle.
Variable existingCustomers : list Customer.t.
Variable existingParents : list Customer.t.

Lemma verdicts_error_rows (m : gmap string string) (n : nat) (gs : Grouped)
    (e : RowError.t) :
  (∀ k rs, (k, rs) ∈ gs →
     rs ≠ [] ∧ ∀ r, r ∈ rs → ImportRow.accountNumber r = k) →
  e ∈ rejectedOf (verdicts o existingCustomers m n gs) →
  ∃ k rs r, (k, rs) ∈ gs ∧ r ∈ rs
            ∧ RowError.rowNumber e = ImportRow.rowNumber r.
Proof.
  revert n. induction gs as [|[k rs] gs IH]; intros n Hgs; simpl.
  - by intros ?%elem_of_nil.
  - destruct (Hgs k rs) as [Hne Hacc]; [left|].
    pose proof (analyzeGroup_rowNumbers o existingCustomers m n k rs) as Hv.
    destruct (analyzeGroup o existingCustomers m n k rs) as [v n1].
    simpl in Hv. rewrite rejectedOf_cons.
    intros [He|He]%elem_of_app.
    + destruct v as [es|c]; [|by apply elem_of_nil in He].
      destruct (Hv es e Hne Hacc eq_refl He) as (r & Hr & Heq).
      exists k, rs, r. split; [left | done].
    + destruct (IH n1) as (k' & rs' & r & Hin & Hr & Heq); [|done|].
      { intros k' rs' Hin. apply Hgs. by right. }
      exists k', rs', r. split; [by right | done].
Qed.

(** Every rejection entry carries the row number of a row of the
    batch. *)
Lemma analyzeRows_error_rows (rows : list ImportRow.t) (out : ProcessedBatch)
    (e : RowError.t) :
  analyzeRows o existingCustomers existingParents rows = Some out →
  e ∈ errors out →
  ∃ r, r ∈ rows ∧ RowError.rowNumber e = ImportRow.rowNumber r.
Proof.
  intros Hout He.
  destruct (analyzeRows_verdicts _ _ _ _ _ Hout)
    as (g & m & n & Hg & _ & _ & Herrors).
  destruct (groupByAccount_groups _ _ Hg) as (_ & _ & Hrows).
  rewrite Herrors, stableSort_perm in He.
  apply verdicts_error_rows in He as (k & rs & r & Hin & Hr & Heq).
  - exists r. split; [|done].
    apply (proj1 (ownKeys_elem _ _)) in Hin.
    destruct (Hrows k rs Hin) as [_ Hrs]. rewrite Hrs in Hr.
    apply list_elem_of_In, filter_In in Hr as [Hr _].
    by apply list_elem_of_In.
  - intros k rs Hin. apply (proj1 (ownKeys_elem _ _)) in Hin.
    destruct (Hrows k rs Hin) as [Hne Hrs]. split; [done|].
    intros r Hr. rewrite Hrs in Hr.
    apply list_elem_of_In, filter_In in Hr as [_ Hacc].
    by apply eqb_true in Hacc.
Qed.

End ErrorRows.

(** C9. A data line that parses to fewer than 7 columns is dropped: no
    row with its row number reaches the resolver, so no rejection entry
    carries it. A line with at least 7 columns is kept under its row
    number; its contact phone is column 8, or the empty string when the
    column is missing; its primary flag is set exactly when column 9 is
    there and is [true] or [yes] in any letter case, or [1]. *)
Theorem parseRow_columns (dataRows : list string) (index : nat) (line : string) :
  dataRows !! index = Some line →
  let cols := parseCSVLine line in
  (length cols < 7 →
   (index + 2 ∉ (ImportRow.rowNumber <$> rawRowsOf dataRows))
   ∧ ∀ o existingCustomers existingParents out,
       analyzeRows o existingCustomers existingParents (rawRowsOf dataRows)
       = Some out →
       index + 2 ∉ (RowError.rowNumber <$> errors out))
  ∧ (7 ≤ length cols →
     ∃ row, row ∈ rawRowsOf dataRows
            ∧ ImportRow.rowNumber row = index + 2
            ∧ ImportRow.contactPhone row = default "" (cols !! 7)
            ∧ (ImportRow.isPrimary row = true ↔
               ∃ v, cols !! 8 = Some v
                    ∧ (JS.toLowerCase v = "true" ∨ JS.toLowerCase v = "yes"
                       ∨ v = "1"))).
Proof.
  intros Hline cols. split.
  - intros Hshort.
    assert (index + 2 ∉ (ImportRow.rowNumber <$> rawRowsOf dataRows)) as Hnone.
    { intros (row & Hnum & Hrow)%list_elem_of_fmap.
      apply rawRowsOf_elem in Hrow as (i & line' & Hi & Hrow).
      pose proof (parseRow_rowNumber _ _ _ Hrow) as Hi2.
      assert (i = index) as -> by lia.
      assert (line' = line) as -> by congruence.
      unfold parseRow in Hrow. fold cols in Hrow.
      rewrite bool_decide_eq_false_2 in Hrow by lia. done. }
    split; [done|]. intros o ex pa out Hout (e & He & Hin)%list_elem_of_fmap.
    destruct (analyzeRows_error_rows o ex pa _ _ _ Hout Hin) as (r & Hr & Heq).
    apply Hnone. rewrite He, Heq. by apply list_elem_of_fmap_2.
  - intros Hfull.
    destruct (parseRow index line) as [row|] eqn:Hrow; last first.
    { unfold parseRow in Hrow. fold cols in Hrow.
      by rewrite bool_decide_eq_true_2 in Hrow. }
    exists row. split; [apply (proj2 (rawRowsOf_elem _ _)); by exists index, line|].
    split; [by apply (parseRow_rowNumber index line)|].
    unfold parseRow in Hrow. fold cols in Hrow.
    rewrite bool_decide_eq_true_2 in Hrow by done. injection Hrow as <-.
    simpl. split.
    + destruct (cols !! 7) as [v|]; [|done]. simpl.
      destruct (JS.truthy v) eqn:Hv; [done|]. by apply truthy_false in Hv.
    + unfold primaryFlag. destruct (cols !! 8) as [v|].
      * rewrite !orb_true_iff, !eqb_true. split.
        -- intros H. exists v. tauto.
        -- intros (w & [= <-] & H). tauto.
      * split; [done | by intros (? & ? & _)].
Qed.

(** The three data lines of the sample file. *)
Lemma parseRow_columns_witness :
  (* the full row *)
  (∃ row, row ∈ rawRowsOf Sample.dataRows
          ∧ ImportRow.rowNumber row = 2
          ∧ ImportRow.contactPhone row = "555-0100"
          ∧ ImportRow.isPrimary row = true)
  (* the row without the optional columns *)
  ∧ (∃ row, row ∈ rawRowsOf Sample.dataRows
            ∧ ImportRow.rowNumber row = 3
            ∧ ImportRow.contactPhone row = ""
            ∧ ImportRow.isPrimary row ≠ true)
  (* the short row *)
  ∧ (4 ∉ (ImportRow.rowNumber <$> rawRowsOf Sample.dataRows)).
Proof.
  split; [|split].
  - destruct (parseRow_columns Sample.dataRows 0 _ eq_refl) as [_ Hkept].
    destruct Hkept as (row & Hrow & Hnum & Hphone & Hprimary);
      [vm_compute; lia|].
    exists row. split; [done|]. split; [done|]. split; [done|].
    apply Hprimary. eexists. split; [reflexivity|]. right. left. reflexivity.
  - destruct (parseRow_columns Sample.dataRows 1 _ eq_refl) as [_ Hkept].
    destruct Hkept as (row & Hrow & Hnum & Hphone & Hprimary);
      [vm_compute; lia|].
    exists row. split; [done|]. split; [done|]. split; [done|].
    intros (v & Hv & _)%Hprimary. vm_compute in Hv. discriminate.
  - destruct (parseRow_columns Sample.dataRows 2 _ eq_refl) as [Hdrop _].
    apply Hdrop. vm_compute. lia.
Defined.

(** ** The embedding on concrete inputs *)

Example trim_strips_white_space :
  JS.trim (String (ascii_of_nat 9) "  Acme HQ " +:+ String (ascii_of_nat 13) "")
  = "Acme HQ".
Proof. reflexivity. Qed.

Example parseCSVLine_quoted_comma :
  parseCSVLine
    (String quoteChar "Branch, Inc" +:+ String quoteChar ", 2001 ,,")
  = ["Branch, Inc"; "2001"; ""; ""].
Proof. reflexivity. Qed.

Example ownKeys_indices_first :
  fst <$> ownKeys [("b", []); ("10", []); ("9", []); ("07", []); ("a", [])]
  = ["9"; "10"; "b"; "07"; "a"].
Proof. vm_compute. reflexivity. Qed.

Example analyzeRows_inherited_key :
  analyzeRows Sample.oracle [] []
    [Sample.row 2 "Acme HQ" "constructor" "" "Al" "al@acme.test" true]
  = None.
Proof. reflexivity. Qed.

Example analyzeRows_forward_reference :
  (λ out, (λ c, (Customer.accountNumber c, Customer.id c, Customer.parentId c))
            <$> validCustomers out)
  <$> analyzeRows Sample.oracle [] [] [Sample.child; Sample.parent]
  = Some [ ("2001", "cust_import_1700000000001_r1",
            ref "cust_import_1700000000000_r0");
           ("2002", "cust_import_1700000000000_r0", undefined) ].
Proof. vm_compute. reflexivity. Qed.

(** * Further properties *)

(** ** Relinking in [updateCustomer] *)

(** X1. After an update with a PARENT candidate the children of the
    updated id are exactly the customers named in [childIdsToLink]: a
    record of the result names the id as its parent if and only if its
    own id is in the list, and then its type is DIRECT. A record that is
    neither the target, nor named in the list, nor a former child stays
    in place unchanged. *)
Theorem updateCustomer_children
    (pop : list Customer.t) (id : string) (data : FormData.t)
    (childIdsToLink : list string) :
  FormData.type data = PARENT →
  (∀ c, c ∈ updateCustomer id data childIdsToLink pop →
        (Customer.parentId c = ref id ↔ Customer.id c ∈ childIdsToLink)
        ∧ (Customer.parentId c = ref id → Customer.type c = DIRECT))
  ∧ ∀ (i : nat) (c : Customer.t),
      pop !! i = Some c → Customer.id c ≠ id →
      Customer.id c ∉ childIdsToLink → Customer.parentId c ≠ ref id →
      updateCustomer id data childIdsToLink pop !! i = Some c.
Proof.
  intros Hty. rewrite updateCustomer_map. split.
  - intros c' (c & -> & Hc)%list_elem_of_fmap.
    rewrite updateOne_id. unfold updateOne, assign, unassign.
    rewrite Hty. simpl. rewrite list_elem_of_In, <- includes_In.
    set (c0 := if String.eqb (Customer.id c) id then mergeForm c data else c).
    assert (Customer.id c0 = Customer.id c) as Hid0
      by (unfold c0; by case_match).
    rewrite <- Hid0.
    destruct (JS.includes childIdsToLink (Customer.id c0)) eqn:Hk.
    + destruct (refers (Customer.parentId c0) id); simpl; rewrite Hk; simpl;
        by split.
    + rewrite andb_true_r.
      destruct (refers (Customer.parentId c0) id) eqn:Hr; simpl; rewrite Hk.
      * simpl. split; [by split | done].
      * split; [|by intros ?%refers_ref; congruence].
        split; [by intros ?%refers_ref; congruence | done].
  - intros i c Hi Hne Hk Hpar. rewrite list_lookup_fmap, Hi. simpl. f_equal.
    unfold updateOne, assign, unassign. rewrite Hty. simpl.
    apply eqb_false in Hne. rewrite Hne.
    assert (JS.includes childIdsToLink (Customer.id c) = false) as ->.
    { apply not_true_is_false. intros Hin%includes_In. apply Hk.
      by apply list_elem_of_In. }
    assert (refers (Customer.parentId c) id = false) as ->.
    { apply not_true_is_false. by intros ?%refers_ref. }
    simpl. assert (JS.includes childIdsToLink (Customer.id c) = false) as ->;
      [|done].
    apply not_true_is_false. intros Hin%includes_In. apply Hk.
    by apply list_elem_of_In.
Qed.

(** The children of [acme] are replaced: [globex] in, [branch] out. *)
Lemma updateCustomer_children_witness :
  let data := Sample.form PARENT "Acme HQ" "1001" None in
  updateCustomer "c1" data ["c3"] Sample.population
  = [ mergeForm Sample.acme data;
      Customer.relink Sample.branch null PARENT;
      Customer.relink Sample.globex (ref "c1") DIRECT ]
  ∧ ∀ c, c ∈ updateCustomer "c1" data ["c3"] Sample.population →
         (Customer.parentId c = ref "c1" ↔ Customer.id c ∈ ["c3"]).
Proof.
  cbv zeta. split; [reflexivity|]. intros c Hc.
  by apply (updateCustomer_children Sample.population "c1"
              (Sample.form PARENT "Acme HQ" "1001" None) ["c3"] eq_refl).
Defined.

(** ** Ids and account numbers through the engine *)

Lemma fmap_fmap_same {A B} (f : A → B) (g : A → A) (l : list A) :
  (∀ x, f (g x) = f x) → f <$> (g <$> l) = f <$> l.
Proof.
  intros Hfg. induction l as [|x l IH]; [done|].
  rewrite !fmap_cons, Hfg. by f_equal.
Qed.

Lemma updateOne_createdAt id data kids c :
  Customer.createdAt (updateOne id data kids c) = Customer.createdAt c.
Proof.
  unfold updateOne, assign, unassign.
  destruct (isParentType _); repeat case_match; done.
Qed.

(** X2. [updateCustomer] neither adds nor removes a record and changes
    no id and no creation time, whatever its arguments. *)
Theorem updateCustomer_keeps_identity
    (pop : list Customer.t) (id : string) (data : FormData.t)
    (childIdsToLink : list string) :
  let pop' := updateCustomer id data childIdsToLink pop in
  length pop' = length pop
  ∧ Customer.id <$> pop' = Customer.id <$> pop
  ∧ Customer.createdAt <$> pop' = Customer.createdAt <$> pop.
Proof.
  cbv zeta. rewrite updateCustomer_map. split; [apply length_map|].
  split; apply fmap_fmap_same; intros c;
    [apply updateOne_id | apply updateOne_createdAt].
Qed.

Lemma addCustomer_ids (now : N) (iso : string) (data : FormData.t)
    (kids : list string) (prev : list Customer.t) :
  Customer.id <$> addCustomer now iso data kids prev
  = (Customer.id <$> prev) ++ ["cust_" +:+ pretty now].
Proof.
  unfold addCustomer. case_match.
  - rewrite (fmap_fmap_same Customer.id); [by rewrite fmap_app|].
    intros c. by case_match.
  - by rewrite fmap_app.
Qed.

Lemma addCustomer_accountNumbers (now : N) (iso : string) (data : FormData.t)
    (kids : list string) (prev : list Customer.t) :
  Customer.accountNumber <$> addCustomer now iso data kids prev
  = (Customer.accountNumber <$> prev) ++ [FormData.accountNumber data].
Proof.
  unfold addCustomer. case_match.
  - rewrite (fmap_fmap_same Customer.accountNumber); [by rewrite fmap_app|].
    intros c. by case_match.
  - by rewrite fmap_app.
Qed.

(** X3. [addCustomer] does not look at the ids it already holds: from a
    population with distinct ids, the ids stay distinct exactly when no
    record carries the id made from the clock value. *)
Theorem addCustomer_ids_distinct
    (now : N) (iso : string) (data : FormData.t)
    (childIdsToLink : list string) (prev : list Customer.t) :
  NoDup (Customer.id <$> prev) →
  NoDup (Customer.id <$> addCustomer now iso data childIdsToLink prev)
  ↔ "cust_" +:+ pretty now ∉ (Customer.id <$> prev).
Proof.
  intros Hnd. rewrite addCustomer_ids, NoDup_app. split.
  - intros (_ & Hdisj & _) Hin. apply (Hdisj _ Hin). left.
  - intros Hfresh. split; [done|]. split; [|apply NoDup_singleton].
    by intros x Hx ->%list_elem_of_singleton.
Qed.

Lemma addCustomer_ids_distinct_witness :
  NoDup (Customer.id <$> Sample.population)
  ∧ NoDup (Customer.id
           <$> addCustomer 1700000000000 "2024-01-01T00:00:00.000Z"
                 (Sample.form PARENT "Initech" "1004" None) []
                 Sample.population).
Proof.
  assert (NoDup (Customer.id <$> Sample.population)) as Hnd
    by (refine (bool_decide_unpack _ _); vm_compute; exact I).
  split; [exact Hnd|].
  apply (addCustomer_ids_distinct _ _ _ _ _ Hnd).
  refine (bool_decide_unpack _ _). vm_compute. exact I.
Defined.

(** What an empty result of [validateCustomer] says about the account
    number and the parent of the candidate. *)
Lemma validateCustomer_nil (customers : list Customer.t) (data : FormData.t)
    (existingId : option string) :
  validateCustomer customers data existingId = [] →
  ∀ k, holds customers data existingId k.
Proof.
  unfold validateCustomer. intros Hnil%fmap_nil_inv.
  destruct (violations_by_check customers data existingId)
    as (piece & Heq & Hpiece).
  rewrite Heq, !app_nil in Hnil.
  destruct Hnil as (H1 & H2 & H3 & H4 & H5 & H6).
  intros []; by apply Hpiece.
Qed.

(** X4. Creating a validated candidate keeps the account numbers of the
    population distinct. *)
Theorem addCustomer_validated_unique
    (now : N) (iso : string) (data : FormData.t)
    (childIdsToLink : list string) (prev : list Customer.t) :
  NoDup (Customer.accountNumber <$> prev) →
  validateCustomer prev data None = [] →
  NoDup (Customer.accountNumber
         <$> addCustomer now iso data childIdsToLink prev).
Proof.
  intros Hnd Hvalid. rewrite addCustomer_accountNumbers.
  pose proof (validateCustomer_nil _ _ _ Hvalid RuleUnique) as Hunique.
  simpl in Hunique. apply NoDup_app. split; [done|].
  split; [|apply NoDup_singleton].
  intros a (c & -> & Hc)%list_elem_of_fmap Heq%list_elem_of_singleton.
  by apply (Hunique c Hc).
Qed.

Lemma addCustomer_validated_unique_witness :
  NoDup (Customer.accountNumber
         <$> addCustomer 1700000000000 "2024-01-01T00:00:00.000Z"
               (Sample.form PARENT "Initech" "1004" None) ["c3"]
               Sample.population).
Proof.
  apply addCustomer_validated_unique; [|reflexivity].
  refine (bool_decide_unpack _ _). vm_compute. exact I.
Defined.

(** X5. Updating with a candidate validated against the updated id keeps
    the account numbers distinct, in a population with distinct ids. *)
Theorem updateCustomer_validated_unique
    (id : string) (data : FormData.t) (childIdsToLink : list string)
    (prev : list Customer.t) :
  NoDup (Customer.id <$> prev) →
  NoDup (Customer.accountNumber <$> prev) →
  validateCustomer prev data (Some id) = [] →
  NoDup (Customer.accountNumber
         <$> updateCustomer id data childIdsToLink prev).
Proof.
  intros Hids Haccs Hvalid.
  pose proof (validateCustomer_nil _ _ _ Hvalid RuleUnique) as Hunique.
  simpl in Hunique.
  assert (∀ c, Customer.accountNumber (updateOne id data childIdsToLink c)
               = if String.eqb (Customer.id c) id
                 then FormData.accountNumber data
                 else Customer.accountNumber c) as Hacc.
  { intros c. unfold updateOne, assign, unassign.
    destruct (String.eqb (Customer.id c) id), (isParentType _);
      repeat case_match; done. }
  rewrite updateCustomer_map, <- list_fmap_compose.
  apply NoDup_fmap_2_strong; [|by apply NoDup_fmap_1 in Hids].
  intros x y Hx Hy. simpl. rewrite !Hacc.
  destruct (String.eqb (Customer.id x) id) eqn:Hx_id,
           (String.eqb (Customer.id y) id) eqn:Hy_id; intros Heq.
  - apply eqb_true in Hx_id, Hy_id.
    apply (NoDup_fmap_eq Customer.id prev); [done..|congruence].
  - apply eqb_false in Hy_id. destruct (Hunique y Hy); congruence.
  - apply eqb_false in Hx_id. destruct (Hunique x Hx); congruence.
  - by apply (NoDup_fmap_eq Customer.accountNumber prev).
Qed.

Lemma updateCustomer_validated_unique_witness :
  NoDup (Customer.accountNumber
         <$> updateCustomer "c3" (Sample.form PARENT "Globex" "1009" None)
               ["c2"] Sample.population).
Proof.
  apply updateCustomer_validated_unique; [| |reflexivity];
    refine (bool_decide_unpack _ _); vm_compute; exact I.
Defined.

(** X6. The account number of a stored customer is free for that
    customer and taken for everybody else: with distinct account numbers,
    [checkAccountNumberUnique] accepts it when the customer's own id is
    excluded and refuses it when no id is. *)
Theorem checkAccountNumberUnique_own
    (customers : list Customer.t) (c : Customer.t) :
  NoDup (Customer.accountNumber <$> customers) → c ∈ customers →
  checkAccountNumberUnique customers (Customer.accountNumber c)
    (Some (Customer.id c)) = true
  ∧ checkAccountNumberUnique customers (Customer.accountNumber c) None
    = false.
Proof.
  intros Hnd Hc. split.
  - apply uniquePiece_spec. intros d Hd Hid Hacc. apply Hid. f_equal.
    f_equal. by apply (NoDup_fmap_eq Customer.accountNumber customers).
  - apply not_true_is_false. intros Huniq.
    by apply (proj1 (uniquePiece_spec _ _ _) Huniq c).
Qed.

Lemma checkAccountNumberUnique_own_witness :
  checkAccountNumberUnique Sample.population "1002" (Some "c2") = true
  ∧ checkAccountNumberUnique Sample.population "1002" None = false.
Proof.
  apply (checkAccountNumberUnique_own Sample.population Sample.branch).
  - refine (bool_decide_unpack _ _). vm_compute. exact I.
  - right. left.
Defined.

(** ** Types and parents through the engine *)

Lemma typeConsistent_spec (pop : list Customer.t) :
  typeConsistent pop = true ↔
  ∀ c, c ∈ pop → Customer.type c = PARENT →
       hasParent (Customer.parentId c) = false.
Proof.
  unfold typeConsistent, isParentType. rewrite forallb_forall. split.
  - intros H c Hc Hty. specialize (H c (proj1 (list_elem_of_In _ _) Hc)).
    rewrite Hty in H. simpl in H. by apply negb_true_iff in H.
  - intros H c Hc. apply negb_true_iff.
    case_bool_decide as Hty; [|done]. simpl.
    apply H; [by apply list_elem_of_In | done].
Qed.

(** X7. From a population in which no record of type PARENT has a
    parent, [addCustomer] and [deleteCustomer] give such a population
    for all arguments, and [updateCustomer] does for a candidate that
    passed [validateCustomer]. [batchAddCustomers] stores the batch as
    given: its result is such a population exactly when the batch is
    one, so a batch with a record of type PARENT that has a parent
    breaks it. *)
Theorem engine_keeps_type_consistent
    (pop : list Customer.t) (now : N) (iso id : string) (data : FormData.t)
    (childIdsToLink : list string) (newCustomers : list Customer.t) :
  typeConsistent pop = true →
  typeConsistent (addCustomer now iso data childIdsToLink pop) = true
  ∧ typeConsistent (deleteCustomer id pop) = true
  ∧ (validateCustomer pop data (Some id) = [] →
     typeConsistent (updateCustomer id data childIdsToLink pop) = true)
  ∧ typeConsistent (batchAddCustomers newCustomers pop)
    = typeConsistent newCustomers.
Proof.
  intros Hpop. split; [|split; [|split]].
  4: { unfold batchAddCustomers, typeConsistent in *.
       by rewrite forallb_app, Hpop. }
  all: revert Hpop; rewrite !typeConsistent_spec; intros Hok.
  - unfold addCustomer.
    set (new := Customer.mk _ _ _ _ _ _ _ _ _).
    assert (∀ c, c ∈ pop ++ [new] → Customer.type c = PARENT →
                 hasParent (Customer.parentId c) = false) as Hnew.
    { intros c [Hc|Hc%list_elem_of_singleton]%elem_of_app; [by apply Hok|].
      subst c. simpl. intros ->. by rewrite bool_decide_eq_false_2. }
    case_match; [|done].
    intros c' (c & -> & Hc)%list_elem_of_fmap. case_match; [done|].
    by apply Hnew.
  - intros c' Hc'. unfold deleteCustomer in Hc'.
    destruct (List.find _ pop) as [t|]; [|by apply Hok].
    destruct (isParentType (Customer.type t)).
    + apply list_elem_of_In, filter_In in Hc' as [Hc' _].
      apply in_map_iff in Hc' as (c & <- & Hc).
      case_match; [done|]. by apply Hok, list_elem_of_In.
    + apply list_elem_of_In, filter_In in Hc' as [Hc' _].
      by apply Hok, list_elem_of_In.
  - intros Hvalid.
    pose proof (validateCustomer_nil _ _ _ Hvalid RuleHierarchy) as Hh.
    simpl in Hh. rewrite updateCustomer_map.
    intros c' (c & -> & Hc)%list_elem_of_fmap.
    unfold updateOne, assign, unassign.
    assert (FormData.type data = PARENT →
            hasParent (FormData.parentRef data) = false) as Hdata.
    { intros Hty. unfold FormData.parentRef.
      destruct (FormData.parentId data) as [i|] eqn:Hp; [|done]. simpl.
      apply not_true_is_false. intros Hi%truthy_true. apply Hh.
      split; [done|]. by exists i. }
    specialize (Hok c Hc).
    destruct (String.eqb (Customer.id c) id), (isParentType _);
      repeat case_match; simpl; try done.
Qed.

Lemma engine_keeps_type_consistent_witness :
  let data := Sample.form PARENT "Globex" "1003" None in
  let stray := Sample.customer "c9" PARENT "Stray" "1009" (ref "c1") in
  typeConsistent
    (addCustomer 1700000000000 "2024-01-01T00:00:00.000Z" data ["c2"]
       Sample.population) = true
  ∧ typeConsistent (deleteCustomer "c1" Sample.population) = true
  ∧ typeConsistent (updateCustomer "c3" data ["c2"] Sample.population) = true
  ∧ typeConsistent (batchAddCustomers [stray] Sample.population) = false.
Proof.
  cbv zeta.
  destruct (engine_keeps_type_consistent Sample.population 1700000000000
              "2024-01-01T00:00:00.000Z" "c3"
              (Sample.form PARENT "Globex" "1003" None) ["c2"]
              [Sample.customer "c9" PARENT "Stray" "1009" (ref "c1")] eq_refl)
    as (Hadd & _ & Hupd & Hbatch).
  split; [exact Hadd|]. split; [|split; [by apply Hupd | by rewrite Hbatch]].
  by destruct (engine_keeps_type_consistent Sample.population 1700000000000
                 "2024-01-01T00:00:00.000Z" "c1"
                 (Sample.form PARENT "Globex" "1003" None) ["c2"] [] eq_refl)
    as (_ & Hdel & _).
Defined.

(** ** Deleting *)

Lemma filter_filter_same {A} (p : A → bool) (l : list A) :
  List.filter p (List.filter p l) = List.filter p l.
Proof.
  apply filter_all. by intros x [_ Hx]%list_elem_of_In%filter_In.
Qed.

(** X8. [deleteCustomer] removes every record that carries the id and no
    other, whatever the type of the target: the ids left are the old ids
    without the deleted one, in order. Deleting the same id again changes
    nothing. *)
Theorem deleteCustomer_ids (pop : list Customer.t) (id : string) :
  Customer.id <$> deleteCustomer id pop
  = List.filter (λ i, negb (String.eqb i id)) (Customer.id <$> pop)
  ∧ deleteCustomer id (deleteCustomer id pop) = deleteCustomer id pop.
Proof.
  assert (∀ l : list Customer.t,
            Customer.id <$> List.filter (λ c, negb (String.eqb (Customer.id c) id)) l
            = List.filter (λ i, negb (String.eqb i id)) (Customer.id <$> l))
    as Hfilter.
  { induction l as [|c l IH]; [done|]. simpl.
    destruct (negb (String.eqb (Customer.id c) id)); simpl;
      [f_equal|]; apply IH. }
  assert (Customer.id <$> deleteCustomer id pop
          = List.filter (λ i, negb (String.eqb i id)) (Customer.id <$> pop))
    as Hids.
  { unfold deleteCustomer.
    destruct (List.find _ pop) as [t|] eqn:Hfind.
    - destruct (isParentType (Customer.type t)); rewrite Hfilter; [|done].
      f_equal. apply (fmap_fmap_same Customer.id). intros c. by case_match.
    - rewrite <- Hfilter. f_equal. symmetry. apply filter_all.
      intros c Hc. apply negb_true_iff.
      by apply (find_none _ _ Hfind), list_elem_of_In. }
  split; [exact Hids|].
  unfold deleteCustomer at 1. rewrite find_id_None; [done|].
  rewrite Hids. intros [_ Hid]%list_elem_of_In%filter_In.
  by rewrite String.eqb_refl in Hid.
Qed.

(** ** The accepted customers of the resolver *)

Lemma names_of_small_set (l : list string) (a : string) :
  a ∈ l → ¬ 1 < size (list_to_set l : gset string) → ∀ x, x ∈ l → x = a.
Proof.
  intros Ha Hsize x Hx.
  destruct (decide (x = a)) as [|Hne]; [done|]. destruct Hsize.
  assert (({[x]} ∪ {[a]} : gset string) ⊆ list_to_set l) as Hsub.
  { intros y [->%elem_of_singleton| ->%elem_of_singleton]%elem_of_union;
      by apply elem_of_list_to_set. }
  apply subseteq_size in Hsub.
  rewrite size_union, !size_singleton in Hsub; [lia|].
  intros y ->%elem_of_singleton ?%elem_of_singleton. done.
Qed.

Section Accepted.

Variable o : Oracle.
Variable existingCustomers : list Customer.t.

(** What the second pass has checked when it accepts a group. *)
Lemma analyzeGroup_accept (m : gmap string string) (n : nat) (k : string)
    (firstRow : ImportRow.t) (rest : list ImportRow.t) (c : Customer.t) :
  (analyzeGroup o existingCustomers m n k (firstRow :: rest)).1 = Accept c →
  passesChecks existingCustomers k (firstRow :: rest) = true
  ∧ ∃ cs, (buildCustomer o m n (firstRow :: rest) firstRow cs).1 = Accept c
          ∧ exactlyOne Contact.isPrimary cs
          ∧ Forall (λ x, JS.truthy (Contact.name x) = true
                         ∧ JS.truthy (Contact.email x) = true) cs.
Proof.
  unfold analyzeGroup, passesChecks. set (g := firstRow :: rest).
  destruct (JS.truthy (ImportRow.customerName firstRow)) eqn:Hname; [|done].
  change (negb true) with false. cbv iota.
  case_bool_decide as Hsize; [done|].
  destruct (existsb _ existingCustomers) eqn:Hdup; [done|].
  set (contacts := imap (contactOfRow k) g).
  set (valid := λ x, JS.truthy (Contact.name x) && JS.truthy (Contact.email x)).
  case_bool_decide as Hlen; [|done].
  change (negb true) with false. cbv iota.
  apply filter_length_eq in Hlen. fold valid in Hlen. rewrite Hlen.
  assert (Forall (λ x, JS.truthy (Contact.name x) = true
                       ∧ JS.truthy (Contact.email x) = true) contacts)
    as Hvalid.
  { apply Forall_forall. intros x Hx. rewrite <- Hlen in Hx.
    apply list_elem_of_In, filter_In in Hx as [_ Hx].
    by apply andb_true_iff in Hx. }
  assert (forallb (λ r, String.eqb (ImportRow.customerName r)
                          (ImportRow.customerName firstRow)) g = true)
    as Hnames.
  { apply forallb_forall. intros r Hr. apply eqb_true.
    apply (names_of_small_set (ImportRow.customerName <$> g));
      [by left | done |].
    by apply list_elem_of_fmap_2, list_elem_of_In. }
  assert (forallb (λ r, negb (lacksContact r)) g = true) as Hrows.
  { apply forallb_forall. intros r Hr%list_elem_of_In.
    apply list_elem_of_lookup_1 in Hr as [i Hi].
    assert (contactOfRow k i r ∈ contacts) as Hc
      by by apply elem_of_lookup_imap_2.
    rewrite Forall_forall in Hvalid. destruct (Hvalid _ Hc) as [Hn He].
    unfold lacksContact. simpl in Hn, He. by rewrite Hn, He. }
  rewrite Hnames, Hrows.
  assert (length contacts = length g) as Hclen by apply length_imap.
  assert (length (List.filter Contact.isPrimary contacts)
          = length (List.filter ImportRow.isPrimary g)) as Hprim
    by by apply filter_imap_length.
  clearbody contacts g. simpl.
  case_bool_decide as Hone.
  - intros Hc. rewrite <- Hclen, Hone. split; [done|].
    exists (markFirstPrimary contacts). split; [done|].
    destruct contacts as [|x [|y ?]]; try done. simpl. split.
    + apply exactlyOne_filter. done.
    + apply Forall_cons in Hvalid as [Hx _]. constructor; [done|constructor].
  - case_bool_decide as Hmany; [|done].
    case_bool_decide as Hzero; [done|].
    case_bool_decide as Htwo; [done|].
    intros Hc. split.
    + apply orb_true_iff. right. apply Nat.eqb_eq. lia.
    + exists contacts. split; [done|]. split; [|done].
      apply exactlyOne_filter. lia.
Qed.

(** Every accepted customer comes from a group of the batch. *)
Lemma accepted_origin (m : gmap string string) (n : nat) (gs : Grouped)
    (c : Customer.t) :
  c ∈ acceptedOf (verdicts o existingCustomers m n gs) →
  ∃ k rs n', (k, rs) ∈ gs
             ∧ (analyzeGroup o existingCustomers m n' k rs).1 = Accept c.
Proof.
  revert n. induction gs as [|[k rs] gs IH]; intros n; simpl.
  - by intros ?%elem_of_nil.
  - destruct (analyzeGroup o existingCustomers m n k rs) as [v n1] eqn:Hv.
    rewrite acceptedOf_cons. intros [Hc|Hc]%elem_of_app.
    + destruct v as [es|c']; [by apply elem_of_nil in Hc|].
      apply list_elem_of_singleton in Hc as ->.
      exists k, rs, n. split; [left | by rewrite Hv].
    + destruct (IH n1 Hc) as (k' & rs' & n' & Hin & Hacc).
      exists k', rs', n'. split; [by right | done].
Qed.

End Accepted.

Section AcceptedCustomers.

Variable o : Oracle.
Variable existingCustomers : list Customer.t.
Variable existingParents : list Customer.t.

(** The customer [buildCustomer] makes, field by field. *)
Lemma buildCustomer_accept (m : gmap string string) (n : nat)
    (g : list ImportRow.t) (firstRow : ImportRow.t) (cs : list Contact.t)
    (c : Customer.t) :
  (buildCustomer o m n g firstRow cs).1 = Accept c →
  Customer.contacts c = cs
  ∧ Customer.accountNumber c = ImportRow.accountNumber firstRow
  ∧ Customer.name c = ImportRow.customerName firstRow
  ∧ JS.truthy (Customer.id c) = true
  ∧ (∃ a, Customer.addresses c = [a]
          ∧ Address.isPrimary a = true ∧ Address.isBilling a = true)
  ∧ ((Customer.type c = PARENT ∧ Customer.parentId c = undefined
      ∧ JS.truthy (ImportRow.parentCustomerName firstRow) = false)
     ∨ (Customer.type c = DIRECT
        ∧ ∃ i, Customer.parentId c = ref i ∧ JS.truthy i = true
               ∧ m !! JS.toLowerCase (ImportRow.parentCustomerName firstRow)
                 = Some i)).
Proof.
  unfold buildCustomer.
  destruct (JS.truthy (ImportRow.parentCustomerName firstRow)) eqn:Hp; simpl.
  - destruct (m !! JS.toLowerCase (ImportRow.parentCustomerName firstRow))
      as [i|] eqn:Hm; simpl; [|done].
    destruct (JS.truthy i) eqn:Hi; simpl; [|done].
    intros [= <-]. simpl. repeat split; try done; [by eexists|].
    right. split; [done|]. by exists i.
  - destruct (m !! JS.toLowerCase (ImportRow.customerName firstRow))
      as [i|] eqn:Hm; simpl.
    + destruct (JS.truthy i) eqn:Hi; simpl; intros [= <-]; simpl;
        repeat split; try done; try (by eexists); by left.
    + intros [= <-]. simpl. repeat split; try done; [by eexists | by left].
Qed.

Lemma ownKeys_groups (rows : list ImportRow.t) (g : Grouped) :
  groupByAccount rows = Some g →
  NoDup (fst <$> ownKeys g)
  ∧ ∀ k rs, (k, rs) ∈ ownKeys g →
      (k, rs) ∈ g
      ∧ (∃ firstRow rest, rs = firstRow :: rest
                          ∧ ImportRow.accountNumber firstRow = k)
      ∧ ∀ r, r ∈ rs → r ∈ rows ∧ ImportRow.accountNumber r = k.
Proof.
  intros Hg. pose proof (groupByAccount_groups _ _ Hg) as Hgroups.
  destruct Hgroups as (Hnd & Hkeys & Hrows).
  split; [by apply ownKeys_NoDup|]. intros k rs Hin.
  apply (proj1 (ownKeys_elem _ _)) in Hin. split; [done|].
  destruct (Hrows k rs Hin) as [Hne Hrs].
  assert (∀ r, r ∈ rs → r ∈ rows ∧ ImportRow.accountNumber r = k) as Hall.
  { intros r Hr. rewrite Hrs in Hr.
    apply list_elem_of_In, filter_In in Hr as [Hr Hacc].
    split; [by apply list_elem_of_In | by apply eqb_true]. }
  split; [|done]. destruct rs as [|firstRow rest]; [done|].
  exists firstRow, rest. split; [done|]. apply Hall. left.
Qed.

(** Every accepted customer is the customer of a group that passed the
    checks, built from the first row of the group. *)
Lemma accepted_customer (rows : list ImportRow.t) (out : ProcessedBatch)
    (c : Customer.t) :
  analyzeRows o existingCustomers existingParents rows = Some out →
  c ∈ validCustomers out →
  ∃ g m n k firstRow rest cs,
    groupByAccount rows = Some g
    ∧ (k, firstRow :: rest) ∈ g
    ∧ ImportRow.accountNumber firstRow = k
    ∧ passesChecks existingCustomers k (firstRow :: rest) = true
    ∧ (buildCustomer o m n (firstRow :: rest) firstRow cs).1 = Accept c
    ∧ exactlyOne Contact.isPrimary cs
    ∧ Forall (λ x, JS.truthy (Contact.name x) = true
                   ∧ JS.truthy (Contact.email x) = true) cs.
Proof.
  intros Hout Hc.
  destruct (analyzeRows_verdicts _ _ _ _ _ Hout)
    as (g & m & n & Hg & _ & Hvalid & _).
  rewrite Hvalid in Hc.
  apply accepted_origin in Hc as (k & rs & n' & Hin & Hacc).
  destruct (ownKeys_groups rows g Hg) as [_ Hgroups].
  destruct (Hgroups k rs Hin) as (Hin' & (firstRow & rest & -> & Hk) & _).
  apply analyzeGroup_accept in Hacc as (Hpass & cs & Hbuild & Hone & Hall).
  by exists g, m, n', k, firstRow, rest, cs.
Qed.

End AcceptedCustomers.

Lemma accepted_accounts_distinct
    (o : Oracle) (existingCustomers existingParents : list Customer.t)
    (rows : list ImportRow.t) (out : ProcessedBatch) :
  analyzeRows o existingCustomers existingParents rows = Some out →
  NoDup (Customer.accountNumber <$> validCustomers out).
Proof.
  intros Hout.
  destruct (analyzeRows_verdicts _ _ _ _ _ Hout)
    as (g & m & n & Hg & _ & Hvalid & _).
  rewrite Hvalid. destruct (ownKeys_groups rows g Hg) as [Hnd Hgroups].
  clear Hvalid Hout. revert n.
  induction (ownKeys g) as [|[k rs] gs IH]; intros n; [constructor|].
  simpl. destruct (analyzeGroup o existingCustomers m n k rs) as [v n1] eqn:Hv.
  rewrite fmap_cons in Hnd. apply NoDup_cons in Hnd as [Hk Hnd].
  assert (NoDup (Customer.accountNumber
                 <$> acceptedOf (verdicts o existingCustomers m n1 gs)))
    as Hrest.
  { apply IH; [done|]. intros k' rs' Hin. apply Hgroups. by right. }
  rewrite acceptedOf_cons. destruct v as [es|c]; [done|]. simpl.
  apply NoDup_cons. split; [|done].
  intros (c' & Heq & Hc')%list_elem_of_fmap.
  apply accepted_origin in Hc' as (k' & rs' & n' & Hin & Hacc).
  destruct (Hgroups k' rs') as (_ & (f' & r' & -> & Hk') & _); [by right|].
  destruct (Hgroups k rs) as (_ & (f & r & -> & Hkf) & _); [left|].
  apply analyzeGroup_accept in Hacc as (_ & cs' & Hb' & _).
  apply buildCustomer_accept in Hb' as (_ & Hacc' & _).
  assert ((analyzeGroup o existingCustomers m n k (f :: r)).1 = Accept c)
    as Hacc by by rewrite Hv.
  apply analyzeGroup_accept in Hacc as (_ & cs & Hb & _).
  apply buildCustomer_accept in Hb as (_ & Hacc_c & _).
  apply Hk. apply list_elem_of_fmap. exists (k', f' :: r').
  split; [simpl; congruence | done].
Qed.

Lemma accepted_accounts_new
    (o : Oracle) (existingCustomers existingParents : list Customer.t)
    (rows : list ImportRow.t) (out : ProcessedBatch) (c : Customer.t) :
  analyzeRows o existingCustomers existingParents rows = Some out →
  c ∈ validCustomers out →
  Customer.accountNumber c ∉ (Customer.accountNumber <$> existingCustomers).
Proof.
  intros Hout Hc.
  destruct (accepted_customer o existingCustomers existingParents
              rows out c Hout Hc)
    as (g & m & n & k & firstRow & rest & cs & _ & _ & Hk & Hpass & Hbuild
        & _).
  apply buildCustomer_accept in Hbuild as (_ & Hacc & _).
  unfold passesChecks in Hpass.
  apply andb_true_iff in Hpass as [Hpass _].
  apply andb_true_iff in Hpass as [Hpass _].
  apply andb_true_iff in Hpass as [_ Hnew].
  apply negb_true_iff in Hnew.
  intros (d & Heq & Hd)%list_elem_of_fmap.
  assert (existsb (λ c, String.eqb (Customer.accountNumber c) k)
            existingCustomers = true) as Hex; [|congruence].
  apply existsb_exists. exists d. split; [by apply list_elem_of_In|].
  apply eqb_true. congruence.
Qed.

Lemma accepted_type_agrees
    (o : Oracle) (existingCustomers existingParents : list Customer.t)
    (rows : list ImportRow.t) (out : ProcessedBatch) (c : Customer.t) :
  analyzeRows o existingCustomers existingParents rows = Some out →
  c ∈ validCustomers out →
  (Customer.type c = PARENT ∧ Customer.parentId c = undefined)
  ∨ (Customer.type c = DIRECT
     ∧ ∃ i, Customer.parentId c = ref i ∧ i ≠ "").
Proof.
  intros Hout Hc.
  destruct (accepted_customer o existingCustomers existingParents
              rows out c Hout Hc)
    as (g & m & n & k & firstRow & rest & cs & _ & _ & _ & _ & Hbuild & _).
  apply buildCustomer_accept in Hbuild as (_ & _ & _ & _ & _ & Hty).
  destruct Hty as [(Hty & Hpar & _)|(Hty & i & Hpar & Hi & _)];
    [by left | right].
  split; [done|]. exists i. split; [done | by apply truthy_true].
Qed.

(** X9. Every customer the resolver accepts has a non-empty id, one
    address that is both the primary and the billing address, exactly one
    primary contact, a name and an email on every contact, and a type
    that agrees with its parent: PARENT without a parent, or DIRECT with a
    non-empty parent id. *)
Theorem accepted_customers_well_formed
    (o : Oracle) (existingCustomers existingParents : list Customer.t)
    (rows : list ImportRow.t) (out : ProcessedBatch) (c : Customer.t) :
  analyzeRows o existingCustomers existingParents rows = Some out →
  c ∈ validCustomers out →
  Customer.id c ≠ ""
  ∧ exactlyOne Address.isPrimary (Customer.addresses c)
  ∧ exactlyOne Address.isBilling (Customer.addresses c)
  ∧ length (Customer.addresses c) = 1
  ∧ exactlyOne Contact.isPrimary (Customer.contacts c)
  ∧ Forall (λ x, Contact.name x ≠ "" ∧ Contact.email x ≠ "")
      (Customer.contacts c)
  ∧ ((Customer.type c = PARENT ∧ Customer.parentId c = undefined)
     ∨ (Customer.type c = DIRECT
        ∧ ∃ i, Customer.parentId c = ref i ∧ i ≠ "")).
Proof.
  intros Hout Hc.
  destruct (accepted_customer o existingCustomers existingParents
              rows out c Hout Hc)
    as (g & m & n & k & firstRow & rest & cs & _ & _ & _ & _ & Hbuild
        & Hone & Hall).
  apply buildCustomer_accept in Hbuild
    as (Hcs & _ & _ & Hid & (a & Ha & Hprim & Hbill) & Hty).
  split; [by apply truthy_true|]. rewrite Ha, Hcs.
  split; [apply exactlyOne_filter; simpl; by rewrite Hprim|].
  split; [apply exactlyOne_filter; simpl; by rewrite Hbill|].
  split; [done|]. split; [done|]. split.
  - eapply Forall_impl; [exact Hall|]. intros x [Hn He].
    by split; apply truthy_true.
  - destruct Hty as [(Hty & Hpar & _)|(Hty & i & Hpar & Hi & _)];
      [by left | right].
    split; [done|]. exists i. split; [done | by apply truthy_true].
Qed.

Lemma accepted_customers_well_formed_witness :
  ∃ out,
    analyzeRows Sample.oracle Sample.population [Sample.acme; Sample.globex]
      [Sample.child; Sample.parent] = Some out
    ∧ Forall (λ c, exactlyOne Contact.isPrimary (Customer.contacts c)
                   ∧ length (Customer.addresses c) = 1)
        (validCustomers out).
Proof.
  eexists. split; [vm_compute; reflexivity|].
  apply Forall_forall. intros c Hc.
  destruct (accepted_customers_well_formed Sample.oracle Sample.population
              [Sample.acme; Sample.globex] [Sample.child; Sample.parent]
              _ c eq_refl Hc) as (_ & _ & _ & Hlen & Hone & _).
  by split.
Defined.

(** X10. The customers the resolver accepts carry distinct account
    numbers, none of which a customer of [existingCustomers] carries. *)
Theorem accepted_account_numbers
    (o : Oracle) (existingCustomers existingParents : list Customer.t)
    (rows : list ImportRow.t) (out : ProcessedBatch) :
  analyzeRows o existingCustomers existingParents rows = Some out →
  NoDup (Customer.accountNumber <$> validCustomers out)
  ∧ ∀ c, c ∈ validCustomers out →
         Customer.accountNumber c
         ∉ (Customer.accountNumber <$> existingCustomers).
Proof.
  intros Hout. split.
  - by eapply accepted_accounts_distinct.
  - intros c Hc. by eapply accepted_accounts_new.
Qed.

Lemma accepted_account_numbers_witness :
  ∃ out,
    analyzeRows Sample.oracle Sample.population [Sample.acme; Sample.globex]
      [Sample.twin1; Sample.twin2] = Some out
    ∧ NoDup (Customer.accountNumber <$> validCustomers out).
Proof.
  eexists. split; [vm_compute; reflexivity|].
  by apply (accepted_account_numbers Sample.oracle Sample.population
              [Sample.acme; Sample.globex] [Sample.twin1; Sample.twin2]).
Defined.

(** X11. Committing the accepted customers of a batch resolved against
    the population keeps the account numbers of the population distinct
    and gives no record of type PARENT a parent. *)
Theorem import_commit_keeps_invariants
    (o : Oracle) (pop existingParents : list Customer.t)
    (rows : list ImportRow.t) (out : ProcessedBatch) :
  NoDup (Customer.accountNumber <$> pop) →
  typeConsistent pop = true →
  analyzeRows o pop existingParents rows = Some out →
  NoDup (Customer.accountNumber
         <$> batchAddCustomers (validCustomers out) pop)
  ∧ typeConsistent (batchAddCustomers (validCustomers out) pop) = true.
Proof.
  intros Hnd Hty Hout. unfold batchAddCustomers. split.
  - rewrite fmap_app. apply NoDup_app. split; [done|].
    split; [|by eapply accepted_accounts_distinct].
    intros a Ha (c & -> & Hc)%list_elem_of_fmap.
    by apply (accepted_accounts_new o pop existingParents rows out c).
  - apply typeConsistent_spec. rewrite typeConsistent_spec in Hty.
    intros c [Hc|Hc]%elem_of_app; [by apply Hty|].
    destruct (accepted_type_agrees o pop existingParents rows out c Hout Hc)
      as [[_ ->]|[-> _]]; done.
Qed.

Lemma import_commit_keeps_invariants_witness :
  ∃ out,
    analyzeRows Sample.oracle Sample.population [Sample.acme; Sample.globex]
      [Sample.child; Sample.parent] = Some out
    ∧ NoDup (Customer.accountNumber
             <$> batchAddCustomers (validCustomers out) Sample.population)
    ∧ typeConsistent (batchAddCustomers (validCustomers out) Sample.population)
      = true.
Proof.
  eexists. split; [vm_compute; reflexivity|].
  apply (import_commit_keeps_invariants Sample.oracle Sample.population
           [Sample.acme; Sample.globex] [Sample.child; Sample.parent]).
  - refine (bool_decide_unpack _ _). vm_compute. exact I.
  - reflexivity.
  - reflexivity.
Defined.

(** ** The rejection list *)

Lemma ascending_cons (x : RowError.t) (l : list RowError.t) :
  ascending (x :: l) ↔
  (∀ y, y ∈ l → RowError.rowNumber x ≤ RowError.rowNumber y) ∧ ascending l.
Proof.
  unfold ascending. split.
  - intros H. split.
    + intros y [k Hk]%list_elem_of_lookup_1.
      by apply (H 0 (S k) x y); [lia|done|].
    + intros i j a b Hij Ha Hb. by apply (H (S i) (S j) a b); [lia|..].
  - intros [Hx Hl] i j a b Hij Ha Hb.
    destruct j as [|j]; [lia|]. simpl in Hb.
    destruct i as [|i]; simpl in Ha.
    + injection Ha as <-. apply Hx. by eapply list_elem_of_lookup_2.
    + by apply (Hl i j a b); [lia|..].
Qed.

Lemma insertSorted_ascending (e : RowError.t) (l : list RowError.t) :
  ascending l → ascending (insertSorted errorLeb e l).
Proof.
  induction l as [|y l IH]; simpl.
  - intros _. apply ascending_cons. split; [by intros ? ?%elem_of_nil|done].
  - intros [Hy Hl]%ascending_cons. unfold errorLeb at 1.
    destruct (Nat.leb_spec (RowError.rowNumber e) (RowError.rowNumber y))
      as [Hle|Hlt].
    + apply ascending_cons. split; [|by apply ascending_cons].
      intros z [->|Hz]%elem_of_cons; [done|].
      etrans; [exact Hle | by apply Hy].
    + apply ascending_cons. split; [|by apply IH].
      intros z Hz. rewrite insertSorted_perm in Hz.
      apply elem_of_cons in Hz as [->|Hz]; [lia | by apply Hy].
Qed.

Lemma stableSort_ascending (l : list RowError.t) :
  ascending (stableSort errorLeb l).
Proof.
  induction l as [|e l IH]; simpl; [by intros [] |].
  by apply insertSorted_ascending.
Qed.

(** X12. The rejection entries are in ascending order of row number, and
    each carries the row number of a row of the batch. *)
Theorem errors_sorted_by_row
    (o : Oracle) (existingCustomers existingParents : list Customer.t)
    (rows : list ImportRow.t) (out : ProcessedBatch) :
  analyzeRows o existingCustomers existingParents rows = Some out →
  ascending (errors out)
  ∧ ∀ e, e ∈ errors out →
         RowError.rowNumber e ∈ (ImportRow.rowNumber <$> rows).
Proof.
  intros Hout. split.
  - destruct (analyzeRows_verdicts _ _ _ _ _ Hout)
      as (g & m & n & _ & _ & _ & ->).
    apply stableSort_ascending.
  - intros e He.
    destruct (analyzeRows_error_rows o existingCustomers existingParents
                rows out e Hout He) as (r & Hr & ->).
    by apply list_elem_of_fmap_2.
Qed.

Lemma errors_sorted_by_row_witness :
  ∃ out,
    analyzeRows Sample.oracle Sample.population []
      [ Sample.row 2 "Zed" "Z-9" "Nobody" "Zoe" "zoe@zed.test" true;
        Sample.row 3 "Acme HQ" "1001" "" "Al" "al@acme.test" true;
        Sample.row 4 "Zed" "Z-9" "Nobody" "Yan" "yan@zed.test" false ]
    = Some out
    ∧ RowError.rowNumber <$> errors out = [2; 3; 4]
    ∧ ascending (errors out).
Proof.
  eexists. split; [vm_compute; reflexivity|]. split; [reflexivity|].
  exact (proj1 (errors_sorted_by_row Sample.oracle Sample.population []
     [ Sample.row 2 "Zed" "Z-9" "Nobody" "Zoe" "zoe@zed.test" true;
       Sample.row 3 "Acme HQ" "1001" "" "Al" "al@acme.test" true;
       Sample.row 4 "Zed" "Z-9" "Nobody" "Yan" "yan@zed.test" false ]
     _ eq_refl)).
Defined.

(** ** What a rejected group leaves behind *)

Section Rejections.

Variable o : Oracle.
Variable existingCustomers : list Customer.t.
Variable existingParents : list Customer.t.

Lemma seed_lookup (l : list Customer.t) (m0 : gmap string string)
    (key v : string) :
  foldl (λ m p, <[JS.toLowerCase (Customer.name p) := Customer.id p]> m) m0 l
  !! key = Some v →
  m0 !! key = Some v
  ∨ ∃ p, p ∈ l ∧ JS.toLowerCase (Customer.name p) = key ∧ Customer.id p = v.
Proof.
  revert m0. induction l as [|p l IH]; intros m0; simpl; [by left|].
  intros [Hm|(q & Hq & Hkey)]%IH.
  - destruct (decide (JS.toLowerCase (Customer.name p) = key)) as [Heq|Hne].
    + right. exists p. split; [left|]. split; [done|].
      rewrite Heq, lookup_insert_eq in Hm. congruence.
    + left. by rewrite lookup_insert_ne in Hm.
  - right. exists q. split; [by right | done].
Qed.

Lemma seedParents_lookup (key v : string) :
  seedParents existingParents !! key = Some v →
  ∃ p, p ∈ existingParents ∧ JS.toLowerCase (Customer.name p) = key
       ∧ Customer.id p = v.
Proof.
  intros [Hm|Hp]%seed_lookup; [|done].
  by rewrite lookup_empty in Hm.
Qed.

Lemma registerParents_lookup (gs : Grouped) (st : gmap string string * nat)
    (key v : string) :
  (foldl (registerParent o) st gs).1 !! key = Some v →
  st.1 !! key = Some v
  ∨ ∃ k firstRow rest j,
      (k, firstRow :: rest) ∈ gs
      ∧ JS.truthy (ImportRow.parentCustomerName firstRow) = false
      ∧ JS.toLowerCase (ImportRow.customerName firstRow) = key
      ∧ v = syntheticId o j.
Proof.
  revert st. induction gs as [|[k rs] gs IH]; intros st; simpl; [by left|].
  intros [Hm|(k' & f & rest & j & Hin & Hp & Hkey)]%IH.
  - unfold registerParent in Hm. simpl in Hm.
    destruct rs as [|firstRow rest]; [by left|].
    destruct (JS.truthy (ImportRow.parentCustomerName firstRow)) eqn:Hp;
      simpl in Hm; [by left|].
    destruct (JS.truthy (ImportRow.customerName firstRow)); [|by left].
    destruct (decide (JS.toLowerCase (ImportRow.customerName firstRow) = key))
      as [Heq|Hne].
    + right. exists k, firstRow, rest, st.2. split; [left|].
      split; [done|]. split; [done|].
      rewrite Heq, lookup_insert_eq in Hm. congruence.
    + left. by rewrite lookup_insert_ne in Hm.
  - right. exists k', f, rest, j. split; [by right | done].
Qed.

(** The verdict on the group of a row decides what the batch holds for
    the rows of the group; the name map is the one the first pass
    leaves. *)
Lemma analyzeRows_group_map (rows : list ImportRow.t) (out : ProcessedBatch)
    (r : ImportRow.t) :
  analyzeRows o existingCustomers existingParents rows = Some out →
  NoDup (ImportRow.rowNumber <$> rows) → r ∈ rows →
  ∃ g m n0 n,
    groupByAccount rows = Some g
    ∧ foldl (registerParent o) (seedParents existingParents, 0) (ownKeys g)
      = (m, n0)
    ∧ customersFor r out
      = List.filter (λ c, String.eqb (Customer.accountNumber c)
                                     (ImportRow.accountNumber r))
          (acceptedOf [(analyzeGroup o existingCustomers m n
                          (ImportRow.accountNumber r) (groupOf r rows)).1])
    ∧ ∀ r', r' ∈ groupOf r rows →
        entriesFor r' out
        = RowError.reason
          <$> List.filter
                (λ e, RowError.rowNumber e =? ImportRow.rowNumber r')
                (rejectedOf [(analyzeGroup o existingCustomers m n
                                (ImportRow.accountNumber r)
                                (groupOf r rows)).1]).
Proof.
  intros Hout Hnd Hr.
  destruct (analyzeRows_verdicts _ _ _ _ _ Hout)
    as (g & m & n & Hg & Hfold & Hvalid & Herrors).
  destruct (groupByAccount_groups _ _ Hg) as (Hkeys_nd & Hkeys & Hrows).
  set (k := ImportRow.accountNumber r).
  pose proof (Hkeys r Hr) as Hk.
  apply list_elem_of_fmap in Hk as ([k' rs] & Hk' & Hin).
  simpl in Hk'. subst k'. fold k in Hin.
  destruct (Hrows k rs Hin) as [Hrs_ne Hrs].
  assert (rs = groupOf r rows) as <- by done.
  assert (∀ k' rs', (k', rs') ∈ ownKeys g →
            rs' ≠ [] ∧ (∀ x, x ∈ rs' → ImportRow.accountNumber x = k')
            ∧ ∀ x, x ∈ rs' → x ∈ rows) as Hgroup.
  { intros k' rs' Hin'. apply (proj1 (ownKeys_elem _ _)) in Hin'.
    destruct (Hrows k' rs' Hin') as [? ->].
    split; [done|].
    split; intros x [Hx Hacc]%list_elem_of_In%filter_In;
      [by apply eqb_true in Hacc | by apply list_elem_of_In]. }
  apply ownKeys_NoDup in Hkeys_nd. apply (proj2 (ownKeys_elem _ _)) in Hin.
  apply list_elem_of_split in Hin as (pre & post & Hsplit).
  rewrite Hsplit in Hkeys_nd, Hgroup.
  rewrite fmap_app, fmap_cons in Hkeys_nd. simpl in Hkeys_nd.
  apply NoDup_app in Hkeys_nd as (_ & Hpre & [Hpost _]%NoDup_cons).
  assert (∀ k' rs', (k', rs') ∈ pre ∨ (k', rs') ∈ post → k' ≠ k) as Hother.
  { intros k' rs' [Hin|Hin] ->.
    - apply (Hpre k); [by apply (list_elem_of_fmap_2 fst _ (k, rs'))|left].
    - apply Hpost. by apply (list_elem_of_fmap_2 fst _ (k, rs')). }
  destruct (verdicts_app o existingCustomers m n pre ((k, rs) :: post))
    as [n1 Hvs].
  simpl in Hvs.
  destruct (analyzeGroup o existingCustomers m n1 k rs) as [v n2] eqn:Hv.
  exists g, m, n, n1. rewrite Hv. simpl fst.
  split; [done|]. split; [done|].
  unfold customersFor, entriesFor.
  rewrite Hvalid, Herrors. rewrite Hsplit, Hvs. split.
  - rewrite acceptedOf_app, acceptedOf_cons, !List.filter_app.
    rewrite !verdicts_other_accepted.
    + rewrite acceptedOf_cons. simpl. by rewrite !app_nil_r.
    + intros k' rs' Hin'. destruct (Hgroup k' rs') as (? & ? & _);
        [apply elem_of_app; right; by right|].
      split; [by apply (Hother k' rs'); right | done].
    + intros k' rs' Hin'. destruct (Hgroup k' rs') as (? & ? & _);
        [apply elem_of_app; by left|].
      split; [by apply (Hother k' rs'); left | done].
  - intros r' Hr'. rewrite filter_stableSort.
    rewrite rejectedOf_app, rejectedOf_cons, !List.filter_app.
    assert (∀ k' rs', (k', rs') ∈ pre ∨ (k', rs') ∈ post →
              rs' ≠ [] ∧ (∀ x, x ∈ rs' → ImportRow.accountNumber x = k')
              ∧ ∀ x, x ∈ rs' → ImportRow.rowNumber x ≠ ImportRow.rowNumber r')
      as Hrn.
    { intros k' rs' Hin'. destruct (Hgroup k' rs') as (Hne & Hacc & Hsub).
      { apply elem_of_app. destruct Hin'; [by left | right; by right]. }
      split; [done|]. split; [done|]. intros x Hx Heq.
      destruct (Hgroup k rs) as (_ & Hacc_k & Hsub_k);
        [apply elem_of_app; right; left|].
      assert (x = r') as ->
        by (apply (NoDup_fmap_eq ImportRow.rowNumber rows); auto).
      apply (Hother k' rs' Hin'). rewrite <- (Hacc r' Hx). by apply Hacc_k. }
    rewrite !verdicts_other_rejected.
    + rewrite rejectedOf_cons. simpl. by rewrite !app_nil_r.
    + intros k' rs' Hin'. apply Hrn. by right.
    + intros k' rs' Hin'. apply Hrn. by left.
Qed.

(** A group rejected as a whole: no customer, one entry per row. *)
Lemma rejected_group_entries (rows : list ImportRow.t) (out : ProcessedBatch)
    (r : ImportRow.t) (v : Verdict) (reason : string) :
  NoDup (ImportRow.rowNumber <$> rows) →
  v = Reject (rejectAll (groupOf r rows) reason) →
  customersFor r out
  = List.filter (λ c, String.eqb (Customer.accountNumber c)
                                 (ImportRow.accountNumber r))
      (acceptedOf [v]) →
  (∀ r', r' ∈ groupOf r rows →
     entriesFor r' out
     = RowError.reason
       <$> List.filter (λ e, RowError.rowNumber e =? ImportRow.rowNumber r')
             (rejectedOf [v])) →
  customersFor r out = []
  ∧ ∀ r', r' ∈ groupOf r rows → entriesFor r' out = [reason].
Proof.
  intros Hnd -> Hcust Hentries. split; [done|].
  intros r' Hr'. rewrite Hentries by done.
  rewrite rejectedOf_cons, app_nil_r.
  rewrite <- (filter_all (λ _, true) (groupOf r rows)) at 1 by done.
  rewrite (entries_rejectAll (λ _, true)); [done| |done].
  by apply NoDup_fmap_filter.
Qed.

Lemma existsb_account (k : string) :
  k ∈ (Customer.accountNumber <$> existingCustomers) →
  existsb (λ c, String.eqb (Customer.accountNumber c) k) existingCustomers
  = true.
Proof.
  intros (c & -> & Hc)%list_elem_of_fmap.
  apply existsb_exists. exists c.
  split; [by apply list_elem_of_In | apply String.eqb_refl].
Qed.

Lemma names_agree_size (g : list ImportRow.t) (firstRow : ImportRow.t) :
  (∀ r, r ∈ g → ImportRow.customerName r = ImportRow.customerName firstRow) →
  ¬ 1 < size (list_to_set (ImportRow.customerName <$> g) : gset string).
Proof.
  intros Hnames. apply Nat.le_ngt.
  apply (size_names _ (ImportRow.customerName firstRow)).
  intros x (r & -> & Hr)%list_elem_of_fmap. by apply Hnames.
Qed.

Lemma analyzeGroup_existing (m : gmap string string) (n : nat) (k : string)
    (firstRow : ImportRow.t) (rest : list ImportRow.t) :
  JS.truthy (ImportRow.customerName firstRow) = true →
  (∀ r, r ∈ firstRow :: rest →
        ImportRow.customerName r = ImportRow.customerName firstRow) →
  k ∈ (Customer.accountNumber <$> existingCustomers) →
  (analyzeGroup o existingCustomers m n k (firstRow :: rest)).1
  = Reject (rejectAll (firstRow :: rest)
              ("Account Number '" +:+ k +:+ "' already exists in the system.")).
Proof.
  intros Hname Hnames Hk. unfold analyzeGroup.
  rewrite Hname. change (negb true) with false. cbv iota.
  rewrite bool_decide_eq_false_2 by by eapply names_agree_size.
  by rewrite existsb_account.
Qed.

Lemma analyzeGroup_names (m : gmap string string) (n : nat) (k : string)
    (firstRow other : ImportRow.t) (rest : list ImportRow.t) :
  JS.truthy (ImportRow.customerName firstRow) = true →
  other ∈ rest →
  ImportRow.customerName other ≠ ImportRow.customerName firstRow →
  (analyzeGroup o existingCustomers m n k (firstRow :: rest)).1
  = Reject (rejectAll (firstRow :: rest)
              ("Duplicate Account Number '" +:+ k
               +:+ "' used for different customer names.")).
Proof.
  intros Hname Hother Hne. unfold analyzeGroup.
  rewrite Hname. change (negb true) with false. cbv iota.
  rewrite bool_decide_eq_true_2; [done|].
  apply Nat.lt_nge. intros Hsize. apply Hne.
  apply (names_of_small_set (ImportRow.customerName <$> firstRow :: rest)).
  - rewrite fmap_cons. left.
  - by apply Nat.le_ngt.
  - apply list_elem_of_fmap_2. by right.
Qed.

Lemma analyzeGroup_primaries (m : gmap string string) (n : nat) (k : string)
    (firstRow : ImportRow.t) (rest : list ImportRow.t) :
  let g := firstRow :: rest in
  let primaries := length (List.filter ImportRow.isPrimary g) in
  JS.truthy (ImportRow.customerName firstRow) = true →
  (∀ r, r ∈ g → ImportRow.customerName r = ImportRow.customerName firstRow) →
  k ∉ (Customer.accountNumber <$> existingCustomers) →
  (∀ r, r ∈ g → lacksContact r = false) →
  rest ≠ [] → primaries ≠ 1 →
  (analyzeGroup o existingCustomers m n k g).1
  = Reject (rejectAll g
              (if primaries =? 0
               then "Multiple contacts found but none marked as Primary."
               else "Multiple contacts marked as Primary. Only one allowed.")).
Proof.
  cbv zeta. intros Hname Hnames Hk Hcontacts Hrest Hp.
  unfold analyzeGroup.
  set (g := firstRow :: rest) in *.
  set (primaries := length (List.filter ImportRow.isPrimary g)) in *.
  rewrite Hname. change (negb true) with false. cbv iota.
  rewrite bool_decide_eq_false_2 by by eapply names_agree_size.
  assert (existsb (λ c, String.eqb (Customer.accountNumber c) k)
            existingCustomers = false) as ->.
  { apply not_true_iff_false. intros (c & Hc & Heq)%existsb_exists.
    apply Hk. apply eqb_true in Heq as <-.
    by apply list_elem_of_fmap_2, list_elem_of_In. }
  set (contacts := imap (contactOfRow k) g).
  assert (List.filter
            (λ c, JS.truthy (Contact.name c) && JS.truthy (Contact.email c))
            contacts = contacts) as ->.
  { apply filter_all. intros c (r & Hr & -> & _)%contactOfRow_valid.
    apply negb_true_iff. by apply Hcontacts. }
  rewrite bool_decide_eq_true_2 by done. change (negb true) with false.
  cbv iota.
  assert (length contacts = length g) as Hlen by apply length_imap.
  rewrite Hlen.
  assert (1 < length g) as Hlong
    by (unfold g; destruct rest; [done | simpl; lia]).
  rewrite bool_decide_eq_false_2 by lia.
  rewrite bool_decide_eq_true_2 by done.
  unfold contacts.
  rewrite (filter_imap_length _ ImportRow.isPrimary) by done.
  fold primaries.
  case_bool_decide as Hzero.
  - by rewrite Hzero.
  - rewrite bool_decide_eq_true_2 by lia.
    by destruct (Nat.eqb_spec primaries 0).
Qed.

Lemma analyzeGroup_unresolved (m : gmap string string) (n : nat) (k : string)
    (firstRow : ImportRow.t) (rest : list ImportRow.t) :
  passesChecks existingCustomers k (firstRow :: rest) = true →
  JS.truthy (ImportRow.parentCustomerName firstRow) = true →
  m !! JS.toLowerCase (ImportRow.parentCustomerName firstRow) = None →
  (analyzeGroup o existingCustomers m n k (firstRow :: rest)).1
  = Reject (rejectAll (firstRow :: rest)
              ("Parent Customer '" +:+ ImportRow.parentCustomerName firstRow
               +:+ "' not found (in system or file).")).
Proof.
  intros Hpass Hparent Hm.
  destruct (analyzeGroup_passes o existingCustomers m n k firstRow rest Hpass)
    as [cs ->].
  unfold buildCustomer. by rewrite Hparent, Hm.
Qed.

Lemma head_group (rows : list ImportRow.t) (r firstRow : ImportRow.t) :
  head (groupOf r rows) = Some firstRow →
  ∃ rest, groupOf r rows = firstRow :: rest.
Proof. destruct (groupOf r rows); [done|]. intros [= ->]. by eexists. Qed.

End Rejections.

(** X13. In a batch with distinct row numbers whose account numbers
    name no property an object inherits, the resolver returns its two
    outputs, and a group whose account number a customer of the system
    already carries, with a name on its first row that all its rows
    share, is rejected: no customer is accepted for it and each of its
    rows has exactly one entry, which names the account number. *)
Theorem existing_account_rejected
    (o : Oracle) (existingCustomers existingParents : list Customer.t)
    (rows : list ImportRow.t)
    (r firstRow : ImportRow.t) :
  (∀ r', r' ∈ rows →
         JS.includes inheritedKeys (ImportRow.accountNumber r') = false) →
  NoDup (ImportRow.rowNumber <$> rows) → r ∈ rows →
  head (groupOf r rows) = Some firstRow →
  JS.truthy (ImportRow.customerName firstRow) = true →
  (∀ r', r' ∈ groupOf r rows →
         ImportRow.customerName r' = ImportRow.customerName firstRow) →
  ImportRow.accountNumber r ∈ (Customer.accountNumber <$> existingCustomers) →
  ∃ out,
    analyzeRows o existingCustomers existingParents rows = Some out
    ∧ customersFor r out = []
    ∧ ∀ r', r' ∈ groupOf r rows →
            entriesFor r' out
            = ["Account Number '" +:+ ImportRow.accountNumber r
               +:+ "' already exists in the system."].
Proof.
  intros Hkeys Hnd Hr [rest Hg]%head_group Hname Hnames Hk.
  destruct (analyzeRows_total o existingCustomers existingParents rows Hkeys)
    as [out Hout].
  exists out. split; [done|].
  destruct (analyzeRows_group_map o existingCustomers existingParents
              rows out r Hout Hnd Hr)
    as (g & m & n0 & n & _ & _ & Hcust & Hentries).
  eapply rejected_group_entries; [done| |exact Hcust|exact Hentries].
  rewrite Hg in Hnames |- *. by apply analyzeGroup_existing.
Qed.

Lemma existing_account_rejected_witness :
  let r := Sample.row 2 "Acme Two" "1001" "" "Al" "al@acme.test" true in
  ∃ out,
    analyzeRows Sample.oracle Sample.population [] [r] = Some out
    ∧ customersFor r out = []
    ∧ entriesFor r out
      = ["Account Number '1001' already exists in the system."].
Proof.
  cbv zeta.
  set (r := Sample.row 2 "Acme Two" "1001" "" "Al" "al@acme.test" true).
  destruct (existing_account_rejected Sample.oracle Sample.population []
              [r] r r) as (out & Hout & Hcust & Hentries).
  - intros r' Hr'. repeat (apply elem_of_cons in Hr' as [->|Hr']); try done.
    by apply elem_of_nil in Hr'.
  - refine (bool_decide_unpack _ _). vm_compute. exact I.
  - left.
  - reflexivity.
  - reflexivity.
  - intros r' Hr'. repeat (apply elem_of_cons in Hr' as [->|Hr']); try done.
    by apply elem_of_nil in Hr'.
  - refine (bool_decide_unpack _ _). vm_compute. exact I.
  - exists out. split; [exact Hout|]. split; [exact Hcust|].
    exact (Hentries r ltac:(left)).
Defined.

(** X14. In a batch with distinct row numbers whose account numbers
    name no property an object inherits, the resolver returns its two
    outputs, and a group whose rows carry different customer names, the
    first of them present, is rejected: no customer is accepted for it
    and each of its rows has exactly one entry, which names the account
    number. *)
Theorem name_conflict_rejected
    (o : Oracle) (existingCustomers existingParents : list Customer.t)
    (rows : list ImportRow.t)
    (r firstRow other : ImportRow.t) :
  (∀ r', r' ∈ rows →
         JS.includes inheritedKeys (ImportRow.accountNumber r') = false) →
  NoDup (ImportRow.rowNumber <$> rows) → r ∈ rows →
  head (groupOf r rows) = Some firstRow →
  JS.truthy (ImportRow.customerName firstRow) = true →
  other ∈ groupOf r rows →
  ImportRow.customerName other ≠ ImportRow.customerName firstRow →
  ∃ out,
    analyzeRows o existingCustomers existingParents rows = Some out
    ∧ customersFor r out = []
    ∧ ∀ r', r' ∈ groupOf r rows →
            entriesFor r' out
            = ["Duplicate Account Number '" +:+ ImportRow.accountNumber r
               +:+ "' used for different customer names."].
Proof.
  intros Hkeys Hnd Hr [rest Hg]%head_group Hname Hother Hne.
  destruct (analyzeRows_total o existingCustomers existingParents rows Hkeys)
    as [out Hout].
  exists out. split; [done|].
  destruct (analyzeRows_group_map o existingCustomers existingParents
              rows out r Hout Hnd Hr)
    as (g & m & n0 & n & _ & _ & Hcust & Hentries).
  eapply rejected_group_entries; [done| |exact Hcust|exact Hentries].
  rewrite Hg in Hother |- *.
  apply elem_of_cons in Hother as [->|Hother]; [done|].
  by eapply analyzeGroup_names.
Qed.

Lemma name_conflict_rejected_witness :
  let r1 := Sample.row 2 "Zed" "Z-1" "" "Zoe" "zoe@zed.test" true in
  let r2 := Sample.row 3 "Zed Ltd" "Z-1" "" "Yan" "yan@zed.test" false in
  ∃ out,
    analyzeRows Sample.oracle Sample.population [] [r1; r2] = Some out
    ∧ customersFor r2 out = []
    ∧ entriesFor r2 out
      = ["Duplicate Account Number 'Z-1' used for different customer names."].
Proof.
  cbv zeta.
  set (r1 := Sample.row 2 "Zed" "Z-1" "" "Zoe" "zoe@zed.test" true).
  set (r2 := Sample.row 3 "Zed Ltd" "Z-1" "" "Yan" "yan@zed.test" false).
  destruct (name_conflict_rejected Sample.oracle Sample.population []
              [r1; r2] r2 r1 r2) as (out & Hout & Hcust & Hentries).
  - intros r' Hr'. repeat (apply elem_of_cons in Hr' as [->|Hr']); try done.
    by apply elem_of_nil in Hr'.
  - refine (bool_decide_unpack _ _). vm_compute. exact I.
  - right. left.
  - reflexivity.
  - reflexivity.
  - right. left.
  - discriminate.
  - exists out. split; [exact Hout|]. split; [exact Hcust|].
    exact (Hentries r2 ltac:(right; left)).
Defined.

(** X15. In a batch with distinct row numbers whose account numbers
    name no property an object inherits, the resolver returns its two
    outputs, and a group of several rows that passes the name, account
    and contact checks but does not flag exactly one row as primary is
    rejected: no customer is accepted for it and each of its rows has
    exactly one entry, whose reason tells no flag from several. *)
Theorem primary_conflict_rejected
    (o : Oracle) (existingCustomers existingParents : list Customer.t)
    (rows : list ImportRow.t)
    (r firstRow : ImportRow.t) :
  let primaries := length (List.filter ImportRow.isPrimary (groupOf r rows)) in
  (∀ r', r' ∈ rows →
         JS.includes inheritedKeys (ImportRow.accountNumber r') = false) →
  NoDup (ImportRow.rowNumber <$> rows) → r ∈ rows →
  head (groupOf r rows) = Some firstRow →
  JS.truthy (ImportRow.customerName firstRow) = true →
  (∀ r', r' ∈ groupOf r rows →
         ImportRow.customerName r' = ImportRow.customerName firstRow) →
  ImportRow.accountNumber r ∉ (Customer.accountNumber <$> existingCustomers) →
  (∀ r', r' ∈ groupOf r rows → lacksContact r' = false) →
  1 < length (groupOf r rows) → primaries ≠ 1 →
  ∃ out,
    analyzeRows o existingCustomers existingParents rows = Some out
    ∧ customersFor r out = []
    ∧ ∀ r', r' ∈ groupOf r rows →
            entriesFor r' out
            = [if primaries =? 0
               then "Multiple contacts found but none marked as Primary."
               else "Multiple contacts marked as Primary. Only one allowed."].
Proof.
  intros primaries Hkeys Hnd Hr [rest Hg]%head_group Hname Hnames Hk
    Hcontacts Hlong Hp.
  destruct (analyzeRows_total o existingCustomers existingParents rows Hkeys)
    as [out Hout].
  exists out. split; [done|].
  destruct (analyzeRows_group_map o existingCustomers existingParents
              rows out r Hout Hnd Hr)
    as (g & m & n0 & n & _ & _ & Hcust & Hentries).
  eapply rejected_group_entries; [done| |exact Hcust|exact Hentries].
  unfold primaries in *. rewrite Hg in Hnames, Hcontacts, Hlong, Hp |- *.
  apply analyzeGroup_primaries; try done.
  intros ->. simpl in Hlong. lia.
Qed.

Lemma primary_conflict_rejected_witness :
  let r1 := Sample.row 2 "Zed" "Z-1" "" "Zoe" "zoe@zed.test" true in
  let r2 := Sample.row 3 "Zed" "Z-1" "" "Yan" "yan@zed.test" true in
  ∃ out,
    analyzeRows Sample.oracle Sample.population [] [r1; r2] = Some out
    ∧ customersFor r1 out = []
    ∧ entriesFor r1 out
      = ["Multiple contacts marked as Primary. Only one allowed."].
Proof.
  cbv zeta.
  set (r1 := Sample.row 2 "Zed" "Z-1" "" "Zoe" "zoe@zed.test" true).
  set (r2 := Sample.row 3 "Zed" "Z-1" "" "Yan" "yan@zed.test" true).
  destruct (primary_conflict_rejected Sample.oracle Sample.population []
              [r1; r2] r1 r1) as (out & Hout & Hcust & Hentries).
  - intros r' Hr'. repeat (apply elem_of_cons in Hr' as [->|Hr']); try done.
    by apply elem_of_nil in Hr'.
  - refine (bool_decide_unpack _ _). vm_compute. exact I.
  - left.
  - reflexivity.
  - reflexivity.
  - intros r' Hr'. repeat (apply elem_of_cons in Hr' as [->|Hr']); try done.
    by apply elem_of_nil in Hr'.
  - refine (bool_decide_unpack _ _). vm_compute. exact I.
  - intros r' Hr'. repeat (apply elem_of_cons in Hr' as [->|Hr']); try done.
    by apply elem_of_nil in Hr'.
  - vm_compute. lia.
  - vm_compute. lia.
  - exists out. split; [exact Hout|]. split; [exact Hcust|].
    exact (Hentries r1 ltac:(left)).
Defined.

(** X16. In a batch with distinct row numbers whose account numbers
    name no property an object inherits, the resolver returns its two
    outputs, and a group that passes the checks and names a parent that
    neither a customer of [existingParents] nor a parent group of the
    batch carries as its name, letter case apart, is rejected: no
    customer is accepted for it and each of its rows has exactly one
    entry, which names the parent. *)
Theorem unresolved_parent_rejected
    (o : Oracle) (existingCustomers existingParents : list Customer.t)
    (rows : list ImportRow.t)
    (r firstRow : ImportRow.t) :
  (∀ r', r' ∈ rows →
         JS.includes inheritedKeys (ImportRow.accountNumber r') = false) →
  NoDup (ImportRow.rowNumber <$> rows) → r ∈ rows →
  head (groupOf r rows) = Some firstRow →
  passesChecks existingCustomers (ImportRow.accountNumber r) (groupOf r rows)
  = true →
  JS.truthy (ImportRow.parentCustomerName firstRow) = true →
  (∀ p, p ∈ existingParents →
        JS.toLowerCase (Customer.name p)
        ≠ JS.toLowerCase (ImportRow.parentCustomerName firstRow)) →
  (∀ r', r' ∈ rows → head (groupOf r' rows) = Some r' →
         JS.truthy (ImportRow.parentCustomerName r') = false →
         JS.toLowerCase (ImportRow.customerName r')
         ≠ JS.toLowerCase (ImportRow.parentCustomerName firstRow)) →
  ∃ out,
    analyzeRows o existingCustomers existingParents rows = Some out
    ∧ customersFor r out = []
    ∧ ∀ r', r' ∈ groupOf r rows →
            entriesFor r' out
            = ["Parent Customer '" +:+ ImportRow.parentCustomerName firstRow
               +:+ "' not found (in system or file)."].
Proof.
  intros Hkeys Hnd Hr [rest Hg]%head_group Hpass Hparent Hsystem Hfile.
  destruct (analyzeRows_total o existingCustomers existingParents rows Hkeys)
    as [out Hout].
  exists out. split; [done|].
  destruct (analyzeRows_group_map o existingCustomers existingParents
              rows out r Hout Hnd Hr)
    as (g & m & n0 & n & Hgrouped & Hfold & Hcust & Hentries).
  eapply rejected_group_entries; [done| |exact Hcust|exact Hentries].
  rewrite Hg in Hpass |- *. apply analyzeGroup_unresolved; [done..|].
  destruct (m !! _) as [v|] eqn:Hm; [exfalso|done].
  assert (m = (foldl (registerParent o) (seedParents existingParents, 0)
                 (ownKeys g)).1) as Hm_eq by by rewrite Hfold.
  rewrite Hm_eq in Hm.
  apply registerParents_lookup in Hm
    as [Hm|(k & f & frest & j & Hin & Hblank & Hkey & _)].
  - apply seedParents_lookup in Hm as (p & Hp & Hkey & _).
    by apply (Hsystem p).
  - destruct (groupByAccount_groups _ _ Hgrouped) as (_ & _ & Hrows).
    apply (proj1 (ownKeys_elem _ _)) in Hin.
    destruct (Hrows _ _ Hin) as [_ Hfilter].
    assert (f ∈ f :: frest) as Hf by left.
    rewrite Hfilter in Hf.
    apply list_elem_of_In, filter_In in Hf as [Hf Hacc].
    apply eqb_true in Hacc.
    apply (Hfile f); [by apply list_elem_of_In| |done..].
    unfold groupOf. rewrite Hacc. by rewrite <- Hfilter.
Qed.

Lemma unresolved_parent_rejected_witness :
  ∃ out,
    analyzeRows Sample.oracle Sample.population [Sample.globex] [Sample.child]
    = Some out
    ∧ customersFor Sample.child out = []
    ∧ entriesFor Sample.child out
      = ["Parent Customer 'acme hq' not found (in system or file)."].
Proof.
  destruct (unresolved_parent_rejected Sample.oracle Sample.population
              [Sample.globex] [Sample.child] Sample.child Sample.child)
    as (out & Hout & Hcust & Hentries).
  - intros r' Hr'. repeat (apply elem_of_cons in Hr' as [->|Hr']); try done.
    by apply elem_of_nil in Hr'.
  - refine (bool_decide_unpack _ _). vm_compute. exact I.
  - left.
  - reflexivity.
  - reflexivity.
  - reflexivity.
  - intros p Hp. apply elem_of_cons in Hp as [->|Hp]; [discriminate|].
    by apply elem_of_nil in Hp.
  - intros r' Hr' _. apply elem_of_cons in Hr' as [->|Hr']; [discriminate|].
    by apply elem_of_nil in Hr'.
  - exists out. split; [exact Hout|]. split; [exact Hcust|].
    exact (Hentries Sample.child ltac:(left)).
Defined.

Lemma groupByAccount_total (rows : list ImportRow.t) :
  (∀ r, r ∈ rows →
        JS.includes inheritedKeys (ImportRow.accountNumber r) = false) →
  ∃ g, groupByAccount rows = Some g.
Proof.
  intros Hkeys. unfold groupByAccount.
  destruct (groupFrom_total rows [] Hkeys) as [g Hg]. by exists g.
Qed.

Lemma groups_member (rows : list ImportRow.t) (g : Grouped) (r : ImportRow.t) :
  groups rows g → r ∈ rows →
  (ImportRow.accountNumber r, groupOf r rows) ∈ g.
Proof.
  intros (_ & Hkeys & Hrows) Hr.
  pose proof (Hkeys r Hr) as Hk.
  apply list_elem_of_fmap in Hk as ([k rs] & Hk & Hin).
  simpl in Hk. subst k.
  destruct (Hrows _ _ Hin) as [_ Hrs].
  by assert (rs = groupOf r rows) as <- by done.
Qed.

Lemma head_member (rows : list ImportRow.t) (r : ImportRow.t) :
  head (groupOf r rows) = Some r → r ∈ rows.
Proof.
  intros [rest Hg]%head_group.
  assert (r ∈ groupOf r rows) as Hr by (rewrite Hg; left).
  apply list_elem_of_In, filter_In in Hr as [Hr _]. by apply list_elem_of_In.
Qed.

(** X17. In a batch whose account numbers name no property an object
    inherits, the resolver returns its two outputs, and a group of
    direct customers that passes the checks is accepted as soon as a
    group of the batch classified as a parent carries the name it asks
    for, letter case apart, also when that group does not pass the
    checks itself: the batch then holds the direct customer with a
    parent id made up in the first pass, and no customer for the
    parent's account number. [child] and [parent] are the first rows of
    the two groups. *)
Theorem child_accepted_parent_rejected
    (o : Oracle) (existingCustomers existingParents : list Customer.t)
    (rows : list ImportRow.t) (child parent : ImportRow.t) :
  (∀ r, r ∈ rows →
        JS.includes inheritedKeys (ImportRow.accountNumber r) = false) →
  head (groupOf child rows) = Some child →
  head (groupOf parent rows) = Some parent →
  classify (groupOf child rows) = Some DIRECT →
  classify (groupOf parent rows) = Some PARENT →
  JS.truthy (ImportRow.customerName parent) = true →
  JS.toLowerCase (ImportRow.customerName parent)
  = JS.toLowerCase (ImportRow.parentCustomerName child) →
  passesChecks existingCustomers (ImportRow.accountNumber child)
    (groupOf child rows) = true →
  passesChecks existingCustomers (ImportRow.accountNumber parent)
    (groupOf parent rows) = false →
  ∃ out cc j,
    analyzeRows o existingCustomers existingParents rows = Some out
    ∧ cc ∈ validCustomers out
    ∧ Customer.accountNumber cc = ImportRow.accountNumber child
    ∧ Customer.type cc = DIRECT
    ∧ Customer.parentId cc = ref (syntheticId o j)
    ∧ ∀ c, c ∈ validCustomers out →
           Customer.accountNumber c ≠ ImportRow.accountNumber parent.
Proof.
  intros Hkeys Hchild Hparent Hc_class Hp_class Hp_name Hname Hc_pass Hp_fail.
  destruct (groupByAccount_total rows Hkeys) as [g Hg].
  pose proof (groupByAccount_groups _ _ Hg) as Hgroups.
  pose proof (groups_member rows g child Hgroups (head_member _ _ Hchild))
    as Hc.
  pose proof (groups_member rows g parent Hgroups (head_member _ _ Hparent))
    as Hp.
  apply head_group in Hchild as [restc Hgc].
  apply head_group in Hparent as [restp Hgp].
  rewrite Hgc in Hc, Hc_class, Hc_pass.
  rewrite Hgp in Hp, Hp_class, Hp_fail.
  set (kc := ImportRow.accountNumber child) in *.
  set (kp := ImportRow.accountNumber parent) in *.
  destruct (analyzeRows_of_groups o existingCustomers existingParents rows g Hg)
    as (out & m & n & Hout & Hfold & Hvalid).
  destruct (registerParents_registered o (ownKeys g)
              (seedParents existingParents, 0) kp parent restp)
    as [j Hj]; [by apply ownKeys_elem | by apply (classify_parent _ restp)
                | done |].
  rewrite Hfold, Hname in Hj. simpl in Hj.
  destruct (direct_group_accepted o existingCustomers rows g m n kc child
              restc _ Hgroups Hc Hc_class Hc_pass Hj (syntheticId_truthy o j))
    as (cc & Hcc & Hcc_par & Hcc_ty & Hcc_acc).
  exists out, cc, j. rewrite Hvalid at 1.
  repeat split; try done.
  intros c Hin Hacc.
  destruct (accepted_customer o existingCustomers existingParents rows out c
              Hout Hin)
    as (g' & m' & n' & k & firstRow & rest & cs & Hg' & Hk & Hfirst & Hpass
        & Hbuild & _).
  apply buildCustomer_accept in Hbuild as (_ & Hacc' & _).
  assert (g' = g) as -> by congruence.
  assert (k = kp) as -> by congruence.
  destruct Hgroups as (Hnd & _ & _).
  assert (firstRow :: rest = parent :: restp) as Heq.
  { apply (NoDup_fmap_eq fst g (kp, firstRow :: rest) (kp, parent :: restp))
      in Hnd; [congruence|done..]. }
  congruence.
Qed.

Lemma child_accepted_parent_rejected_witness :
  let parent := Sample.row 3 "Acme HQ" "1001" "" "Al" "al@acme.test" false in
  ∃ out cc j,
    analyzeRows Sample.oracle Sample.population [] [Sample.child; parent]
    = Some out
    ∧ validCustomers out = [cc]
    ∧ Customer.parentId cc = ref (syntheticId Sample.oracle j)
    ∧ ∀ c, c ∈ validCustomers out → Customer.accountNumber c ≠ "1001".
Proof.
  cbv zeta.
  set (parent := Sample.row 3 "Acme HQ" "1001" "" "Al" "al@acme.test" false).
  destruct (child_accepted_parent_rejected Sample.oracle Sample.population []
              [Sample.child; parent] Sample.child parent)
    as (out & cc & j & Hout & Hcc & _ & _ & Hpar & Hnone);
    try reflexivity.
  - intros r Hr. repeat (apply elem_of_cons in Hr as [->|Hr]); try done.
    by apply elem_of_nil in Hr.
  - exists out, cc, j. split; [exact Hout|].
    vm_compute in Hout. injection Hout as <-.
    repeat (apply elem_of_cons in Hcc as [->|Hcc]);
      [|by apply elem_of_nil in Hcc].
    split; [reflexivity|]. split; [exact Hpar | exact Hnone].
Defined.

(** ** The first line, the row numbers and the template *)

Lemma app_cons (a : ascii) (s t : string) :
  String a s +:+ t = String a (s +:+ t).
Proof. done. Qed.

Lemma app_snoc (s t : string) (a : ascii) :
  (s +:+ String a EmptyString) +:+ t = s +:+ String a t.
Proof.
  induction s as [|b s IH]; [done|]. rewrite !app_cons. by rewrite IH.
Qed.

Lemma app_assoc' (s t u : string) : (s +:+ t) +:+ u = s +:+ (t +:+ u).
Proof.
  induction s as [|b s IH]; [done|]. rewrite !app_cons. by rewrite IH.
Qed.

Lemma app_empty (s : string) : s +:+ EmptyString = s.
Proof. induction s as [|b s IH]; [done|]. rewrite app_cons. by rewrite IH. Qed.

Lemma splitLines_line (cur h body : string) :
  occurs newlineChar h = false →
  splitLines cur (h +:+ String newlineChar body)
  = (cur +:+ h) :: splitLines EmptyString body.
Proof.
  revert cur. induction h as [|a h IH]; intros cur Hh.
  - by rewrite app_empty.
  - simpl in Hh. apply orb_false_iff in Hh as [Ha Hh].
    rewrite app_cons. simpl. rewrite Ha, IH by done. by rewrite app_snoc.
Qed.

Lemma splitLines_single (cur h : string) :
  occurs newlineChar h = false → splitLines cur h = [cur +:+ h].
Proof.
  revert cur. induction h as [|a h IH]; intros cur Hh; simpl.
  - by rewrite app_empty.
  - simpl in Hh. apply orb_false_iff in Hh as [Ha Hh].
    rewrite Ha, IH by done. by rewrite app_snoc.
Qed.

(** X18. The first line of the file is skipped whatever it holds: two
    files that differ in their first line only give the same batch, and
    a file of one line gives the empty batch. *)
Theorem first_line_skipped
    (o : Oracle) (existingCustomers existingParents : list Customer.t)
    (h1 h2 body : string) :
  occurs newlineChar h1 = false →
  occurs newlineChar h2 = false →
  processFile o existingCustomers existingParents
    (h1 +:+ String newlineChar body)
  = processFile o existingCustomers existingParents
      (h2 +:+ String newlineChar body)
  ∧ processFile o existingCustomers existingParents h1
    = Some {| validCustomers := []; errors := [] |}.
Proof.
  intros H1 H2. unfold processFile, dataRowsOf. split.
  - by rewrite !splitLines_line.
  - by rewrite splitLines_single.
Qed.

Lemma first_line_skipped_witness :
  processFile Sample.oracle Sample.population []
    ("Name,Account" +:+ String newlineChar "Hooli,3002,2 Main St,62702,,Bo,bo@hooli.test")
  = processFile Sample.oracle Sample.population []
      ("anything" +:+ String newlineChar "Hooli,3002,2 Main St,62702,,Bo,bo@hooli.test")
  ∧ processFile Sample.oracle Sample.population [] "Name,Account"
    = Some {| validCustomers := []; errors := [] |}.
Proof.
  apply (first_line_skipped Sample.oracle Sample.population []
           "Name,Account" "anything"); reflexivity.
Defined.

(** X19. The row number of a rejection entry of a file counts the data
    lines that are not blank, from 2 on: it is the position of such a
    line, not its line number in the file. *)
Theorem file_error_rows
    (o : Oracle) (existingCustomers existingParents : list Customer.t)
    (text : string) (out : ProcessedBatch) (e : RowError.t) :
  processFile o existingCustomers existingParents text = Some out →
  e ∈ errors out →
  2 ≤ RowError.rowNumber e
  ∧ ∃ line, dataRowsOf text !! (RowError.rowNumber e - 2) = Some line
            ∧ JS.blank line = false
            ∧ 7 ≤ length (parseCSVLine line).
Proof.
  unfold processFile. intros Hout He.
  destruct (analyzeRows_error_rows o existingCustomers existingParents
              _ out e Hout He) as (r & Hr & ->).
  apply rawRowsOf_elem in Hr as (index & line & Hline & Hrow).
  rewrite (parseRow_rowNumber _ _ _ Hrow).
  split; [lia|]. exists line.
  replace (index + 2 - 2) with index by lia.
  split; [done|]. split.
  - apply list_elem_of_lookup_2 in Hline.
    apply list_elem_of_In, filter_In in Hline as [_ Hline].
    by apply negb_true_iff.
  - unfold parseRow in Hrow. by case_bool_decide.
Qed.

Lemma file_error_rows_witness :
  let text :=
    "header" +:+ String newlineChar
      (String newlineChar "Acme Two,1001,1 Main St,62701,,Al,al@acme.test") in
  ∃ out e,
    processFile Sample.oracle Sample.population [] text = Some out
    ∧ errors out = [e]
    ∧ RowError.rowNumber e = 2
    ∧ ∃ line, dataRowsOf text !! 0 = Some line ∧ JS.blank line = false.
Proof.
  cbv zeta. eexists. eexists. split; [vm_compute; reflexivity|].
  split; [reflexivity|]. split; [reflexivity|].
  destruct (file_error_rows Sample.oracle Sample.population []
              ("header" +:+ String newlineChar
                 (String newlineChar
                    "Acme Two,1001,1 Main St,62701,,Al,al@acme.test"))
              _ _ eq_refl ltac:(left)) as (_ & line & Hline & Hblank & _).
  exists line. split; [exact Hline | exact Hblank].
Defined.

Lemma splitFields_quoted (cur f rest : string) :
  occurs quoteChar f = false →
  splitFields true cur (f +:+ rest) = splitFields true (cur +:+ f) rest.
Proof.
  revert cur. induction f as [|a f IH]; intros cur Hf.
  - by rewrite app_empty.
  - simpl in Hf. apply orb_false_iff in Hf as [Ha Hf].
    rewrite app_cons. simpl. rewrite Ha, andb_false_r, IH by done.
    by rewrite app_snoc.
Qed.

Lemma splitFields_field (cur f rest : string) :
  occurs quoteChar f = false →
  splitFields false cur (quoteField f +:+ rest)
  = splitFields false (cur +:+ quoteField f) rest.
Proof.
  intros Hf. unfold quoteField. rewrite app_cons. simpl.
  rewrite app_snoc, splitFields_quoted by done. simpl.
  by rewrite app_snoc, app_assoc', app_cons.
Qed.

Lemma splitFields_end (inQuotes : bool) (cur : string) :
  splitFields inQuotes cur EmptyString = [cur].
Proof. done. Qed.

Lemma splitFields_template (fields : list string) :
  fields ≠ [] →
  (∀ f, f ∈ fields → occurs quoteChar f = false) →
  splitFields false EmptyString (templateLine fields) = quoteField <$> fields.
Proof.
  unfold templateLine. induction fields as [|f fs IH]; [done|].
  intros _ Hfs. assert (occurs quoteChar f = false) as Hf by (apply Hfs; left).
  destruct fs as [|f' fs].
  - simpl joinComma. rewrite <- (app_empty (quoteField f)) at 1.
    rewrite splitFields_field by done. done.
  - change (joinComma (quoteField <$> f :: f' :: fs))
      with (quoteField f +:+ String commaChar
              (joinComma (quoteField <$> f' :: fs))).
    rewrite splitFields_field by done.
    change (splitFields false (EmptyString +:+ quoteField f)
              (String commaChar (joinComma (quoteField <$> f' :: fs))))
      with (quoteField f
            :: splitFields false EmptyString
                 (joinComma (quoteField <$> f' :: fs))).
    rewrite IH; [done|done|]. intros x Hx. apply Hfs. by right.
Qed.

Lemma dropTrailingQuote_snoc (f : string) :
  dropTrailingQuote (f +:+ String quoteChar EmptyString) = f.
Proof.
  induction f as [|a f IH]; [done|].
  simpl. rewrite IH. by destruct f.
Qed.

Lemma stripQuotes_quoteField (f : string) : stripQuotes (quoteField f) = f.
Proof. unfold quoteField. simpl. apply dropTrailingQuote_snoc. Qed.

(** X20. A line written the way the template writes its sample rows,
    every field between double quotes and the fields joined by commas,
    is read back as the fields, trimmed, as long as no field holds a
    double quote; commas inside a field do not split it. *)
Theorem parseCSVLine_templateLine (fields : list string) :
  fields ≠ [] →
  (∀ f, f ∈ fields → occurs quoteChar f = false) →
  parseCSVLine (templateLine fields) = JS.trim <$> fields.
Proof.
  intros Hne Hfs. unfold parseCSVLine.
  rewrite splitFields_template by done.
  rewrite <- list_fmap_compose. apply list_fmap_ext.
  intros i f _. unfold compose. by rewrite stripQuotes_quoteField.
Qed.

Lemma parseCSVLine_templateLine_witness :
  parseCSVLine (templateLine ["Acme, Inc."; " ACC-9001 "; ""])
  = ["Acme, Inc."; "ACC-9001"; ""].
Proof.
  apply (parseCSVLine_templateLine ["Acme, Inc."; " ACC-9001 "; ""]);
    [done|].
  intros f Hf. repeat (apply elem_of_cons in Hf as [->|Hf]); try reflexivity.
  by apply elem_of_nil in Hf.
Defined.

(** ** The contact editor and the address editor *)

Lemma filter_map_length {A B} (p : B → bool) (f : A → B) (l : list A) :
  length (List.filter p (map f l))
  = length (List.filter (λ x, p (f x)) l).
Proof.
  induction l as [|x l IH]; simpl; [done|].
  destruct (p (f x)); simpl; by rewrite IH.
Qed.

Lemma filter_key_none {A} (key : A → string) (l : list A) (id : string) :
  id ∉ (key <$> l) → List.filter (λ x, String.eqb (key x) id) l = [].
Proof.
  induction l as [|x l IH]; simpl; [done|].
  rewrite not_elem_of_cons. intros [Hne Hid].
  apply not_eq_sym, eqb_false in Hne. rewrite Hne. by apply IH.
Qed.

Lemma filter_key_length {A} (key : A → string) (l : list A) (id : string) :
  NoDup (key <$> l) → id ∈ (key <$> l) →
  length (List.filter (λ x, String.eqb (key x) id) l) = 1.
Proof.
  induction l as [|x l IH]; simpl; [by intros _ ?%elem_of_nil|].
  intros [Hx Hnd]%NoDup_cons [->|Hid]%elem_of_cons.
  - rewrite String.eqb_refl. simpl. by rewrite filter_key_none.
  - destruct (String.eqb (key x) id) eqn:Heq; [|by apply IH].
    apply eqb_true in Heq. by subst.
Qed.

Lemma map_elem_of {A B} (f : A → B) (l : list A) (y : B) :
  y ∈ map f l → ∃ x, x ∈ l ∧ y = f x.
Proof.
  induction l as [|x l IH]; simpl; [by intros ?%elem_of_nil|].
  intros [->|Hy]%elem_of_cons.
  - exists x. split; [left | done].
  - destruct (IH Hy) as (z & Hz & ->). exists z. split; [by right | done].
Qed.

Lemma fmap_map_same {A B C} (f : A → B) (g : B → C) (h : A → C)
    (l : list A) :
  (∀ x, g (f x) = h x) → g <$> map f l = h <$> l.
Proof.
  intros Hgf. induction l as [|x l IH]; simpl; [done|].
  f_equal; [apply Hgf | apply IH].
Qed.

(** X21. Choosing a contact of the list, whose ids are distinct, as
    primary leaves exactly one primary contact, the one chosen, and
    changes nothing else of any contact. *)
Theorem handleSetPrimary_unique (id : string) (contacts : list Contact.t) :
  NoDup (Contact.id <$> contacts) →
  id ∈ (Contact.id <$> contacts) →
  let updated := ContactManager.handleSetPrimary id contacts in
  exactlyOne Contact.isPrimary updated
  ∧ (∀ c, c ∈ updated → Contact.isPrimary c = true ↔ Contact.id c = id)
  ∧ (λ c, (Contact.id c, Contact.name c, Contact.email c, Contact.phone c))
      <$> updated
    = (λ c, (Contact.id c, Contact.name c, Contact.email c, Contact.phone c))
        <$> contacts.
Proof.
  intros Hnd Hid updated. subst updated.
  unfold ContactManager.handleSetPrimary. split; [|split].
  - apply exactlyOne_filter. rewrite filter_map_length. simpl.
    by apply (filter_key_length Contact.id).
  - intros c (c0 & _ & ->)%map_elem_of. simpl. apply eqb_true.
  - by apply fmap_map_same.
Qed.

Lemma handleSetPrimary_unique_witness :
  let contacts :=
    [ Sample.ann; Contact.mk "cont_2" "Bob" "bob@acme.test" "555-0101" true ] in
  exactlyOne Contact.isPrimary
    (ContactManager.handleSetPrimary "cont_2" contacts).
Proof.
  cbv zeta.
  apply (handleSetPrimary_unique "cont_2"
           [ Sample.ann;
             Contact.mk "cont_2" "Bob" "bob@acme.test" "555-0101" true ]).
  - refine (bool_decide_unpack _ _). vm_compute. exact I.
  - right. left.
Defined.


Lemma filter_none_length {A} (p q : A → bool) (l : list A) :
  (∀ x, x ∈ l → p x = true → q x = false) →
  List.filter p (List.filter q l) = [].
Proof.
  induction l as [|x l IH]; simpl; [done|]. intros H.
  assert (List.filter p (List.filter q l) = []) as IH'
    by (apply IH; intros y Hy; apply H; by right).
  destruct (q x) eqn:Hq; simpl; [|done].
  destruct (p x) eqn:Hp; [|done].
  rewrite (H x) in Hq; [done | left | done].
Qed.


Lemma exactlyOne_same {A} (p : A → bool) (l : list A) (c d : A) :
  exactlyOne p l → c ∈ l → d ∈ l → p c = true → p d = true → c = d.
Proof.
  intros (i & x & Hi & Hx & Huniq) [j Hj]%list_elem_of_lookup_1
    [k Hk]%list_elem_of_lookup_1 Hc Hd.
  rewrite (Huniq j c Hj Hc) in Hj. rewrite (Huniq k d Hk Hd) in Hk. congruence.
Qed.







(** X24. Marking an address of the form, whose address ids are
    distinct, as the primary or the billing one leaves exactly one
    address with that flag and changes neither the other flag nor any
    id. *)
Theorem setUniqueAddressFlag_unique
    (id : string) (field : CustomerForm.Flag) (d : FormData.t) :
  NoDup (Address.id <$> FormData.addresses d) →
  id ∈ (Address.id <$> FormData.addresses d) →
  let d' := CustomerForm.setUniqueAddressFlag id field d in
  exactlyOne (CustomerForm.flagOf field) (FormData.addresses d')
  ∧ (∀ other, other ≠ field →
       CustomerForm.flagOf other <$> FormData.addresses d'
       = CustomerForm.flagOf other <$> FormData.addresses d)
  ∧ Address.id <$> FormData.addresses d'
    = Address.id <$> FormData.addresses d.
Proof.
  intros Hnd Hid d'. subst d'.
  unfold CustomerForm.setUniqueAddressFlag. simpl. split; [|split].
  - apply exactlyOne_filter. rewrite filter_map_length.
    rewrite <- (filter_key_length Address.id (FormData.addresses d) id)
      by done.
    f_equal. apply List.filter_ext. intros a. by destruct field, a.
  - intros other Hother. apply fmap_map_same.
    intros a. by destruct other, field, a.
  - apply fmap_map_same. intros a. by destruct field, a.
Qed.

Lemma setUniqueAddressFlag_unique_witness :
  let d :=
    CustomerForm.addAddress 1700000000000 "r1"
      (Sample.form PARENT "Acme HQ" "1001" None) in
  exactlyOne Address.isBilling
    (FormData.addresses
       (CustomerForm.setUniqueAddressFlag "addr_1700000000000_r1"
          CustomerForm.FlagIsBilling d)).
Proof.
  cbv zeta.
  apply (setUniqueAddressFlag_unique "addr_1700000000000_r1"
           CustomerForm.FlagIsBilling
           (CustomerForm.addAddress 1700000000000 "r1"
              (Sample.form PARENT "Acme HQ" "1001" None))).
  - refine (bool_decide_unpack _ _). vm_compute. exact I.
  - refine (bool_decide_unpack _ _). vm_compute. exact I.
Defined.

(** ** The customer form *)

(** X25. Removing the primary address of the form leaves no primary
    address, so the form no longer validates: the validation asks for
    an address when none is left, and for a primary one otherwise. *)
Theorem removeAddress_primary_lost
    (customers : list Customer.t) (existingId : option string)
    (id : string) (d : FormData.t) (a : Address.t) :
  exactlyOne Address.isPrimary (FormData.addresses d) →
  a ∈ FormData.addresses d → Address.id a = id →
  Address.isPrimary a = true →
  let d' := CustomerForm.removeAddress id d in
  List.filter Address.isPrimary (FormData.addresses d') = []
  ∧ (if bool_decide (FormData.addresses d' = [])
     then AddressRequired else NoPrimaryAddress)
    ∈ violations customers d' existingId
  ∧ validateCustomer customers d' existingId ≠ [].
Proof.
  intros Hone Ha Hid Hprimary d'.
  assert (List.filter Address.isPrimary (FormData.addresses d') = []) as Hnone.
  { subst d'. simpl. apply filter_none_length. intros b Hb Hp.
    rewrite (exactlyOne_same Address.isPrimary _ b a Hone) by done.
    rewrite Hid. by rewrite String.eqb_refl. }
  assert ((if bool_decide (FormData.addresses d' = [])
           then AddressRequired else NoPrimaryAddress)
          ∈ violations customers d' existingId) as Hin.
  { unfold violations. rewrite Hnone.
    do 3 (apply elem_of_app; right). apply elem_of_app; left.
    case_bool_decide as Hnil.
    - rewrite Hnil. simpl. left.
    - rewrite bool_decide_eq_false_2
        by (intros Hlen; by apply length_zero_iff_nil in Hlen).
      simpl. left. }
  split; [done|]. split; [done|].
  unfold validateCustomer. intros Hnil%fmap_nil_inv.
  rewrite Hnil in Hin. by apply elem_of_nil in Hin.
Qed.

Lemma removeAddress_primary_lost_witness :
  let d := Sample.form PARENT "Acme HQ" "1001" None in
  validateCustomer Sample.population
    (CustomerForm.removeAddress "addr_1" d) (Some "c1") ≠ [].
Proof.
  cbv zeta.
  apply (removeAddress_primary_lost Sample.population (Some "c1") "addr_1"
           (Sample.form PARENT "Acme HQ" "1001" None) Sample.office).
  - exists 0, Sample.office. split; [done|]. split; [done|].
    intros [|j] y; [done | by destruct j].
  - left.
  - reflexivity.
  - reflexivity.
Defined.

(** The type of the form data follows its parent: DIRECT with a
    non-empty parent id, PARENT with none. *)
Lemma run_link (initialData : option Customer.t)
    (events : list CustomerForm.Event) :
  let d := CustomerForm.run initialData events in
  (FormData.type d = PARENT ∧ FormData.parentId d = None)
  ∨ (FormData.type d = DIRECT
     ∧ ∃ i, FormData.parentId d = Some i ∧ JS.truthy i = true).
Proof.
  cbv zeta. unfold CustomerForm.run.
  induction events as [|e events IH] using rev_ind.
  - destruct initialData as [c|]; simpl; [|by left].
    destruct (Customer.parentId c) as [| |i]; simpl; [by left..|].
    destruct (JS.truthy i) eqn:Hi; [right | by left].
    split; [done|]. by exists i.
  - rewrite foldl_app. simpl.
    destruct (foldl CustomerForm.step _ events) as [ty ? ? ? ? p ?].
    destruct e; simpl in *; try done.
    destruct (JS.truthy value) eqn:Hv; [right | by left].
    split; [done|]. by exists value.
Qed.

(** X26. Whatever the form is opened on and whatever its controls do to
    it, its data never have the type PARENT together with a parent id:
    the validation never reports a parent with a parent, the type is
    DIRECT exactly when a parent is selected, and the parent id is
    never the empty string. *)
Theorem form_type_follows_parent
    (customers : list Customer.t) (existingId : option string)
    (initialData : option Customer.t) (events : list CustomerForm.Event) :
  let d := CustomerForm.run initialData events in
  (ParentHasParent ∉ violations customers d existingId)
  ∧ (FormData.type d = DIRECT ↔ FormData.parentId d ≠ None)
  ∧ FormData.parentId d ≠ Some "".
Proof.
  cbv zeta.
  destruct (violations_by_check customers
              (CustomerForm.run initialData events) existingId)
    as (piece & -> & Hpiece).
  pose proof (run_link initialData events) as Hlink. cbv zeta in Hlink.
  split; [|split].
  - assert (piece RuleHierarchy = []) as ->.
    { apply Hpiece. simpl. intros [Hty (i & Hp & Hi)].
      destruct Hlink as [[_ Hnone]|[Hd _]]; congruence. }
    rewrite app_nil_r, !elem_of_app.
    assert (∀ k, k ≠ RuleHierarchy → ParentHasParent ∉ piece k) as Hother.
    { intros k Hk Hin. destruct (Hpiece k) as [_ Hall].
      rewrite Forall_forall in Hall. by specialize (Hall _ Hin). }
    intros [H|[H|[H|[H|H]]]]; revert H; by apply Hother.
  - destruct Hlink as [[Hty Hp]|[Hty (i & Hp & _)]]; rewrite Hty, Hp; by split.
  - destruct Hlink as [[_ Hp]|[_ (i & Hp & Hi)]]; rewrite Hp; [done|].
    intros [= ->]. done.
Qed.

Lemma childrenEligible_intro (kids : list string) (pop : list Customer.t) :
  (∀ c e, c ∈ pop → e ∈ pop → Customer.id c ∈ kids →
          Customer.parentId e ≠ ref (Customer.id c)) →
  childrenEligible kids pop = true.
Proof.
  intros H. unfold childrenEligible. apply forallb_forall.
  intros c Hc%list_elem_of_In.
  destruct (JS.includes kids (Customer.id c)) eqn:Hk; [simpl | done].
  apply negb_true_iff, not_true_iff_false.
  intros (e & He%list_elem_of_In & Hrefers%refers_ref)%existsb_exists.
  apply (H c e); [done..| |done].
  by apply list_elem_of_In, includes_In.
Qed.

Lemma searchResults_elem (initialData : option Customer.t)
    (linked : list string) (term : string) (pop : list Customer.t)
    (k : string) :
  k ∈ (Customer.id
       <$> CustomerForm.searchResults initialData linked term pop) →
  k ∈ (Customer.id <$> pop)
  ∧ Some k ≠ Customer.id <$> initialData
  ∧ JS.includes linked k = false
  ∧ ∀ e, e ∈ pop → Customer.parentId e ≠ ref k.
Proof.
  intros (c & -> & Hc)%list_elem_of_fmap.
  apply list_elem_of_In, filter_In in Hc as [Hc Hkeep].
  apply list_elem_of_In in Hc.
  case_bool_decide as Hself; [done|].
  destruct (JS.includes linked (Customer.id c)); [done|].
  destruct (CustomerForm.isParentRecursive pop (Customer.id c)) eqn:Hrec;
    [done|].
  split; [by apply list_elem_of_fmap_2|]. split; [done|]. split; [done|].
  intros e He Hrefers. apply not_true_iff_false in Hrec. apply Hrec.
  apply existsb_exists. exists e.
  split; [by apply list_elem_of_In | by apply refers_ref].
Qed.

Lemma initialLinkedChildIds_elem (initialData : option Customer.t)
    (pop : list Customer.t) (k : string) :
  k ∈ CustomerForm.initialLinkedChildIds initialData pop →
  ∃ i e, initialData = Some i ∧ e ∈ pop ∧ Customer.id e = k
         ∧ Customer.parentId e = ref (Customer.id i).
Proof.
  unfold CustomerForm.initialLinkedChildIds.
  destruct initialData as [i|]; [|by intros ?%elem_of_nil].
  destruct (isParentType (Customer.type i)); [|by intros ?%elem_of_nil].
  intros (e & -> & He)%list_elem_of_fmap.
  apply list_elem_of_In, filter_In in He as [He Hrefers].
  exists i, e. split; [done|]. split; [by apply list_elem_of_In|].
  split; [done | by apply refers_ref].
Qed.

Lemma picked_in_pop (initialData : option Customer.t)
    (pop : list Customer.t) (kids : list string) (k : string) :
  CustomerForm.picked initialData pop kids → k ∈ kids →
  k ∈ (Customer.id <$> pop).
Proof.
  intros Hpicked Hk.
  destruct (Hpicked k Hk) as [Hinit|(linked & term & Hsearch)].
  - apply initialLinkedChildIds_elem in Hinit as (i & e & _ & He & <- & _).
    by apply list_elem_of_fmap_2.
  - by apply searchResults_elem in Hsearch as [? _].
Qed.

Lemma picked_eligible (initialData : option Customer.t)
    (pop : list Customer.t) (kids : list string) :
  hierarchyDepthOk pop = true →
  (∀ c, c ∈ pop → Customer.parentId c ≠ ref (Customer.id c)) →
  CustomerForm.picked initialData pop kids →
  childrenEligible kids pop = true.
Proof.
  intros Hdepth Hself Hpicked. apply childrenEligible_intro.
  intros c e Hc He Hk Hrefers.
  destruct (Hpicked _ Hk) as [Hinit|(linked & term & Hsearch)].
  - apply initialLinkedChildIds_elem in Hinit
      as (i & e' & _ & He' & Hid & Hparent).
    destruct (decide (Customer.id e = Customer.id e')) as [Heq|Hne].
    + apply (Hself e He). congruence.
    + unfold hierarchyDepthOk in Hdepth.
      rewrite noChildIsParent_spec in Hdepth.
      specialize (Hdepth e' e). rewrite Hparent in Hdepth.
      assert (linked (ref (Customer.id i)) = false) as Hlinked; [|done].
      apply Hdepth; [by apply list_elem_of_In..|done|congruence].
  - apply searchResults_elem in Hsearch as (_ & _ & _ & Hnone).
    by apply (Hnone e).
Qed.

Lemma picked_not_self (selectedCustomerId : string) (pop : list Customer.t)
    (kids : list string) :
  (∀ c, c ∈ pop → Customer.parentId c ≠ ref (Customer.id c)) →
  JS.truthy selectedCustomerId = true →
  CustomerForm.picked (App.selectedCustomer (Some selectedCustomerId) pop)
    pop kids →
  selectedCustomerId ∉ kids.
Proof.
  intros Hself Htruthy Hpicked Hk. simpl in Hpicked.
  rewrite Htruthy in Hpicked.
  destruct (Hpicked _ Hk) as [Hinit|(linked & term & Hsearch)].
  - apply initialLinkedChildIds_elem in Hinit
      as (i & e & Hfind & He & Hid & Hparent).
    apply find_some in Hfind as [_ Hi%eqb_true].
    apply (Hself e He). congruence.
  - apply searchResults_elem in Hsearch
      as ((c & Hid & Hc)%list_elem_of_fmap & Hnot & _).
    destruct (List.find _ pop) as [i|] eqn:Hfind.
    + apply find_some in Hfind as [_ Hi%eqb_true]. simpl in Hnot. congruence.
    + apply list_elem_of_In in Hc.
      pose proof (find_none _ _ Hfind c Hc) as Hne. simpl in Hne.
      apply eqb_false in Hne. congruence.
Qed.

(** X27. Submitting a form of type PARENT whose linked children were
    all found by the form, as children of the customer edited or among
    the search results, keeps the hierarchy two levels deep, for a new
    customer with a fresh id as for an edited one, as long as no
    customer is its own parent. *)
Theorem form_links_keep_depth
    (now : N) (iso : string) (edit : bool) (selectedCustomerId : option string)
    (events : list CustomerForm.Event) (linkedChildIds : list string)
    (pop : list Customer.t) :
  let initialData := App.selectedCustomer selectedCustomerId pop in
  let formData := CustomerForm.run initialData events in
  hierarchyDepthOk pop = true →
  (∀ c, c ∈ pop → Customer.parentId c ≠ ref (Customer.id c)) →
  "cust_" +:+ pretty now ∉ (Customer.id <$> pop) →
  FormData.type formData = PARENT →
  CustomerForm.picked initialData pop linkedChildIds →
  hierarchyDepthOk
    (App.submitForm now iso edit selectedCustomerId formData linkedChildIds pop)
  = true.
Proof.
  intros initialData formData Hdepth Hself Hfresh Hty Hpicked.
  unfold App.submitForm. case_bool_decide; [done|].
  pose proof (picked_eligible _ _ _ Hdepth Hself Hpicked) as Hkids.
  assert (createEligible now formData linkedChildIds pop = true) as Hcreate.
  { unfold createEligible. rewrite Hty, Hkids, andb_true_r.
    apply andb_true_iff. split; apply negb_true_iff, not_true_iff_false.
    - intros (c & Hc%list_elem_of_In & Hid%eqb_true)%existsb_exists.
      apply Hfresh. rewrite <- Hid. by apply list_elem_of_fmap_2.
    - intros Hin%includes_In%list_elem_of_In. apply Hfresh.
      by eapply picked_in_pop. }
  unfold App.handleSubmit.
  destruct selectedCustomerId as [id|]; [|by apply addCustomer_depth].
  destruct edit; simpl; [|by apply addCustomer_depth].
  destruct (JS.truthy id) eqn:Hid; [|by apply addCustomer_depth].
  apply updateCustomer_depth; [done|].
  unfold updateEligible. rewrite Hty, Hkids, andb_true_r.
  apply andb_true_iff. split.
  - apply bool_decide_eq_true.
    destruct (run_link initialData events) as [[_ Hp]|[Hd _]];
      [done | fold formData in Hd; congruence].
  - apply negb_true_iff, not_true_iff_false.
    intros Hin%includes_In%list_elem_of_In.
    by apply (picked_not_self id pop linkedChildIds).
Qed.

Lemma form_links_keep_depth_witness :
  let formData := CustomerForm.run (Some Sample.acme) [] in
  let after :=
    App.submitForm 1700000000000 "2024-02-01T00:00:00.000Z" true (Some "c1")
      formData ["c2"; "c3"] Sample.population in
  linkage <$> after
  = [("c1", null, PARENT); ("c2", ref "c1", DIRECT); ("c3", ref "c1", DIRECT)]
  ∧ hierarchyDepthOk after = true.
Proof.
  cbv zeta. split; [reflexivity|].
  apply (form_links_keep_depth 1700000000000 "2024-02-01T00:00:00.000Z" true
           (Some "c1") [] ["c2"; "c3"] Sample.population).
  - reflexivity.
  - intros c Hc. repeat (apply elem_of_cons in Hc as [->|Hc]); try done.
    by apply elem_of_nil in Hc.
  - refine (bool_decide_unpack _ _). vm_compute. exact I.
  - reflexivity.
  - intros k Hk. repeat (apply elem_of_cons in Hk as [->|Hk]).
    + left. refine (bool_decide_unpack _ _). vm_compute. exact I.
    + right. exists ["c2"], "glo".
      refine (bool_decide_unpack _ _). vm_compute. exact I.
    + by apply elem_of_nil in Hk.
Defined.

Lemma toggle_elem (childId : string) (prev : list string) (k : string) :
  k ∈ CustomerForm.toggleChildLink childId prev →
  k ∈ prev ∨ (k = childId ∧ childId ∉ prev).
Proof.
  unfold CustomerForm.toggleChildLink.
  destruct (JS.includes prev childId) eqn:Hin.
  - intros [Hk _]%list_elem_of_In%filter_In. left. by apply list_elem_of_In.
  - intros [Hk|Hk%list_elem_of_singleton]%elem_of_app; [by left|].
    right. split; [done|]. intros Hprev%list_elem_of_In%includes_In.
    congruence.
Qed.

Lemma NoDup_List_filter {A} (p : A → bool) (l : list A) :
  NoDup l → NoDup (List.filter p l).
Proof.
  induction l as [|x l IH]; simpl; [done|].
  intros [Hx Hnd]%NoDup_cons. destruct (p x); [|by apply IH].
  apply NoDup_cons. split; [|by apply IH].
  intros [Hin _]%list_elem_of_In%filter_In. by apply Hx, list_elem_of_In.
Qed.

(** X28. The linked ids stay ids the form found: they are so at the
    start, and toggling an id of the search results or of the linked
    list keeps them so. Toggling links an id that was not linked and
    unlinks one that was, leaves every other id as it was, and never
    lists an id twice. *)
Theorem toggleChildLink_picked
    (initialData : option Customer.t) (allCustomers : list Customer.t)
    (linkedChildIds : list string) (term childId : string) :
  CustomerForm.picked initialData allCustomers linkedChildIds →
  NoDup linkedChildIds →
  childId ∈ linkedChildIds
  ∨ childId ∈ (Customer.id
               <$> CustomerForm.searchResults initialData linkedChildIds term
                     allCustomers) →
  let next := CustomerForm.toggleChildLink childId linkedChildIds in
  CustomerForm.picked initialData allCustomers next
  ∧ NoDup next
  ∧ (childId ∈ next ↔ childId ∉ linkedChildIds)
  ∧ ∀ k, k ≠ childId → k ∈ next ↔ k ∈ linkedChildIds.
Proof.
  intros Hpicked Hnd Hchild next. subst next. split; [|split; [|split]].
  - intros k [Hk|[-> Hnew]]%toggle_elem; [by apply Hpicked|].
    destruct Hchild as [Hold|Hsearch]; [done|].
    right. by exists linkedChildIds, term.
  - unfold CustomerForm.toggleChildLink.
    destruct (JS.includes linkedChildIds childId) eqn:Hin.
    + by apply NoDup_List_filter.
    + apply NoDup_app. split; [done|]. split; [|apply NoDup_singleton].
      intros k Hk ->%list_elem_of_singleton.
      apply list_elem_of_In, includes_In in Hk. congruence.
  - unfold CustomerForm.toggleChildLink.
    destruct (JS.includes linkedChildIds childId) eqn:Hin.
    + apply includes_In, list_elem_of_In in Hin. split; [|done].
      intros [_ Hne]%list_elem_of_In%filter_In.
      by rewrite String.eqb_refl in Hne.
    + split.
      * intros _ Hold%list_elem_of_In%includes_In. congruence.
      * intros _. apply elem_of_app. right. left.
  - intros k Hne. unfold CustomerForm.toggleChildLink.
    destruct (JS.includes linkedChildIds childId).
    + split.
      * intros [Hk _]%list_elem_of_In%filter_In. by apply list_elem_of_In.
      * intros Hk. apply list_elem_of_In, filter_In.
        split; [by apply list_elem_of_In|]. by apply negb_true_iff, eqb_false.
    + rewrite elem_of_app, list_elem_of_singleton. tauto.
Qed.

Lemma toggleChildLink_picked_witness :
  CustomerForm.picked (Some Sample.acme) Sample.population
    (CustomerForm.toggleChildLink "c3"
       (CustomerForm.initialLinkedChildIds (Some Sample.acme)
          Sample.population))
  ∧ CustomerForm.toggleChildLink "c3"
      (CustomerForm.initialLinkedChildIds (Some Sample.acme) Sample.population)
    = ["c2"; "c3"].
Proof.
  split; [|reflexivity].
  apply (toggleChildLink_picked (Some Sample.acme) Sample.population
           (CustomerForm.initialLinkedChildIds (Some Sample.acme)
              Sample.population) "" "c3").
  - intros k Hk. by left.
  - refine (bool_decide_unpack _ _). vm_compute. exact I.
  - right. refine (bool_decide_unpack _ _). vm_compute. exact I.
Defined.

(** ** The customer list *)






(** ** Importing a file into the store *)



